(** * The Streamable-HTTP fetch transport of the Azure DevOps MCP server

    A shallow embedding of [StreamableHttpFetchTransport]
    (transport/streamable-http-fetch.ts) and the properties of its
    message router, session state machine and stream life cycle.

    The transport is a JavaScript object whose methods mutate its fields.
    Every method is embedded as a function that takes the transport and
    returns the transport after the call together with what the call
    returned or threw.  Objects that the source shares by reference (the
    [StreamState] objects, their controllers and pending-id sets, and the
    promises of the JSON mode) live in two stores inside the transport and
    are named by their allocation index, so that a closure holding on to a
    stream sees the same object as the stream map does.  The message
    handler of the server is a function from the message it is called with
    to the calls of [send] it makes before it returns; what the server sends
    later is a call of [send] like any other.

    The development has three parts: the transport as the source has it;
    the notions the properties are stated with; the properties, their
    instances at concrete transports, and the inputs at which the code
    departs from a claim. *)

From stdpp Require Import gmap strings list fin_maps.
From Stdlib Require Import ZArith Ascii.

#[local] Set Warnings "-clear-no-such-hyp".

(** ** JSON-RPC messages (the part of the SDK types the transport inspects) *)

(** [RequestId] is [string | number]; a JavaScript [Map] or [Set] keeps the
    number 1 and the string "1" apart. *)
Inductive RequestId :=
| IdNumber (n : Z)
| IdString (s : string).

Global Instance RequestId_eq_dec : EqDecision RequestId.
Proof. solve_decision. Defined.

Global Instance RequestId_countable : Countable RequestId.
Proof.
  refine (inj_countable'
            (fun r => match r with IdNumber n => inl n | IdString s => inr s end)
            (fun x => match x with inl n => IdNumber n | inr s => IdString s end) _).
  by intros [].
Defined.

(** A message is a request, a notification, a response or an error.  The
    id of an error is optional: [send] has a branch for a reply that carries
    no id. *)
Inductive JSONRPCMessage :=
| JSONRPCRequest (id : RequestId) (method : string) (params : string)
| JSONRPCNotification (method : string) (params : string)
| JSONRPCResponse (id : RequestId) (result : string)
| JSONRPCError (id : option RequestId) (code : Z) (message : string).

Definition isJSONRPCRequest (m : JSONRPCMessage) : bool :=
  match m with JSONRPCRequest _ _ _ => true | _ => false end.

Definition isJSONRPCResponse (m : JSONRPCMessage) : bool :=
  match m with JSONRPCResponse _ _ => true | _ => false end.

Definition isJSONRPCError (m : JSONRPCMessage) : bool :=
  match m with JSONRPCError _ _ _ => true | _ => false end.

(** [message.id], [undefined] when the message has none. *)
Definition message_id (m : JSONRPCMessage) : option RequestId :=
  match m with
  | JSONRPCRequest i _ _ => Some i
  | JSONRPCNotification _ _ => None
  | JSONRPCResponse i _ => Some i
  | JSONRPCError i _ _ => i
  end.

(** What the platform and the SDK provide: the UUID source (the n-th call of
    [crypto.randomUUID]), the protocol version constants, and the schema
    that [isInitializeRequest] applies to the parameters of a request. *)
Class Environment := {
  randomUUID : nat -> string;
  SUPPORTED_PROTOCOL_VERSIONS : list string;
  DEFAULT_NEGOTIATED_PROTOCOL_VERSION : string;
  InitializeRequestSchema : string -> bool;
}.

(** ** HTTP requests and responses *)

(** The outcome of [request.json()] followed by [JSONRPCMessageSchema.parse]
    on every element: an element is [None] when the schema rejects it. *)
Inductive RequestBody :=
| BodyMalformed
| BodyArray (items : list (option JSONRPCMessage))
| BodyObject (item : option JSONRPCMessage).

Record Request := {
  req_method : string;
  hdr_host : option string;
  hdr_origin : option string;
  hdr_accept : option string;
  hdr_content_type : option string;
  hdr_mcp_session_id : option string;
  hdr_mcp_protocol_version : option string;
  req_body : RequestBody;
}.

Definition AuthInfo := string.

Record MessageExtraInfo := {
  authInfo : option AuthInfo;
  requestInfo : Request;
}.

(** The JSON text of a response body in JSON mode: [JSON.stringify] of one
    message or of an array of messages. *)
Inductive JsonPayload :=
| PayloadObject (m : JSONRPCMessage)
| PayloadArray (ms : list JSONRPCMessage).

Inductive ResponseBody :=
| BodyNull
| BodyErrorEnvelope (code : Z) (message : string)
| BodyEventStream (stream : nat)
| BodyJson (payload : JsonPayload).

Record Response := {
  status : nat;
  headers : list (string * string);
  body : ResponseBody;
}.

(** ** The transport *)

(** A [StreamState] object with its controller and its pending-id set.
    [closed] is the state of the controller: once it is set, [enqueue]
    and [close] throw.  [chunks] are the events enqueued so far. *)
Record StreamState := {
  stream_id : string;
  closed : bool;
  chunks : list JSONRPCMessage;
  pendingIds : gset RequestId;
}.

(** One call of [send] as the message handler issues it. *)
Definition SendCall : Type := JSONRPCMessage * option RequestId.

Record Transport := {
  sessionIdGenerator : option (nat -> string);
  _initialized : bool;
  _enableJsonResponse : bool;
  _allowedHosts : option (list string);
  _allowedOrigins : option (list string);
  _enableDnsRebindingProtection : bool;
  _standaloneStream : option nat;
  _streams : gmap string nat;
  _requestToStream : gmap RequestId string;
  _pendingJsonResponses : gmap RequestId nat;
  sessionId : option string;
  (* the callbacks: whether one is installed, and for [onmessage] the
     calls of [send] it makes before it returns *)
  onclose : bool;
  onerror : bool;
  onmessage : option (JSONRPCMessage -> MessageExtraInfo -> list SendCall);
  (* the stores of shared objects *)
  objects : list StreamState;
  promises : list (option JSONRPCMessage);
  (* counters of the calls made so far *)
  generatorCalls : nat;
  uuidCalls : nat;
  oncloseCalls : nat;
  onerrorCalls : nat;
}.

Record StreamableHttpFetchTransportOptions := {
  opt_sessionIdGenerator : option (nat -> string);
  opt_enableJsonResponse : option bool;
  opt_allowedHosts : option (list string);
  opt_allowedOrigins : option (list string);
  opt_enableDnsRebindingProtection : option bool;
}.

Definition constructor (options : StreamableHttpFetchTransportOptions) : Transport :=
  {| sessionIdGenerator := opt_sessionIdGenerator options;
     _initialized := false;
     _enableJsonResponse := default false (opt_enableJsonResponse options);
     _allowedHosts := opt_allowedHosts options;
     _allowedOrigins := opt_allowedOrigins options;
     _enableDnsRebindingProtection := default false (opt_enableDnsRebindingProtection options);
     _standaloneStream := None;
     _streams := ∅;
     _requestToStream := ∅;
     _pendingJsonResponses := ∅;
     sessionId := None;
     onclose := false;
     onerror := false;
     onmessage := None;
     objects := [];
     promises := [];
     generatorCalls := 0;
     uuidCalls := 0;
     oncloseCalls := 0;
     onerrorCalls := 0 |}.

(** Field updates. *)
Definition set_initialized (v : bool) (t : Transport) : Transport :=
  {| sessionIdGenerator := sessionIdGenerator t; _initialized := v;
     _enableJsonResponse := _enableJsonResponse t; _allowedHosts := _allowedHosts t;
     _allowedOrigins := _allowedOrigins t;
     _enableDnsRebindingProtection := _enableDnsRebindingProtection t;
     _standaloneStream := _standaloneStream t; _streams := _streams t;
     _requestToStream := _requestToStream t;
     _pendingJsonResponses := _pendingJsonResponses t; sessionId := sessionId t;
     onclose := onclose t; onerror := onerror t; onmessage := onmessage t;
     objects := objects t; promises := promises t;
     generatorCalls := generatorCalls t; uuidCalls := uuidCalls t;
     oncloseCalls := oncloseCalls t; onerrorCalls := onerrorCalls t |}.

Definition set_standaloneStream (v : option nat) (t : Transport) : Transport :=
  {| sessionIdGenerator := sessionIdGenerator t; _initialized := _initialized t;
     _enableJsonResponse := _enableJsonResponse t; _allowedHosts := _allowedHosts t;
     _allowedOrigins := _allowedOrigins t;
     _enableDnsRebindingProtection := _enableDnsRebindingProtection t;
     _standaloneStream := v; _streams := _streams t;
     _requestToStream := _requestToStream t;
     _pendingJsonResponses := _pendingJsonResponses t; sessionId := sessionId t;
     onclose := onclose t; onerror := onerror t; onmessage := onmessage t;
     objects := objects t; promises := promises t;
     generatorCalls := generatorCalls t; uuidCalls := uuidCalls t;
     oncloseCalls := oncloseCalls t; onerrorCalls := onerrorCalls t |}.

Definition set_streams (v : gmap string nat) (t : Transport) : Transport :=
  {| sessionIdGenerator := sessionIdGenerator t; _initialized := _initialized t;
     _enableJsonResponse := _enableJsonResponse t; _allowedHosts := _allowedHosts t;
     _allowedOrigins := _allowedOrigins t;
     _enableDnsRebindingProtection := _enableDnsRebindingProtection t;
     _standaloneStream := _standaloneStream t; _streams := v;
     _requestToStream := _requestToStream t;
     _pendingJsonResponses := _pendingJsonResponses t; sessionId := sessionId t;
     onclose := onclose t; onerror := onerror t; onmessage := onmessage t;
     objects := objects t; promises := promises t;
     generatorCalls := generatorCalls t; uuidCalls := uuidCalls t;
     oncloseCalls := oncloseCalls t; onerrorCalls := onerrorCalls t |}.

Definition set_requestToStream (v : gmap RequestId string) (t : Transport) : Transport :=
  {| sessionIdGenerator := sessionIdGenerator t; _initialized := _initialized t;
     _enableJsonResponse := _enableJsonResponse t; _allowedHosts := _allowedHosts t;
     _allowedOrigins := _allowedOrigins t;
     _enableDnsRebindingProtection := _enableDnsRebindingProtection t;
     _standaloneStream := _standaloneStream t; _streams := _streams t;
     _requestToStream := v;
     _pendingJsonResponses := _pendingJsonResponses t; sessionId := sessionId t;
     onclose := onclose t; onerror := onerror t; onmessage := onmessage t;
     objects := objects t; promises := promises t;
     generatorCalls := generatorCalls t; uuidCalls := uuidCalls t;
     oncloseCalls := oncloseCalls t; onerrorCalls := onerrorCalls t |}.

Definition set_pendingJsonResponses (v : gmap RequestId nat) (t : Transport) : Transport :=
  {| sessionIdGenerator := sessionIdGenerator t; _initialized := _initialized t;
     _enableJsonResponse := _enableJsonResponse t; _allowedHosts := _allowedHosts t;
     _allowedOrigins := _allowedOrigins t;
     _enableDnsRebindingProtection := _enableDnsRebindingProtection t;
     _standaloneStream := _standaloneStream t; _streams := _streams t;
     _requestToStream := _requestToStream t;
     _pendingJsonResponses := v; sessionId := sessionId t;
     onclose := onclose t; onerror := onerror t; onmessage := onmessage t;
     objects := objects t; promises := promises t;
     generatorCalls := generatorCalls t; uuidCalls := uuidCalls t;
     oncloseCalls := oncloseCalls t; onerrorCalls := onerrorCalls t |}.

Definition set_sessionId (v : option string) (t : Transport) : Transport :=
  {| sessionIdGenerator := sessionIdGenerator t; _initialized := _initialized t;
     _enableJsonResponse := _enableJsonResponse t; _allowedHosts := _allowedHosts t;
     _allowedOrigins := _allowedOrigins t;
     _enableDnsRebindingProtection := _enableDnsRebindingProtection t;
     _standaloneStream := _standaloneStream t; _streams := _streams t;
     _requestToStream := _requestToStream t;
     _pendingJsonResponses := _pendingJsonResponses t; sessionId := v;
     onclose := onclose t; onerror := onerror t; onmessage := onmessage t;
     objects := objects t; promises := promises t;
     generatorCalls := generatorCalls t; uuidCalls := uuidCalls t;
     oncloseCalls := oncloseCalls t; onerrorCalls := onerrorCalls t |}.

Definition set_objects (v : list StreamState) (t : Transport) : Transport :=
  {| sessionIdGenerator := sessionIdGenerator t; _initialized := _initialized t;
     _enableJsonResponse := _enableJsonResponse t; _allowedHosts := _allowedHosts t;
     _allowedOrigins := _allowedOrigins t;
     _enableDnsRebindingProtection := _enableDnsRebindingProtection t;
     _standaloneStream := _standaloneStream t; _streams := _streams t;
     _requestToStream := _requestToStream t;
     _pendingJsonResponses := _pendingJsonResponses t; sessionId := sessionId t;
     onclose := onclose t; onerror := onerror t; onmessage := onmessage t;
     objects := v; promises := promises t;
     generatorCalls := generatorCalls t; uuidCalls := uuidCalls t;
     oncloseCalls := oncloseCalls t; onerrorCalls := onerrorCalls t |}.

Definition set_promises (v : list (option JSONRPCMessage)) (t : Transport) : Transport :=
  {| sessionIdGenerator := sessionIdGenerator t; _initialized := _initialized t;
     _enableJsonResponse := _enableJsonResponse t; _allowedHosts := _allowedHosts t;
     _allowedOrigins := _allowedOrigins t;
     _enableDnsRebindingProtection := _enableDnsRebindingProtection t;
     _standaloneStream := _standaloneStream t; _streams := _streams t;
     _requestToStream := _requestToStream t;
     _pendingJsonResponses := _pendingJsonResponses t; sessionId := sessionId t;
     onclose := onclose t; onerror := onerror t; onmessage := onmessage t;
     objects := objects t; promises := v;
     generatorCalls := generatorCalls t; uuidCalls := uuidCalls t;
     oncloseCalls := oncloseCalls t; onerrorCalls := onerrorCalls t |}.

Definition set_counters (g u c e : nat) (t : Transport) : Transport :=
  {| sessionIdGenerator := sessionIdGenerator t; _initialized := _initialized t;
     _enableJsonResponse := _enableJsonResponse t; _allowedHosts := _allowedHosts t;
     _allowedOrigins := _allowedOrigins t;
     _enableDnsRebindingProtection := _enableDnsRebindingProtection t;
     _standaloneStream := _standaloneStream t; _streams := _streams t;
     _requestToStream := _requestToStream t;
     _pendingJsonResponses := _pendingJsonResponses t; sessionId := sessionId t;
     onclose := onclose t; onerror := onerror t; onmessage := onmessage t;
     objects := objects t; promises := promises t;
     generatorCalls := g; uuidCalls := u;
     oncloseCalls := c; onerrorCalls := e |}.

Definition tick_generator (t : Transport) : Transport :=
  set_counters (S (generatorCalls t)) (uuidCalls t) (oncloseCalls t) (onerrorCalls t) t.
Definition tick_uuid (t : Transport) : Transport :=
  set_counters (generatorCalls t) (S (uuidCalls t)) (oncloseCalls t) (onerrorCalls t) t.
Definition tick_onclose (t : Transport) : Transport :=
  set_counters (generatorCalls t) (uuidCalls t) (S (oncloseCalls t)) (onerrorCalls t) t.
Definition tick_onerror (t : Transport) : Transport :=
  set_counters (generatorCalls t) (uuidCalls t) (oncloseCalls t) (S (onerrorCalls t)) t.

(** *** Stream objects *)

(** [controller.enqueue(chunk)] throws once the controller is closed. *)
Definition enqueue (m : JSONRPCMessage) (st : StreamState) : StreamState :=
  {| stream_id := stream_id st; closed := closed st;
     chunks := chunks st ++ [m]; pendingIds := pendingIds st |}.

(** [try { controller.close() } catch { }]: closing a closed controller
    throws, and the error is dropped. *)
Definition close_controller (st : StreamState) : StreamState :=
  {| stream_id := stream_id st; closed := true;
     chunks := chunks st; pendingIds := pendingIds st |}.

(** [stream.pendingIds.delete(requestId)] *)
Definition delete_pending (r : RequestId) (st : StreamState) : StreamState :=
  {| stream_id := stream_id st; closed := closed st;
     chunks := chunks st; pendingIds := pendingIds st ∖ {[r]} |}.

Definition new_stream (streamId : string) (pending : gset RequestId) : StreamState :=
  {| stream_id := streamId; closed := false; chunks := []; pendingIds := pending |}.

(** What a call of [send] does: it returns, or it throws one of three
    errors. *)
Inductive SendOutcome :=
| Sent
| ThrowNoRelatedRequest
| ThrowNoConnection (requestId : RequestId)
| ThrowEnqueue.

Global Instance SendOutcome_eq_dec : EqDecision SendOutcome.
Proof. solve_decision. Defined.

(** [writeSseEvent(controller, message)] on the controller of object
    [ref]. *)
Definition writeSseEvent (t : Transport) (ref : nat) (m : JSONRPCMessage)
  : Transport * SendOutcome :=
  match objects t !! ref with
  | Some st =>
      if closed st then (t, ThrowEnqueue)
      else (set_objects (<[ref := enqueue m st]> (objects t)) t, Sent)
  | None => (t, ThrowEnqueue)
  end.

Definition isReply (m : JSONRPCMessage) : bool :=
  isJSONRPCResponse m || isJSONRPCError m.

(** The empty string is the only falsy string. *)
Definition truthy (s : string) : bool :=
  match s with EmptyString => false | _ => true end.

(** [streamId ? this._streams.get(streamId) : undefined] for the stream id
    that the reverse index has for [r]. *)
Definition lookupStream (t : Transport) (r : RequestId) : option nat :=
  match _requestToStream t !! r with
  | Some streamId => if truthy streamId then _streams t !! streamId else None
  | None => None
  end.

(** The end of [send] for a response or an error written to object [ref]. *)
Definition resolveOnStream (t : Transport) (ref : nat) (r : RequestId) : Transport :=
  let t1 := set_objects (alter (delete_pending r) ref (objects t)) t in
  let t2 := set_requestToStream (delete r (_requestToStream t1)) t1 in
  match objects t2 !! ref with
  | Some st =>
      if bool_decide (size (pendingIds st) = 0) then
        let t3 := set_streams (delete (stream_id st) (_streams t2)) t2 in
        set_objects (alter close_controller ref (objects t3)) t3
      else t2
  | None => t2
  end.

(** [pending.resolve(message)]: a promise keeps the first value it is
    resolved with. *)
Definition resolve_promise (p : nat) (m : JSONRPCMessage)
    (ps : list (option JSONRPCMessage)) : list (option JSONRPCMessage) :=
  alter (fun v => match v with None => Some m | Some old => Some old end) p ps.

Definition send (t : Transport) (message : JSONRPCMessage)
    (relatedRequestId : option RequestId) : Transport * SendOutcome :=
  let requestId := if isReply message then message_id message else relatedRequestId in
  match requestId with
  | None =>
      if isReply message then (t, ThrowNoRelatedRequest)
      else match _standaloneStream t with
           | Some ref => writeSseEvent t ref message
           | None => (t, Sent)
           end
  | Some r =>
      if _enableJsonResponse t then
        match _pendingJsonResponses t !! r with
        | Some p =>
            let t1 := set_promises (resolve_promise p message (promises t)) t in
            (set_pendingJsonResponses (delete r (_pendingJsonResponses t1)) t1, Sent)
        | None => (t, Sent)
        end
      else
        match lookupStream t r with
        | None => (t, ThrowNoConnection r)
        | Some ref =>
            match writeSseEvent t ref message with
            | (t1, Sent) =>
                if isReply message then (resolveOnStream t1 ref r, Sent)
                else (t1, Sent)
            | thrown => thrown
            end
        end
  end.

(** [close()].  The loop visits the values of [_streams]; the standalone
    stream is not among them. *)
Definition close_all (refs : list nat) (objs : list StreamState) : list StreamState :=
  foldr (fun ref acc => alter close_controller ref acc) objs refs.

Definition close (t : Transport) : Transport :=
  let t1 := set_objects (close_all (map_to_list (_streams t)).*2 (objects t)) t in
  let t2 := set_streams ∅ t1 in
  let t3 := set_requestToStream ∅ t2 in
  let t4 := set_pendingJsonResponses ∅ t3 in
  let t5 := set_standaloneStream None t4 in
  if onclose t5 then tick_onclose t5 else t5.

(** Running the calls of [send] that a handler makes, in order. *)
Fixpoint run_sends (t : Transport) (calls : list SendCall)
  : Transport * list SendOutcome :=
  match calls with
  | [] => (t, [])
  | (m, related) :: rest =>
      let '(t1, o) := send t m related in
      let '(t2, os) := run_sends t1 rest in
      (t2, o :: os)
  end.

(** [for (const message of messages) this.onmessage?.(message, extra)] *)
Fixpoint dispatch (t : Transport) (messages : list JSONRPCMessage)
    (extra : MessageExtraInfo) : Transport * list SendOutcome :=
  match messages with
  | [] => (t, [])
  | m :: rest =>
      let '(t1, os1) :=
        match onmessage t with
        | Some handler => run_sends t (handler m extra)
        | None => (t, [])
        end in
      let '(t2, os2) := dispatch t1 rest extra in
      (t2, os1 ++ os2)
  end.

(** The cancel callbacks of the two kinds of stream, run when the reader
    cancels the stream [ref]; the controller of a cancelled stream accepts
    no more events.  The callback of a request-bound stream holds the stream
    id and the pending-id set of the object it was created with. *)
Definition cancel_controller (st : StreamState) : StreamState := close_controller st.

Definition cancelStandalone (t : Transport) (ref : nat) : Transport :=
  set_standaloneStream None
    (set_objects (alter cancel_controller ref (objects t)) t).

Definition delete_all (ids : list RequestId) (m : gmap RequestId string)
  : gmap RequestId string :=
  foldr (fun i acc => delete i acc) m ids.

Definition cancelRequestStream (t : Transport) (ref : nat) : Transport :=
  match objects t !! ref with
  | Some st =>
      let t1 := set_objects (alter cancel_controller ref (objects t)) t in
      let t2 := set_streams (delete (stream_id st) (_streams t1)) t1 in
      set_requestToStream
        (delete_all (elements (pendingIds st)) (_requestToStream t2)) t2
  | None => t
  end.

(** [jsonRpcError(status, code, message)] *)
Definition jsonRpcError (status : nat) (code : Z) (message : string) : Response :=
  {| status := status;
     headers := [("Content-Type", "application/json")];
     body := BodyErrorEnvelope code message |}.

(** [needle] occurs in [hay] ([String.prototype.includes]). *)
Fixpoint includes (needle hay : string) : bool :=
  String.prefix needle hay ||
  match hay with
  | EmptyString => false
  | String _ rest => includes needle rest
  end.

(** ASCII upper case, enough for HTTP method names. *)
Definition upper (c : ascii) : ascii :=
  let n := nat_of_ascii c in
  if (97 <=? n)%nat && (n <=? 122)%nat then ascii_of_nat (n - 32) else c.

Fixpoint toUpperCase (s : string) : string :=
  match s with
  | EmptyString => EmptyString
  | String c rest => String (upper c) (toUpperCase rest)
  end.

Definition validateRequestHeaders (t : Transport) (request : Request) : option string :=
  if negb (_enableDnsRebindingProtection t) then None
  else
    let hostError :=
      match _allowedHosts t with
      | Some hosts =>
          if bool_decide (0 < length hosts) then
            match hdr_host request with
            | Some host => negb (truthy host) || negb (bool_decide (host ∈ hosts))
            | None => true
            end
          else false
      | None => false
      end in
    if hostError then Some "Bad Request: Invalid Host header"
    else
      let originError :=
        match _allowedOrigins t with
        | Some origins =>
            if bool_decide (0 < length origins) then
              match hdr_origin request with
              | Some origin => truthy origin && negb (bool_decide (origin ∈ origins))
              | None => false
              end
            else false
        | None => false
        end in
      if originError then Some "Bad Request: Invalid Origin header" else None.

(** The headers that every successful response carries after its own:
    the session id, when one is assigned. *)
Definition sessionHeader (t : Transport) : list (string * string) :=
  match sessionId t with
  | Some s => [("mcp-session-id", s)]
  | None => []
  end.

Definition sseHeaders (t : Transport) : list (string * string) :=
  [("Content-Type", "text/event-stream");
   ("Cache-Control", "no-cache");
   ("Connection", "keep-alive")] ++ sessionHeader t.

(** [jsonResponse(body)] *)
Definition jsonResponse (t : Transport) (payload : JsonPayload) : Response :=
  {| status := 200;
     headers := [("Content-Type", "application/json")] ++ sessionHeader t;
     body := BodyJson payload |}.

Definition handleDeleteRequest (t : Transport) (request : Request)
  : Transport * Response :=
  match sessionIdGenerator t with
  | Some _ =>
      match hdr_mcp_session_id request with
      | Some h =>
          if negb (truthy h) then
            (t, jsonRpcError 400 (-32000) "Bad Request: Missing Mcp-Session-Id header")
          else if bool_decide (Some h = sessionId t) then
            (set_initialized false (set_sessionId None t),
             {| status := 204; headers := []; body := BodyNull |})
          else (t, jsonRpcError 404 (-32001) "Session not found")
      | None =>
          (t, jsonRpcError 400 (-32000) "Bad Request: Missing Mcp-Session-Id header")
      end
  | None => (t, jsonRpcError 405 (-32000) "Method not allowed.")
  end.

Definition handleUnsupportedRequest : Response :=
  {| status := 405;
     headers := [("Allow", "GET, POST, DELETE")];
     body := BodyErrorEnvelope (-32000) "Method not allowed." |}.

(** [messages.filter(isJSONRPCRequest).map((message) => message.id)] *)
Definition requestIdsOf (messages : list JSONRPCMessage) : list RequestId :=
  omap (fun m => if isJSONRPCRequest m then message_id m else None) messages.

(** The registrations of [collectJsonResponses]: one promise per request id,
    in the order of the ids; a later id replaces the entry of an equal
    earlier one. *)
Fixpoint registerJson (t : Transport) (ids : list RequestId) : Transport * list nat :=
  match ids with
  | [] => (t, [])
  | i :: rest =>
      let p := length (promises t) in
      let t1 := set_promises (promises t ++ [None]) t in
      let t2 := set_pendingJsonResponses (<[i := p]> (_pendingJsonResponses t1)) t1 in
      let '(t3, ps) := registerJson t2 rest in
      (t3, p :: ps)
  end.

(** [await Promise.all(responsePromises)]: the values of the promises in
    the order of the array, once every one of them is resolved. *)
Definition awaitAll (t : Transport) (ps : list nat) : option (list JSONRPCMessage) :=
  mapM (fun p => mjoin (promises t !! p)) ps.

(** [responses.length === 1 ? responses[0] : responses] *)
Definition payloadOf (responses : list JSONRPCMessage) : JsonPayload :=
  match responses with
  | [m] => PayloadObject m
  | _ => PayloadArray responses
  end.

(** [collectJsonResponses] up to its [await]: the transport, what the
    handler's calls of [send] did, and the promises awaited. *)
Definition collectJsonResponses (t : Transport) (messages : list JSONRPCMessage)
    (extra : MessageExtraInfo) : Transport * list SendOutcome * list nat :=
  let '(t1, ps) := registerJson t (requestIdsOf messages) in
  let '(t2, os) := dispatch t1 messages extra in
  (t2, os, ps).

(** The rest of [handlePostRequest] in JSON mode, run when the awaited
    promises are resolved; [None] while one of them is pending. *)
Definition resumeJsonResponse (t : Transport) (ps : list nat) : option Response :=
  option_map (fun responses => jsonResponse t (payloadOf responses)) (awaitAll t ps).

(** The first loop of [createSseResponse]. *)
Fixpoint registerPending (t : Transport) (streamId : string)
    (messages : list JSONRPCMessage) (pending : gset RequestId)
  : Transport * gset RequestId :=
  match messages with
  | [] => (t, pending)
  | m :: rest =>
      match m with
      | JSONRPCRequest i _ _ =>
          registerPending
            (set_requestToStream (<[i := streamId]> (_requestToStream t)) t)
            streamId rest ({[i]} ∪ pending)
      | _ => registerPending t streamId rest pending
      end
  end.

Section WithEnvironment.
Context `{Environment}.

Definition isInitializeRequest (m : JSONRPCMessage) : bool :=
  match m with
  | JSONRPCRequest _ method params =>
      bool_decide (method = "initialize") && InitializeRequestSchema params
  | _ => false
  end.

Definition validateProtocolVersion (request : Request) : option string :=
  let version := default DEFAULT_NEGOTIATED_PROTOCOL_VERSION
                         (hdr_mcp_protocol_version request) in
  if bool_decide (version ∈ SUPPORTED_PROTOCOL_VERSIONS) then None
  else Some ("Bad Request: Unsupported protocol version (supported versions: "
             +:+ String.concat ", " SUPPORTED_PROTOCOL_VERSIONS +:+ ")").

(** [handleGetRequest].  The constructor of [ReadableStream] calls [start]
    before it returns, so the controller is there when the stream is. *)
Definition handleGetRequest (t : Transport) : Transport * Response :=
  match _standaloneStream t with
  | Some _ => (t, jsonRpcError 409 (-32000) "Conflict: Only one SSE stream is allowed.")
  | None =>
      let streamId := randomUUID (uuidCalls t) in
      let t1 := tick_uuid t in
      let ref := length (objects t1) in
      let t2 := set_objects (objects t1 ++ [new_stream streamId ∅]) t1 in
      let t3 := set_standaloneStream (Some ref) t2 in
      (t3, {| status := 200; headers := sseHeaders t3; body := BodyEventStream ref |})
  end.

(** [createSseResponse] up to the first call of the handler: the ids are
    registered and the stream is in the stream map. *)
Definition registerSse (t : Transport) (messages : list JSONRPCMessage)
  : Transport * nat :=
  let streamId := randomUUID (uuidCalls t) in
  let t1 := tick_uuid t in
  let '(t2, pending) := registerPending t1 streamId messages ∅ in
  let ref := length (objects t2) in
  let t3 := set_objects (objects t2 ++ [new_stream streamId pending]) t2 in
  (set_streams (<[streamId := ref]> (_streams t3)) t3, ref).

Definition createSseResponse (t : Transport) (messages : list JSONRPCMessage)
    (extra : MessageExtraInfo) : Transport * list SendOutcome * Response :=
  let '(t1, ref) := registerSse t messages in
  let '(t2, os) := dispatch t1 messages extra in
  (t2, os, {| status := 200; headers := sseHeaders t2; body := BodyEventStream ref |}).

(** What [handlePostRequest] gives back: a response, or in JSON mode
    the promises whose values will make the response. *)
Inductive PostResult :=
| Respond (response : Response)
| AwaitJson (awaited : list nat).

Definition parseMessages (b : RequestBody) : option (list JSONRPCMessage) :=
  match b with
  | BodyMalformed => None
  | BodyArray items => mapM (fun x => x) items
  | BodyObject item => option_map (fun m => [m]) item
  end.

Definition reportError (t : Transport) : Transport :=
  if onerror t then tick_onerror t else t.

Definition handlePostRequest (t : Transport) (request : Request)
    (auth : option AuthInfo) : Transport * list SendOutcome * PostResult :=
  let acceptHeader := default "" (hdr_accept request) in
  if negb (includes "application/json" acceptHeader)
     || negb (includes "text/event-stream" acceptHeader) then
    (t, [], Respond (jsonRpcError 406 (-32000)
       "Not Acceptable: Client must accept both application/json and text/event-stream"))
  else
  let contentType := default "" (hdr_content_type request) in
  if negb (includes "application/json" contentType) then
    (t, [], Respond (jsonRpcError 415 (-32000)
       "Unsupported Media Type: Content-Type must be application/json"))
  else
  match parseMessages (req_body request) with
  | None => (reportError t, [], Respond (jsonRpcError 400 (-32700) "Parse error"))
  | Some messages =>
      let checked : Transport + Response :=
        if existsb isInitializeRequest messages then
          if _initialized t && bool_decide (sessionId t <> None) then
            inr (jsonRpcError 400 (-32600) "Invalid Request: Server already initialized")
          else if bool_decide (1 < length messages) then
            inr (jsonRpcError 400 (-32600)
                   "Invalid Request: Only one initialization request is allowed")
          else
            inl (set_initialized true
                   match sessionIdGenerator t with
                   | Some generator =>
                       set_sessionId (Some (generator (generatorCalls t)))
                                     (tick_generator t)
                   | None => set_sessionId None t
                   end)
        else
          let sessionError :=
            match sessionIdGenerator t with
            | Some _ =>
                match hdr_mcp_session_id request with
                | Some h =>
                    if negb (truthy h) then
                      Some (jsonRpcError 400 (-32000)
                              "Bad Request: Missing Mcp-Session-Id header")
                    else if bool_decide (Some h = sessionId t) then None
                    else Some (jsonRpcError 404 (-32001) "Session not found")
                | None =>
                    Some (jsonRpcError 400 (-32000)
                            "Bad Request: Missing Mcp-Session-Id header")
                end
            | None => None
            end in
          match sessionError with
          | Some r => inr r
          | None =>
              match validateProtocolVersion request with
              | Some protocolError => inr (jsonRpcError 400 (-32000) protocolError)
              | None => inl t
              end
          end in
      match checked with
      | inr r => (t, [], Respond r)
      | inl t1 =>
          let extra := {| authInfo := auth; requestInfo := request |} in
          if negb (existsb isJSONRPCRequest messages) then
            let '(t2, os) := dispatch t1 messages extra in
            (t2, os, Respond {| status := 202; headers := []; body := BodyNull |})
          else if _enableJsonResponse t1 then
            let '(t2, os, ps) := collectJsonResponses t1 messages extra in
            (t2, os, AwaitJson ps)
          else
            let '(t2, os, r) := createSseResponse t1 messages extra in
            (t2, os, Respond r)
      end
  end.

Definition handleRequest (t : Transport) (request : Request)
    (auth : option AuthInfo) : Transport * list SendOutcome * PostResult :=
  match validateRequestHeaders t request with
  | Some validationError =>
      (t, [], Respond (jsonRpcError 400 (-32000) validationError))
  | None =>
      let method := toUpperCase (req_method request) in
      if bool_decide (method = "GET") then
        let '(t1, r) := handleGetRequest t in (t1, [], Respond r)
      else if bool_decide (method = "POST") then
        handlePostRequest t request auth
      else if bool_decide (method = "DELETE") then
        let '(t1, r) := handleDeleteRequest t request in (t1, [], Respond r)
      else (t, [], Respond handleUnsupportedRequest)
  end.

End WithEnvironment.

(** ** The fields that only the session state machine writes *)

(** [send], [close], the cancel callbacks and the GET handler leave the
    options, the callbacks and the session identity as they are. *)
Record same_session (t t' : Transport) : Prop := {
  ss_generator : sessionIdGenerator t' = sessionIdGenerator t;
  ss_initialized : _initialized t' = _initialized t;
  ss_json : _enableJsonResponse t' = _enableJsonResponse t;
  ss_sessionId : sessionId t' = sessionId t;
  ss_onmessage : onmessage t' = onmessage t;
  ss_generatorCalls : generatorCalls t' = generatorCalls t;
}.

(** The state in which a session has been terminated and none has been
    started since: there is a generator and no session id. *)
Definition terminated (t : Transport) : Prop :=
  is_Some (sessionIdGenerator t) /\ sessionId t = None.

(** ** Requests that reach the session state machine *)

(** The Accept and Content-Type guards of [handlePostRequest] let the
    request through. *)
Definition negotiated (request : Request) : bool :=
  includes "application/json" (default "" (hdr_accept request))
  && includes "text/event-stream" (default "" (hdr_accept request))
  && includes "application/json" (default "" (hdr_content_type request)).

Section Operations.
Context `{Environment}.

(** Everything that can happen to a transport: an HTTP request, a call of
    [send] or [close] by the server, and the cancellation of a stream by
    its reader. *)
Inductive Op :=
| OpRequest (request : Request) (auth : option AuthInfo)
| OpSend (m : JSONRPCMessage) (related : option RequestId)
| OpClose
| OpCancelStandalone (ref : nat)
| OpCancelStream (ref : nat).

Definition run_op (t : Transport) (op : Op) : Transport :=
  match op with
  | OpRequest request auth => (handleRequest t request auth).1.1
  | OpSend m related => (send t m related).1
  | OpClose => close t
  | OpCancelStandalone ref => cancelStandalone t ref
  | OpCancelStream ref => cancelRequestStream t ref
  end.

Definition run_ops (t : Transport) (ops : list Op) : Transport :=
  foldl run_op t ops.

(** The operation is not a request whose body carries an initialize
    message. *)
Definition not_initialize (op : Op) : Prop :=
  match op with
  | OpRequest request _ =>
      forall messages, parseMessages (req_body request) = Some messages ->
                       existsb isInitializeRequest messages = false
  | _ => True
  end.

End Operations.

(** ** Well-formed transports and owned streams *)

(** The references that the maps hold name allocated objects, and a stream
    is filed under its own id.  Every transport that the constructor and
    the methods produce is like that. *)
Record well_formed (t : Transport) : Prop := {
  wf_streams : forall streamId ref,
      _streams t !! streamId = Some ref ->
      exists st, objects t !! ref = Some st /\ stream_id st = streamId;
  wf_promises : forall r p,
      _pendingJsonResponses t !! r = Some p -> p < length (promises t);
}.

(** The request-bound stream [ref] is live: its object [st] is open, it is
    in the stream map under its id, it has pending ids, and the reverse
    index sends each of them to it. *)
Record owns (t : Transport) (ref : nat) (st : StreamState) : Prop := {
  owns_object : objects t !! ref = Some st;
  owns_open : closed st = false;
  owns_id : truthy (stream_id st) = true;
  owns_registered : _streams t !! stream_id st = Some ref;
  owns_pending : pendingIds st <> ∅;
  owns_index : forall r, r ∈ pendingIds st ->
                         _requestToStream t !! r = Some (stream_id st);
}.

(** The id under which [send] routes a call: the id of a response or an
    error, the related request id of anything else. *)
Definition routing_id (c : SendCall) : option RequestId :=
  if isReply c.1 then message_id c.1 else c.2.

(** The id that a call resolves: the id of a response or an error. *)
Definition resolved_id (c : SendCall) : option RequestId :=
  if isReply c.1 then message_id c.1 else None.

Definition resolved_by (calls : list SendCall) : gset RequestId :=
  list_to_set (omap resolved_id calls).

(** The first response or error for each id of [pending], in the order of
    the calls. *)
Fixpoint first_replies (pending : gset RequestId) (calls : list SendCall)
  : list JSONRPCMessage :=
  match calls with
  | [] => []
  | c :: rest =>
      match resolved_id c with
      | Some r =>
          if bool_decide (r ∈ pending) then c.1 :: first_replies (pending ∖ {[r]}) rest
          else first_replies pending rest
      | None => first_replies pending rest
      end
  end.

(** The objects of [objs] are still there in [objs'], under the same
    stream ids. *)
Definition same_ids (objs objs' : list StreamState) : Prop :=
  forall ref st, objs !! ref = Some st ->
                 exists st', objs' !! ref = Some st' /\ stream_id st' = stream_id st.

(** What one call of [send] can do to the transport. *)
Inductive send_effect (t : Transport) (m : JSONRPCMessage) : Transport -> Prop :=
| effect_none : send_effect t m t
| effect_written ref st :
    objects t !! ref = Some st -> closed st = false ->
    send_effect t m (set_objects (<[ref := enqueue m st]> (objects t)) t)
| effect_resolved ref st r :
    objects t !! ref = Some st -> closed st = false ->
    lookupStream t r = Some ref ->
    isReply m = true -> message_id m = Some r ->
    send_effect t m
      (resolveOnStream (set_objects (<[ref := enqueue m st]> (objects t)) t) ref r)
| effect_promise r p :
    _pendingJsonResponses t !! r = Some p ->
    send_effect t m
      (set_pendingJsonResponses (delete r (_pendingJsonResponses t))
         (set_promises (resolve_promise p m (promises t)) t)).

(** The stream [ref] of a batch, at any later time: its object [st] keeps the
    stream id; what is pending is part of the batch; every id of the batch
    that is no longer pending has a response or an error on the stream;
    while an id is pending the stream is live; and when none is pending the
    stream is closed and out of the stream map. *)
Record tracked (t : Transport) (ref : nat) (streamId : string)
    (batch : gset RequestId) (st : StreamState) : Prop := {
  tracked_object : objects t !! ref = Some st;
  tracked_id : stream_id st = streamId;
  tracked_pending : pendingIds st ⊆ batch;
  tracked_replied : forall r, r ∈ batch -> r ∉ pendingIds st ->
      exists m, m ∈ chunks st /\ isReply m = true /\ message_id m = Some r;
  tracked_live : pendingIds st <> ∅ -> owns t ref st;
  tracked_done : pendingIds st = ∅ ->
      closed st = true /\ _streams t !! streamId = None;
}.

(** All fields but those of the session state machine are the same. *)
Record session_only (t t' : Transport) : Prop := {
  so_json : _enableJsonResponse t' = _enableJsonResponse t;
  so_standalone : _standaloneStream t' = _standaloneStream t;
  so_streams : _streams t' = _streams t;
  so_requestToStream : _requestToStream t' = _requestToStream t;
  so_pending : _pendingJsonResponses t' = _pendingJsonResponses t;
  so_onmessage : onmessage t' = onmessage t;
  so_objects : objects t' = objects t;
  so_promises : promises t' = promises t;
  so_uuidCalls : uuidCalls t' = uuidCalls t;
}.

Section Interference.
Context `{Environment}.

(** The operation leaves the stream [ref] to [send]: it is not [close()]
    while the stream has a pending id, it is not a cancellation of this
    stream, it is not a request that carries a pending request id of this
    stream, and it is not the cancellation of a stream that has the same
    stream id or a pending request id of this stream. *)
Definition leaves_alone (t : Transport) (ref : nat) (op : Op) : Prop :=
  forall st, objects t !! ref = Some st ->
    match op with
    | OpSend _ _ => True
    | OpClose => pendingIds st = ∅
    | OpCancelStandalone ref' => ref' <> ref
    | OpCancelStream ref' =>
        ref' <> ref /\
        forall st', objects t !! ref' = Some st' ->
          stream_id st' <> stream_id st /\
          forall r, r ∈ pendingIds st' -> r ∉ pendingIds st
    | OpRequest request _ =>
        forall messages, parseMessages (req_body request) = Some messages ->
          forall r, r ∈ requestIdsOf messages -> r ∉ pendingIds st
    end.

Fixpoint left_alone (t : Transport) (ref : nat) (ops : list Op) : Prop :=
  match ops with
  | [] => True
  | op :: rest => leaves_alone t ref op /\ left_alone (run_op t op) ref rest
  end.

End Interference.

(** ** Handlers that reply before they return *)

(** The calls answer request [r]: events related to [r] that are not
    replies, then one response or error for [r]. *)
Definition answers (r : RequestId) (calls : list SendCall) : Prop :=
  exists progress reply related,
    calls = progress ++ [(reply, related)] /\
    Forall (fun c : SendCall => isReply c.1 = false /\ c.2 = Some r) progress /\
    isReply reply = true /\ message_id reply = Some r.

(** The handler answers every request while it is being called with it, and
    sends nothing for the other messages. *)
Definition replies_synchronously
    (handler : JSONRPCMessage -> MessageExtraInfo -> list SendCall) : Prop :=
  forall m extra,
    match m with
    | JSONRPCRequest r _ _ => answers r (handler m extra)
    | _ => handler m extra = []
    end.

(** The call did not end in the routing failure of [send]. *)
Definition routed (o : SendOutcome) : Prop :=
  match o with ThrowNoConnection _ => False | _ => True end.

(** All the calls of [send] that the handler makes for a batch. *)
Definition handler_calls (t : Transport) (messages : list JSONRPCMessage)
    (extra : MessageExtraInfo) : list SendCall :=
  match onmessage t with
  | Some handler => concat (map (fun m => handler m extra) messages)
  | None => []
  end.

(** The first message that the calls send under the id [r]. *)
Fixpoint first_routed (r : RequestId) (calls : list SendCall) : option JSONRPCMessage :=
  match calls with
  | [] => None
  | c :: rest =>
      if bool_decide (routing_id c = Some r) then Some c.1 else first_routed r rest
  end.

(** ** Promises of the JSON mode *)

(** The promise [p] is pending and the pending map reaches it under the
    id [r] and no other. *)
Definition waiting (t : Transport) (r : RequestId) (p : nat) : Prop :=
  _pendingJsonResponses t !! r = Some p /\
  promises t !! p = Some None /\
  forall r', _pendingJsonResponses t !! r' = Some p -> r' = r.

(** The promise [p] is pending and the pending map does not reach it. *)
Definition unreachable (t : Transport) (p : nat) : Prop :=
  promises t !! p = Some None /\
  forall r, _pendingJsonResponses t !! r <> Some p.

(** ** Operations that leave a waiting POST alone *)

Section Waiting.
Context `{Environment}.

(** The request is a POST that the transport accepts: its answer is not an
    error, or it waits for its responses. *)
Definition accepted_post (t : Transport) (request : Request)
    (auth : option AuthInfo) : bool :=
  bool_decide (toUpperCase (req_method request) = "POST") &&
  match (handleRequest t request auth).2 with
  | Respond response => bool_decide (status response < 400)
  | AwaitJson _ => true
  end.

(** The calls of [send] that an operation makes: the call itself, and the
    calls of the handler for the messages of a POST that the transport
    accepts. *)
Definition sends_of (t : Transport) (op : Op) : list SendCall :=
  match op with
  | OpSend m related => [(m, related)]
  | OpRequest request auth =>
      if accepted_post t request auth then
        handler_calls t (default [] (parseMessages (req_body request)))
                      {| authInfo := auth; requestInfo := request |}
      else []
  | _ => []
  end.

Fixpoint sent_during (t : Transport) (ops : list Op) : list SendCall :=
  match ops with
  | [] => []
  | op :: rest => sends_of t op ++ sent_during (run_op t op) rest
  end.

(** The operation leaves the promise [p] of the request id [r] to [send]:
    while the promise is pending, the operation is not [close()] and it is
    not a request that carries [r]. *)
Definition leaves_waiting (t : Transport) (r : RequestId) (p : nat) (op : Op) : Prop :=
  promises t !! p = Some None ->
  match op with
  | OpClose => False
  | OpRequest request _ =>
      forall messages, parseMessages (req_body request) = Some messages ->
                       r ∉ requestIdsOf messages
  | _ => True
  end.

(** The operations leave the promises [ps] of the request ids [ids] to
    [send]. *)
Fixpoint promises_left_alone (t : Transport) (ids : list RequestId) (ps : list nat)
    (ops : list Op) : Prop :=
  match ops with
  | [] => True
  | op :: rest =>
      (forall i r p, ids !! i = Some r -> ps !! i = Some p -> leaves_waiting t r p op) /\
      promises_left_alone (run_op t op) ids ps rest
  end.

End Waiting.

(** ** Concrete transports, requests and handlers *)

Fixpoint tally (n : nat) : string :=
  match n with
  | 0 => ""
  | S k => String "i" (tally k)
  end.

(** An environment whose n-th UUID is "stream-" followed by n strokes. *)
Definition demo_environment : Environment :=
  {| randomUUID := fun n => "stream-" +:+ tally n;
     SUPPORTED_PROTOCOL_VERSIONS := ["2025-06-18"; "2025-03-26"; "2024-11-05"];
     DEFAULT_NEGOTIATED_PROTOCOL_VERSION := "2025-03-26";
     InitializeRequestSchema := fun _ => true |}.

(** What [server.connect(transport)] does to the transport: it installs
    the three callbacks. *)
Definition connect (handler : JSONRPCMessage -> MessageExtraInfo -> list SendCall)
    (t : Transport) : Transport :=
  {| sessionIdGenerator := sessionIdGenerator t; _initialized := _initialized t;
     _enableJsonResponse := _enableJsonResponse t; _allowedHosts := _allowedHosts t;
     _allowedOrigins := _allowedOrigins t;
     _enableDnsRebindingProtection := _enableDnsRebindingProtection t;
     _standaloneStream := _standaloneStream t; _streams := _streams t;
     _requestToStream := _requestToStream t;
     _pendingJsonResponses := _pendingJsonResponses t; sessionId := sessionId t;
     onclose := true; onerror := true; onmessage := Some handler;
     objects := objects t; promises := promises t;
     generatorCalls := generatorCalls t; uuidCalls := uuidCalls t;
     oncloseCalls := oncloseCalls t; onerrorCalls := onerrorCalls t |}.

(** A handler that answers nothing before it returns, and one that answers
    every request at once. *)
Definition silent_handler (m : JSONRPCMessage) (extra : MessageExtraInfo)
  : list SendCall := [].

Definition echo_handler (m : JSONRPCMessage) (extra : MessageExtraInfo)
  : list SendCall :=
  match m with
  | JSONRPCRequest r method _ => [(JSONRPCResponse r method, None)]
  | _ => []
  end.

(** A handler that sends an event related to a request after the reply
    to it. *)
Definition late_handler (m : JSONRPCMessage) (extra : MessageExtraInfo)
  : list SendCall :=
  match m with
  | JSONRPCRequest r method _ =>
      [(JSONRPCResponse r method, None);
       (JSONRPCNotification "notifications/progress" "late", Some r)]
  | _ => []
  end.

Definition demo_options (generator : option (nat -> string)) (json : bool)
  : StreamableHttpFetchTransportOptions :=
  {| opt_sessionIdGenerator := generator;
     opt_enableJsonResponse := Some json;
     opt_allowedHosts := None;
     opt_allowedOrigins := None;
     opt_enableDnsRebindingProtection := None |}.

(** A stateless transport in SSE mode, one in JSON mode, and a transport
    with sessions whose generator numbers them. *)
Definition sse_transport : Transport :=
  connect silent_handler (constructor (demo_options None false)).

Definition json_transport : Transport :=
  connect silent_handler (constructor (demo_options None true)).

Definition session_transport : Transport :=
  connect silent_handler
    (constructor (demo_options (Some (fun n => "session-" +:+ tally n)) false)).

Definition demo_request (session : option string) (messages : list JSONRPCMessage)
  : Request :=
  {| req_method := "POST";
     hdr_host := Some "localhost";
     hdr_origin := None;
     hdr_accept := Some "application/json, text/event-stream";
     hdr_content_type := Some "application/json";
     hdr_mcp_session_id := session;
     hdr_mcp_protocol_version := None;
     req_body := BodyArray (map Some messages) |}.

Definition demo_extra : MessageExtraInfo :=
  {| authInfo := None; requestInfo := demo_request None [] |}.

Definition initialize_request : JSONRPCMessage :=
  JSONRPCRequest (IdNumber 0) "initialize" "{}".

Definition request_1 : JSONRPCMessage := JSONRPCRequest (IdNumber 1) "tools/list" "{}".
Definition request_2 : JSONRPCMessage := JSONRPCRequest (IdNumber 2) "tools/call" "{}".
Definition response_1 : JSONRPCMessage := JSONRPCResponse (IdNumber 1) "one".
Definition response_2 : JSONRPCMessage := JSONRPCResponse (IdNumber 2) "two".

(** * The callers of the transport

    The Cloudflare worker (worker.ts) builds one transport from its
    environment and hands every request on its path to [handleRequest],
    after it has read the token off the Authorization header with
    [parseAuthorizationHeader] (shared/ado-auth.ts). *)

(** ** JavaScript strings

    A Rocq string is read as the JavaScript string with the same code units:
    every code unit is below 256, which is what the value of an HTTP header
    is (a ByteString). *)

(** The code units below 256 that [trim] removes: TAB, LF, VT, FF, CR, the
    space and the no-break space. *)
Definition isWhiteSpace (c : ascii) : bool :=
  let n := nat_of_ascii c in
  (9 <=? n)%nat && (n <=? 13)%nat || (n =? 32)%nat || (n =? 160)%nat.

Fixpoint trimStart (s : string) : string :=
  match s with
  | EmptyString => EmptyString
  | String c rest => if isWhiteSpace c then trimStart rest else s
  end.

Fixpoint trimEnd (s : string) : string :=
  match s with
  | EmptyString => EmptyString
  | String c rest =>
      match trimEnd rest with
      | EmptyString => if isWhiteSpace c then EmptyString else String c EmptyString
      | kept => String c kept
      end
  end.

Definition trim (s : string) : string := trimEnd (trimStart s).

(** Lower case of a code unit below 256: A to Z, and the letters from
    U+00C0 to U+00DE but the multiplication sign, move up by 32. *)
Definition lower (c : ascii) : ascii :=
  let n := nat_of_ascii c in
  if (65 <=? n)%nat && (n <=? 90)%nat
     || (192 <=? n)%nat && (n <=? 222)%nat && negb (n =? 215)%nat
  then ascii_of_nat (n + 32) else c.

Fixpoint toLowerCase (s : string) : string :=
  match s with
  | EmptyString => EmptyString
  | String c rest => String (lower c) (toLowerCase rest)
  end.

(** [s.split(separator)] for a separator of one code unit: the pieces
    between its occurrences; the empty string has one piece. *)
Fixpoint splitString (separator : ascii) (s : string) : list string :=
  match s with
  | EmptyString => [EmptyString]
  | String c rest =>
      if bool_decide (c = separator) then EmptyString :: splitString separator rest
      else match splitString separator rest with
           | piece :: pieces => String c piece :: pieces
           | [] => [String c EmptyString]
           end
  end.

(** A value that may be [undefined] is truthy when it is a non-empty
    string. *)
Definition truthy_value (value : option string) : bool :=
  match value with
  | Some s => truthy s
  | None => false
  end.

(** ** shared/ado-auth.ts *)

(** What [Buffer] does for the Basic scheme:
    [Buffer.from(s, "utf8").toString("base64")] and
    [Buffer.from(s, "base64").toString("utf8")]; neither throws. *)
Class BufferEncoding := {
  base64_of_utf8 : string -> string;
  utf8_of_base64 : string -> string;
}.

Inductive AuthScheme :=
| bearer
| pat.

Global Instance AuthScheme_eq_dec : EqDecision AuthScheme.
Proof. solve_decision. Defined.

Definition PAT_AUTH_TYPES : list string := ["envvar"; "pat"].

Definition resolveAuthScheme (authenticationType : string) : AuthScheme :=
  if bool_decide (authenticationType ∈ PAT_AUTH_TYPES) then pat else bearer.

Section AdoAuth.
Context `{BufferEncoding}.

Definition formatAuthorizationHeader (token : string) (scheme : AuthScheme) : string :=
  match scheme with
  | pat => "Basic " +:+ base64_of_utf8 (":" +:+ token)
  | bearer => "Bearer " +:+ token
  end.

Definition parseAuthorizationHeader (headerValue : option string) : option string :=
  match headerValue with
  | None => None
  | Some headerValue =>
      if negb (truthy headerValue) then None
      else
        let pieces := splitString " " headerValue in
        let rawScheme := pieces !! 0 in
        let rawToken := pieces !! 1 in
        if negb (truthy_value rawScheme) || negb (truthy_value rawToken) then None
        else
          let scheme := toLowerCase (default "" rawScheme) in
          if bool_decide (scheme = "bearer") || bool_decide (scheme = "pat") then
            Some (trim (default "" rawToken))
          else if bool_decide (scheme = "basic") then
            let decoded := utf8_of_base64 (default "" rawToken) in
            let parts := take 2 (splitString ":" decoded) in
            if bool_decide (length parts = 2) then parts !! 1 else Some decoded
          else None
  end.

End AdoAuth.

(** ** worker.ts *)

(** The bindings of the worker; one that is not set is [undefined]. *)
Record Env := {
  ADO_ORG : option string;
  ADO_AUTH_TYPE : option string;
  ADO_MCP_AUTH_TOKEN : option string;
  ADO_PAT : option string;
  MCP_HTTP_PATH : option string;
  MCP_ENABLE_JSON_RESPONSE : option string;
  MCP_STATEFUL : option string;
  MCP_ALLOWED_ORIGINS : option string;
  MCP_ALLOWED_HOSTS : option string;
  MCP_ENABLE_DNS_REBINDING_PROTECTION : option string;
}.

Definition getEnvValue (env : Env) (key : Env -> option string) : option string :=
  key env.

Definition parseCsv (value : option string) : list string :=
  match value with
  | None => []
  | Some value =>
      if negb (truthy value) then []
      else List.filter truthy (map trim (splitString "," value))
  end.

Record WorkerState := {
  transport : Transport;
  authScheme : AuthScheme;
  authenticationType : string;
  path : string;
}.

(** What a function returns or throws. *)
Inductive Outcome (A : Type) :=
| Returns (value : A)
| Throws (error : string).
Arguments Returns {A} value.
Arguments Throws {A} error.

(** The request as [fetch] reads it: the path of its URL, its
    Authorization header, and what the transport reads of it. *)
Record FetchRequest := {
  url_pathname : string;
  hdr_authorization : option string;
  transport_request : Request;
}.

(** What [fetch] gives back: a response with a text body of its own, or
    what [handleRequest] gave. *)
Inductive FetchResult :=
| TextResponse (status : nat) (headers : list (string * string)) (text : string)
| TransportResult (result : PostResult).

(** [authenticationType] as [initWorker] works it out. *)
Definition authenticationTypeOf (env : Env) : string :=
  default (if truthy_value (getEnvValue env ADO_MCP_AUTH_TOKEN)
              || truthy_value (getEnvValue env ADO_PAT)
           then "envvar" else "pat")
          (getEnvValue env ADO_AUTH_TYPE).

(** The token provider that [initWorker] makes for the tools; of the auth
    info of a message the model keeps the token. *)
Definition tokenProvider (env : Env) (authenticationType : string)
    (extra : option MessageExtraInfo) : Outcome string :=
  let tokenFromRequest := extra ≫= authInfo in
  if truthy_value tokenFromRequest then Returns (default "" tokenFromRequest)
  else if bool_decide (authenticationType = "envvar") then
    let token := match getEnvValue env ADO_MCP_AUTH_TOKEN with
                 | Some token => Some token
                 | None => getEnvValue env ADO_PAT
                 end in
    if negb (truthy_value token) then
      Throws "Missing ADO_MCP_AUTH_TOKEN/ADO_PAT for envvar authentication."
    else Returns (default "" token)
  else Throws "Missing Authorization header for PAT authentication.".

Section Worker.
Context `{Environment} `{BufferEncoding}.

(** The message handler that [server.connect(transport)] installs, and
    the values that [crypto.randomUUID] gives the session id generator. *)
Context (server : JSONRPCMessage -> MessageExtraInfo -> list SendCall).
Context (sessionUUID : nat -> string).

(** The options that [initWorker] gives the transport. *)
Definition workerOptions (env : Env) : StreamableHttpFetchTransportOptions :=
  {| opt_sessionIdGenerator :=
       if bool_decide (getEnvValue env MCP_STATEFUL = Some "true")
       then Some sessionUUID else None;
     opt_enableJsonResponse :=
       Some (bool_decide (getEnvValue env MCP_ENABLE_JSON_RESPONSE = Some "true"));
     opt_allowedHosts := Some (parseCsv (getEnvValue env MCP_ALLOWED_HOSTS));
     opt_allowedOrigins := Some (parseCsv (getEnvValue env MCP_ALLOWED_ORIGINS));
     opt_enableDnsRebindingProtection :=
       Some (bool_decide
               (getEnvValue env MCP_ENABLE_DNS_REBINDING_PROTECTION = Some "true")) |}.

(** [initWorker]: the cached state when there is one; otherwise the state
    made from the environment, which [initWorker] caches. *)
Definition initWorker (cachedState : option WorkerState) (env : Env)
  : Outcome WorkerState :=
  match cachedState with
  | Some state => Returns state
  | None =>
      if negb (truthy_value (getEnvValue env ADO_ORG)) then
        Throws "Missing required env var ADO_ORG."
      else
        let authenticationType := authenticationTypeOf env in
        Returns {| transport := connect server (constructor (workerOptions env));
                   authScheme := resolveAuthScheme authenticationType;
                   authenticationType := authenticationType;
                   path := default "/mcp" (getEnvValue env MCP_HTTP_PATH) |}
  end.

(** [fetch]: the cached state after the call, what the calls of [send]
    by the handler did, and the result.  [initWorker] is called outside the
    [try], so what it throws, [fetch] throws; [handleRequest] throws nothing
    of its own, and the handler of the model does not throw, so the [catch]
    has no counterpart.  The log entries are left out. *)
Definition fetch (cachedState : option WorkerState) (request : FetchRequest) (env : Env)
  : option WorkerState * list SendOutcome * Outcome FetchResult :=
  match initWorker cachedState env with
  | Throws error => (cachedState, [], Throws error)
  | Returns state =>
      if negb (bool_decide (url_pathname request = path state)) then
        (Some state, [], Returns (TextResponse 404 [] "Not Found"))
      else
        let token := parseAuthorizationHeader (hdr_authorization request) in
        if bool_decide (authenticationType state = "pat") && negb (truthy_value token) then
          (Some state, [],
           Returns (TextResponse 401 [("WWW-Authenticate", "Bearer")] "Unauthorized"))
        else
          let authInfo := if truthy_value token then token else None in
          let '(t, outcomes, result) :=
            handleRequest (transport state) (transport_request request) authInfo in
          (Some {| transport := t; authScheme := authScheme state;
                   authenticationType := authenticationType state;
                   path := path state |},
           outcomes, Returns (TransportResult result))
  end.

End Worker.
(** ** The notions of the further properties *)

(** The shape of the session fields: with a generator, either there is no
    session and the initialized flag is down, or the session id is the value
    of the latest call of the generator and the flag is up; without one,
    there is never a session id. *)
Definition session_state (t : Transport) : Prop :=
  match sessionIdGenerator t with
  | Some generator =>
      (sessionId t = None /\ _initialized t = false) \/
      (exists k, generatorCalls t = S k /\ sessionId t = Some (generator k) /\
                 _initialized t = true)
  | None => sessionId t = None
  end.

Section Delivery.
Context `{Environment}.

(** The session fields after an initialize message has been accepted. *)
Definition startSession (t : Transport) : Transport :=
  set_initialized true
    match sessionIdGenerator t with
    | Some generator =>
        set_sessionId (Some (generator (generatorCalls t))) (tick_generator t)
    | None => set_sessionId None t
    end.

(** What [handlePostRequest] asks of a request without an initialize
    message: the session id of the transport, when the transport has
    sessions, and a supported protocol version. *)
Definition passes_checks (t : Transport) (request : Request) : bool :=
  match sessionIdGenerator t with
  | Some _ =>
      match hdr_mcp_session_id request with
      | Some h => truthy h && bool_decide (Some h = sessionId t)
      | None => false
      end
  | None => true
  end
  && bool_decide (validateProtocolVersion request = None).

(** The end of [handlePostRequest], from [hasRequests] on. *)
Definition deliver (t : Transport) (messages : list JSONRPCMessage)
    (extra : MessageExtraInfo) : Transport * list SendOutcome * PostResult :=
  if negb (existsb isJSONRPCRequest messages) then
    let '(t2, os) := dispatch t messages extra in
    (t2, os, Respond {| status := 202; headers := []; body := BodyNull |})
  else if _enableJsonResponse t then
    let '(t2, os, ps) := collectJsonResponses t messages extra in
    (t2, os, AwaitJson ps)
  else
    let '(t2, os, r) := createSseResponse t messages extra in
    (t2, os, Respond r).

(** The ways in which an operation moves the session fields: not at all;
    a DELETE that presents the session id ends the session; a POST with one
    message, an initialize request, starts one. *)
Inductive session_step (t t' : Transport) : Op -> Prop :=
| session_kept op :
    sessionId t' = sessionId t -> _initialized t' = _initialized t ->
    generatorCalls t' = generatorCalls t ->
    session_step t t' op
| session_ended request auth s :
    toUpperCase (req_method request) = "DELETE" ->
    is_Some (sessionIdGenerator t) ->
    hdr_mcp_session_id request = Some s -> sessionId t = Some s -> s <> "" ->
    sessionId t' = None -> _initialized t' = false ->
    generatorCalls t' = generatorCalls t ->
    session_step t t' (OpRequest request auth)
| session_started request auth m :
    toUpperCase (req_method request) = "POST" ->
    parseMessages (req_body request) = Some [m] -> isInitializeRequest m = true ->
    _initialized t && bool_decide (sessionId t <> None) = false ->
    sessionId t' = sessionId (startSession t) -> _initialized t' = true ->
    generatorCalls t' = generatorCalls (startSession t) ->
    session_step t t' (OpRequest request auth).

(** A reader cancels a stream through the callback that the stream was made
    with: the callback of a standalone stream runs for an object that the
    stream map does not hold, the callback of a request-bound stream for an
    object that is not the standalone stream. *)
Definition cancel_fits (t : Transport) (op : Op) : Prop :=
  match op with
  | OpCancelStandalone ref => forall streamId, _streams t !! streamId <> Some ref
  | OpCancelStream ref => _standaloneStream t <> Some ref
  | _ => True
  end.

Fixpoint cancels_fit (t : Transport) (ops : list Op) : Prop :=
  match ops with
  | [] => True
  | op :: rest => cancel_fits t op /\ cancels_fit (run_op t op) rest
  end.

End Delivery.

(** The streams that the transport can write to are open: the streams of
    the stream map, each filed under its id, and the standalone stream,
    which the stream map does not hold. *)
Record streams_open (t : Transport) : Prop := {
  open_streams : forall streamId ref,
      _streams t !! streamId = Some ref ->
      exists st, objects t !! ref = Some st /\ stream_id st = streamId /\
                 closed st = false;
  open_standalone : forall ref,
      _standaloneStream t = Some ref ->
      (exists st, objects t !! ref = Some st /\ closed st = false) /\
      forall streamId, _streams t !! streamId <> Some ref;
}.

(** The calls of [send] for messages that relate to no request, and for
    messages that relate to the request [r]. *)
Definition unrelated (messages : list JSONRPCMessage) : list SendCall :=
  map (fun m => (m, None)) messages.

Definition related_to (r : RequestId) (messages : list JSONRPCMessage) : list SendCall :=
  map (fun m => (m, Some r)) messages.

(** The stream object [st] with [events] enqueued. *)
Definition with_events (st : StreamState) (events : list JSONRPCMessage) : StreamState :=
  {| stream_id := stream_id st; closed := closed st;
     chunks := chunks st ++ events; pendingIds := pendingIds st |}.

(** The string does not start with a code unit that [trim] removes. *)
Definition no_space_at_start (s : string) : Prop :=
  match s with
  | EmptyString => True
  | String c _ => isWhiteSpace c = false
  end.

(** The option fields, which no method writes. *)
Record same_options (t t' : Transport) : Prop := {
  so_hosts : _allowedHosts t' = _allowedHosts t;
  so_origins : _allowedOrigins t' = _allowedOrigins t;
  so_protection : _enableDnsRebindingProtection t' = _enableDnsRebindingProtection t;
}.

(** An entry as [parseCsv] gives it: not empty, with no white space at its
    ends, and without a comma. *)
Definition csv_entry (entry : string) : Prop :=
  entry <> "" /\ trim entry = entry /\ includes "," entry = false.

(** ** A concrete [Buffer]

    Base64 with the standard alphabet and padding, over the UTF-8 bytes of
    a string whose code units are below 256. *)

Definition base64_alphabet : string :=
  "ABCDEFGHIJKLMNOPQRSTUVWXYZabcdefghijklmnopqrstuvwxyz0123456789+/".

Definition base64_digit (n : nat) : ascii :=
  default "="%char (String.get n base64_alphabet).

Fixpoint base64_encode (bytes : list nat) : string :=
  match bytes with
  | [] => ""
  | [a] =>
      String (base64_digit (a / 4)) (String (base64_digit (a mod 4 * 16)) "==")
  | [a; b] =>
      String (base64_digit (a / 4))
        (String (base64_digit (a mod 4 * 16 + b / 16))
           (String (base64_digit (b mod 16 * 4)) "="))
  | a :: b :: c :: rest =>
      String (base64_digit (a / 4))
        (String (base64_digit (a mod 4 * 16 + b / 16))
           (String (base64_digit (b mod 16 * 4 + c / 64))
              (String (base64_digit (c mod 64)) (base64_encode rest))))
  end.

Fixpoint base64_index (c : ascii) (alphabet : string) (n : nat) : option nat :=
  match alphabet with
  | EmptyString => None
  | String d rest => if bool_decide (c = d) then Some n else base64_index c rest (S n)
  end.

Definition base64_values (s : string) : list nat :=
  omap (fun c => base64_index c base64_alphabet 0) (String.list_ascii_of_string s).

Fixpoint base64_decode (values : list nat) : list nat :=
  match values with
  | a :: b :: c :: d :: rest =>
      (a * 4 + b / 16) :: (b mod 16 * 16 + c / 4) :: (c mod 4 * 64 + d)
      :: base64_decode rest
  | [a; b; c] => [a * 4 + b / 16; b mod 16 * 16 + c / 4]
  | [a; b] => [a * 4 + b / 16]
  | _ => []
  end.

Definition utf8_bytes (s : string) : list nat :=
  flat_map (fun c => let n := nat_of_ascii c in
                     if (n <? 128)%nat then [n] else [192 + n / 64; 128 + n mod 64])
           (String.list_ascii_of_string s).

Fixpoint utf8_string (bytes : list nat) : string :=
  match bytes with
  | [] => ""
  | a :: rest =>
      if (a <? 128)%nat then String (ascii_of_nat a) (utf8_string rest)
      else match rest with
           | b :: rest' => String (ascii_of_nat (a mod 4 * 64 + b mod 64)) (utf8_string rest')
           | [] => ""
           end
  end.

Definition demo_buffer : BufferEncoding :=
  {| base64_of_utf8 := fun s => base64_encode (utf8_bytes s);
     utf8_of_base64 := fun s => utf8_string (base64_decode (base64_values s)) |}.

(** A worker environment with protection and sessions, and a request to
    the worker. *)
Definition demo_env (authType : option string) (hosts : option string) : Env :=
  {| ADO_ORG := Some "contoso";
     ADO_AUTH_TYPE := authType;
     ADO_MCP_AUTH_TOKEN := None;
     ADO_PAT := None;
     MCP_HTTP_PATH := None;
     MCP_ENABLE_JSON_RESPONSE := None;
     MCP_STATEFUL := Some "true";
     MCP_ALLOWED_ORIGINS := None;
     MCP_ALLOWED_HOSTS := hosts;
     MCP_ENABLE_DNS_REBINDING_PROTECTION := Some "true" |}.

Definition demo_fetch (pathname : string) (authorization : option string)
    (request : Request) : FetchRequest :=
  {| url_pathname := pathname;
     hdr_authorization := authorization;
     transport_request := request |}.

(** Requests with another method or body, and notifications. *)
Definition demo_method (method : string) (session : option string) : Request :=
  {| req_method := method;
     hdr_host := Some "localhost";
     hdr_origin := None;
     hdr_accept := None;
     hdr_content_type := None;
     hdr_mcp_session_id := session;
     hdr_mcp_protocol_version := None;
     req_body := BodyMalformed |}.

Definition demo_body (items : list (option JSONRPCMessage)) : Request :=
  {| req_method := "POST";
     hdr_host := Some "localhost";
     hdr_origin := None;
     hdr_accept := Some "application/json, text/event-stream";
     hdr_content_type := Some "application/json";
     hdr_mcp_session_id := None;
     hdr_mcp_protocol_version := None;
     req_body := BodyArray items |}.

Definition notification_1 : JSONRPCMessage :=
  JSONRPCNotification "notifications/message" "one".
Definition notification_2 : JSONRPCMessage :=
  JSONRPCNotification "notifications/progress" "two".

Definition demo_generator (n : nat) : string := "session-" +:+ tally n.

(** * The logger (logger.ts)

    [write] makes one JSON object for every entry that the configured
    level lets through and prints it on the error stream; the model gives
    the object, before [JSON.stringify], or nothing. *)

Inductive Level :=
| LevelError
| LevelWarning
| LevelInfo
| LevelDebug
| LevelVerbose.

Global Instance Level_eq_dec : EqDecision Level.
Proof. solve_decision. Defined.

(** The string that a level is. *)
Definition levelName (level : Level) : string :=
  match level with
  | LevelError => "error"
  | LevelWarning => "warning"
  | LevelInfo => "info"
  | LevelDebug => "debug"
  | LevelVerbose => "verbose"
  end.

Definition ORDER (level : Level) : nat :=
  match level with
  | LevelError => 0
  | LevelWarning => 1
  | LevelInfo => 2
  | LevelDebug => 3
  | LevelVerbose => 4
  end.

Definition normalizeLevel (input : option string) : Level :=
  match input with
  | None => LevelInfo
  | Some input =>
      let level := toLowerCase input in
      if bool_decide (level = "error") then LevelError
      else if bool_decide (level = "warning") then LevelWarning
      else if bool_decide (level = "info") then LevelInfo
      else if bool_decide (level = "debug") then LevelDebug
      else if bool_decide (level = "verbose") then LevelVerbose
      else if bool_decide (level = "warn") then LevelWarning
      else LevelInfo
  end.

(** The level that the module gives [setLogLevel] of the Azure SDK. *)
Definition azureLogLevel (configuredLevel : Level) : Level :=
  if bool_decide (configuredLevel = LevelDebug) then LevelInfo else configuredLevel.

#[local] Set Warnings "-register-all".

(** The values that are logged.  An object is the list of its own
    enumerable properties in their order; [JsScalar] stands for a value
    whose [typeof] is neither "object" nor "string": a number, a boolean or
    a function. *)
Inductive JsValue :=
| JsUndefined
| JsNull
| JsString (s : string)
| JsScalar (text : string)
| JsArray (items : list JsValue)
| JsObject (properties : list (string * JsValue)).

(** An argument of a log call: an instance of [Error], or another value. *)
Inductive LogArgument :=
| ArgError (name message : string) (stack : option string)
| ArgValue (value : JsValue).

Definition normalizeArg (arg : LogArgument) : JsValue :=
  match arg with
  | ArgError name message stack =>
      JsObject [("name", JsString name); ("message", JsString message);
                ("stack", match stack with
                          | Some s => JsString s
                          | None => JsUndefined
                          end)]
  | ArgValue value => value
  end.

(** [typeof item === "object" && item !== null && !Array.isArray(item)] *)
Definition isObjectArg (item : JsValue) : bool :=
  match item with
  | JsObject _ => true
  | _ => false
  end.

(** [Object.assign(payload, item)]: every property of [item] is set on the
    payload, in order; setting [__proto__] makes no property. *)
Definition assign (payload : gmap string JsValue) (item : JsValue)
  : gmap string JsValue :=
  match item with
  | JsObject properties =>
      foldl (fun acc '(key, value) =>
               if bool_decide (key = "__proto__") then acc else <[key := value]> acc)
            payload properties
  | _ => payload
  end.

(** [write(level, message, args)] under the configured level, at the time
    whose ISO string is [timestamp]. *)
Definition write (configuredLevel : Level) (timestamp : string)
    (level : Level) (message : string) (args : list LogArgument)
  : option (gmap string JsValue) :=
  if bool_decide (ORDER configuredLevel < ORDER level) then None
  else
    let payload : gmap string JsValue :=
      <["message" := JsString message]>
        (<["timestamp" := JsString timestamp]>
           (<["level" := JsString (levelName level)]> ∅)) in
    let normalized := map normalizeArg args in
    let objectArgs := List.filter isObjectArg normalized in
    let payload := foldl assign payload objectArgs in
    let scalarArgs := List.filter (fun item => negb (isObjectArg item)) normalized in
    Some (if bool_decide (0 < length scalarArgs)
          then <["extra" := JsArray scalarArgs]> payload
          else payload).

(** The methods of [logger]. *)
Inductive LogMethod :=
| log_error
| log_warn
| log_info
| log_debug
| log_verbose.

Definition methodLevel (method : LogMethod) : Level :=
  match method with
  | log_error => LevelError
  | log_warn => LevelWarning
  | log_info => LevelInfo
  | log_debug => LevelDebug
  | log_verbose => LevelVerbose
  end.

Definition logger (configuredLevel : Level) (timestamp : string) (method : LogMethod)
    (message : string) (args : list LogArgument) : option (gmap string JsValue) :=
  write configuredLevel timestamp (methodLevel method) message args.

(** The properties of an object argument, but [__proto__]. *)
Definition assigned (item : JsValue) : list (string * JsValue) :=
  match item with
  | JsObject properties =>
      List.filter (fun '(key, _) => negb (bool_decide (key = "__proto__"))) properties
  | _ => []
  end.
(** * Properties *)

(** ** What [send] does to the routing state *)

Lemma writeSseEvent_Sent t ref m t1 :
  writeSseEvent t ref m = (t1, Sent) ->
  exists st, objects t !! ref = Some st /\ closed st = false /\
             t1 = set_objects (<[ref := enqueue m st]> (objects t)) t.
Proof.
  unfold writeSseEvent. destruct (objects t !! ref) as [st|] eqn:E; [|done].
  destruct (closed st) eqn:C; [done|]. intros [= <-]. eauto.
Qed.

Lemma writeSseEvent_open t ref m st :
  objects t !! ref = Some st -> closed st = false ->
  writeSseEvent t ref m = (set_objects (<[ref := enqueue m st]> (objects t)) t, Sent).
Proof. intros E C. unfold writeSseEvent. by rewrite E, C. Qed.

Lemma resolveOnStream_requestToStream t ref r :
  _requestToStream (resolveOnStream t ref r) = delete r (_requestToStream t).
Proof.
  unfold resolveOnStream. cbn.
  destruct (alter (delete_pending r) ref (objects t) !! ref) as [st|]; [|done].
  by case_bool_decide.
Qed.

Lemma resolveOnStream_objects t ref r st :
  objects t !! ref = Some st ->
  objects (resolveOnStream t ref r) !! ref =
    Some (if bool_decide (size (pendingIds st ∖ {[r]}) = 0)
          then close_controller (delete_pending r st) else delete_pending r st).
Proof.
  intros E. unfold resolveOnStream. cbn.
  rewrite list_lookup_alter_eq, E. cbn.
  case_bool_decide; cbn; [|by rewrite list_lookup_alter_eq, E].
  by rewrite !list_lookup_alter_eq, E.
Qed.

Lemma resolveOnStream_streams t ref r st :
  objects t !! ref = Some st ->
  _streams (resolveOnStream t ref r) =
    if bool_decide (size (pendingIds st ∖ {[r]}) = 0)
    then delete (stream_id st) (_streams t) else _streams t.
Proof.
  intros E. unfold resolveOnStream. cbn.
  rewrite list_lookup_alter_eq, E. cbn. by case_bool_decide.
Qed.

(** A reply that [send] accepts in SSE mode was routed through the reverse
    index to an open stream. *)
Lemma send_reply_Sent_inv t m related r t1 :
  _enableJsonResponse t = false ->
  isReply m = true -> message_id m = Some r ->
  send t m related = (t1, Sent) ->
  exists ref st,
    lookupStream t r = Some ref /\ objects t !! ref = Some st /\ closed st = false /\
    t1 = resolveOnStream (set_objects (<[ref := enqueue m st]> (objects t)) t) ref r.
Proof.
  intros J R I. unfold send. rewrite R, I, J.
  destruct (lookupStream t r) as [ref|] eqn:L; [|done].
  destruct (writeSseEvent t ref m) as [t' o] eqn:W.
  destruct o; try done. intros [= <-].
  apply writeSseEvent_Sent in W as (st & E & C & ->). eauto 10.
Qed.

(** C10.  In SSE mode, when [send] has delivered a response or an error
    for request id [r], the event is on the stream that the reverse index
    named for [r], [r] is no longer in that stream's pending set nor in the
    reverse index, and a second response or error with id [r] throws the
    error "No connection established" and changes nothing: no second event
    is written. *)
Theorem send_reply_at_most_once t m1 related1 t1 m2 related2 r :
  _enableJsonResponse t = false ->
  isReply m1 = true -> message_id m1 = Some r ->
  send t m1 related1 = (t1, Sent) ->
  isReply m2 = true -> message_id m2 = Some r ->
  (exists ref st st1,
      lookupStream t r = Some ref /\
      objects t !! ref = Some st /\ objects t1 !! ref = Some st1 /\
      chunks st1 = chunks st ++ [m1] /\ r ∉ pendingIds st1) /\
  _requestToStream t1 !! r = None /\
  send t1 m2 related2 = (t1, ThrowNoConnection r).
Proof.
  intros J R1 I1 S R2 I2.
  destruct (send_reply_Sent_inv _ _ _ _ _ J R1 I1 S) as (ref & st & L & E & C & ->).
  assert (Hlen : ref < length (objects t)) by (by eapply lookup_lt_Some).
  assert (Hidx : _requestToStream
            (resolveOnStream (set_objects (<[ref:=enqueue m1 st]> (objects t)) t) ref r)
            !! r = None).
  { rewrite resolveOnStream_requestToStream. apply lookup_delete_eq. }
  split; [|split; [done|]].
  - exists ref, st. eexists. split; [done|]. split; [done|]. split.
    + apply resolveOnStream_objects. cbn. by apply list_lookup_insert_eq.
    + destruct (bool_decide _); cbn;
        (split; [done|apply not_elem_of_difference; right; by apply elem_of_singleton]).
  - unfold send. rewrite R2, I2.
    replace (_enableJsonResponse (resolveOnStream _ ref r)) with false.
    2:{ unfold resolveOnStream. cbn.
        destruct (alter _ ref _ !! ref); [|done]. by case_bool_decide. }
    unfold lookupStream. by rewrite Hidx.
Qed.

(** ** The session fields are a frame of the router *)

Lemma same_session_refl t : same_session t t.
Proof. by split. Qed.

Lemma same_session_trans t1 t2 t3 :
  same_session t1 t2 -> same_session t2 t3 -> same_session t1 t3.
Proof. intros [] []. split; congruence. Qed.

Lemma writeSseEvent_same_session t ref m : same_session t (writeSseEvent t ref m).1.
Proof.
  unfold writeSseEvent. destruct (objects t !! ref) as [st|]; [|by split].
  destruct (closed st); by split.
Qed.

Lemma resolveOnStream_same_session t ref r : same_session t (resolveOnStream t ref r).
Proof.
  unfold resolveOnStream. cbn.
  destruct (alter (delete_pending r) ref (objects t) !! ref) as [st|]; [|by split].
  destruct (bool_decide _); by split.
Qed.

Lemma send_same_session t m related : same_session t (send t m related).1.
Proof.
  unfold send.
  destruct (if isReply m then message_id m else related) as [r|].
  - destruct (_enableJsonResponse t).
    + destruct (_pendingJsonResponses t !! r); by split.
    + destruct (lookupStream t r) as [ref|]; [|by split].
      pose proof (writeSseEvent_same_session t ref m) as W.
      destruct (writeSseEvent t ref m) as [t1 []]; try done.
      destruct (isReply m); [|done]. cbn in *.
      eapply same_session_trans; [exact W|apply resolveOnStream_same_session].
  - destruct (isReply m); [by split|].
    destruct (_standaloneStream t) as [ref|]; [|by split].
    apply writeSseEvent_same_session.
Qed.

Lemma run_sends_same_session calls : forall t, same_session t (run_sends t calls).1.
Proof.
  induction calls as [|[m related] rest IH]; intros t; cbn; [by split|].
  pose proof (send_same_session t m related) as S.
  destruct (send t m related) as [t1 o]. specialize (IH t1).
  destruct (run_sends t1 rest) as [t2 os]. cbn in *.
  by eapply same_session_trans.
Qed.

Lemma dispatch_same_session messages extra :
  forall t, same_session t (dispatch t messages extra).1.
Proof.
  induction messages as [|m rest IH]; intros t; cbn; [by split|].
  assert (S : same_session t
            (match onmessage t with
             | Some handler => run_sends t (handler m extra)
             | None => (t, [])
             end).1).
  { destruct (onmessage t); [apply run_sends_same_session|by split]. }
  destruct (match onmessage t with Some _ => _ | None => _ end) as [t1 os1].
  specialize (IH t1). destruct (dispatch t1 rest extra) as [t2 os2]. cbn in *.
  by eapply same_session_trans.
Qed.

Lemma close_same_session t : same_session t (close t).
Proof. unfold close. cbn. destruct (onclose t); by split. Qed.

Lemma cancelStandalone_same_session t ref : same_session t (cancelStandalone t ref).
Proof. by split. Qed.

Lemma cancelRequestStream_same_session t ref : same_session t (cancelRequestStream t ref).
Proof. unfold cancelRequestStream. destruct (objects t !! ref); by split. Qed.

Lemma registerJson_same_session ids : forall t, same_session t (registerJson t ids).1.
Proof.
  induction ids as [|i rest IH]; intros t; cbn; [by split|].
  match goal with |- context [registerJson ?u rest] => specialize (IH u) end.
  destruct (registerJson _ rest) as [t3 ps]. cbn in *.
  eapply same_session_trans; [|exact IH]. by split.
Qed.

Lemma registerPending_same_session streamId messages :
  forall t pending, same_session t (registerPending t streamId messages pending).1.
Proof.
  induction messages as [|m rest IH]; intros t pending; cbn; [by split|].
  destruct m; try apply IH.
  eapply same_session_trans; [|apply IH]. by split.
Qed.

Section SessionStateMachine.
Context `{Environment}.

Lemma registerSse_same_session t messages : same_session t (registerSse t messages).1.
Proof.
  unfold registerSse.
  pose proof (registerPending_same_session (randomUUID (uuidCalls t)) messages
                (tick_uuid t) ∅) as P.
  destruct (registerPending _ _ messages ∅) as [t2 pending]. cbn in *.
  destruct P. by split.
Qed.

Lemma createSseResponse_same_session t messages extra :
  same_session t (createSseResponse t messages extra).1.1.
Proof.
  unfold createSseResponse.
  pose proof (registerSse_same_session t messages) as R.
  destruct (registerSse t messages) as [t1 ref].
  pose proof (dispatch_same_session messages extra t1) as D.
  destruct (dispatch t1 messages extra) as [t2 os]. cbn in *.
  by eapply same_session_trans.
Qed.

Lemma collectJsonResponses_same_session t messages extra :
  same_session t (collectJsonResponses t messages extra).1.1.
Proof.
  unfold collectJsonResponses.
  pose proof (registerJson_same_session (requestIdsOf messages) t) as R.
  destruct (registerJson t (requestIdsOf messages)) as [t1 ps].
  pose proof (dispatch_same_session messages extra t1) as D.
  destruct (dispatch t1 messages extra) as [t2 os]. cbn in *.
  by eapply same_session_trans.
Qed.

(** The last part of [handlePostRequest], from the classification of the
    batch on, leaves the session fields alone. *)
Lemma post_delivery_same_session t messages extra :
  same_session t
    (if negb (existsb isJSONRPCRequest messages) then
       let '(t2, os) := dispatch t messages extra in
       (t2, os, Respond {| status := 202; headers := []; body := BodyNull |})
     else if _enableJsonResponse t then
       let '(t2, os, ps) := collectJsonResponses t messages extra in
       (t2, os, AwaitJson ps)
     else
       let '(t2, os, r) := createSseResponse t messages extra in
       (t2, os, Respond r)).1.1.
Proof.
  destruct (negb _).
  - pose proof (dispatch_same_session messages extra t) as D.
    by destruct (dispatch t messages extra).
  - destruct (_enableJsonResponse t).
    + pose proof (collectJsonResponses_same_session t messages extra) as D.
      by destruct (collectJsonResponses t messages extra) as [[? ?] ?].
    + pose proof (createSseResponse_same_session t messages extra) as D.
      by destruct (createSseResponse t messages extra) as [[? ?] ?].
Qed.

Lemma negotiated_guards request :
  negotiated request = true ->
  negb (includes "application/json" (default "" (hdr_accept request)))
  || negb (includes "text/event-stream" (default "" (hdr_accept request))) = false
  /\ negb (includes "application/json" (default "" (hdr_content_type request))) = false.
Proof.
  unfold negotiated. intros N.
  apply andb_prop in N as [N N3]. apply andb_prop in N as [N1 N2].
  by rewrite N1, N2, N3.
Qed.

(** C6.  A POST that passed the Accept and Content-Type guards and whose
    body parses to messages among which there is an initialize request:
    when the transport is initialized and has a session id the response is
    400 and nothing changes; otherwise, when the body has more than one
    message, the response is 400 and nothing changes; otherwise the session
    id becomes the next value of the generator, or stays undefined when
    there is no generator, and the initialized flag is set. *)
Theorem initialize_post t request auth messages :
  negotiated request = true ->
  parseMessages (req_body request) = Some messages ->
  existsb isInitializeRequest messages = true ->
  let '(t', _, result) := handlePostRequest t request auth in
  if _initialized t && bool_decide (sessionId t <> None) then
    t' = t /\ exists message, result = Respond (jsonRpcError 400 (-32600) message)
  else if bool_decide (1 < length messages) then
    t' = t /\ exists message, result = Respond (jsonRpcError 400 (-32600) message)
  else
    sessionId t' = (fun generator => generator (generatorCalls t)) <$> sessionIdGenerator t
    /\ _initialized t' = true.
Proof.
  intros N P I. unfold handlePostRequest.
  destruct (negotiated_guards _ N) as [-> ->]. rewrite P, I.
  destruct (_initialized t && bool_decide (sessionId t <> None)); [eauto|].
  destruct (bool_decide (1 < length messages)); [eauto|].
  match goal with
  | |- context [if negb _ then let '(_, _) := dispatch ?u _ ?e in _ else _] =>
      pose proof (post_delivery_same_session u messages e) as D
  end.
  match type of D with same_session _ ?x.1.1 => destruct x as [[t' os] result] end.
  destruct D as [_ D1 _ D2 _ _]. cbn in D1, D2. rewrite D1, D2.
  by destruct (sessionIdGenerator t).
Qed.

(** C9.  [close()] leaves the session id and the initialized flag as they
    were, so a transport that was initialized with a session id answers an
    initialize POST with 400 "Server already initialized" after [close()] as
    it did before. *)
Theorem close_keeps_session t :
  sessionId (close t) = sessionId t /\
  _initialized (close t) = _initialized t /\
  forall request auth messages,
    _initialized t = true -> sessionId t <> None ->
    negotiated request = true ->
    parseMessages (req_body request) = Some messages ->
    existsb isInitializeRequest messages = true ->
    handlePostRequest (close t) request auth =
      (close t, [],
       Respond (jsonRpcError 400 (-32600) "Invalid Request: Server already initialized")).
Proof.
  destruct (close_same_session t) as [_ CI _ CS _ _].
  split; [done|]. split; [done|].
  intros request auth messages I S N P M. unfold handlePostRequest.
  destruct (negotiated_guards _ N) as [-> ->]. rewrite P, M, CI, CS, I.
  by rewrite bool_decide_true.
Qed.

Lemma handleGetRequest_same_session t : same_session t (handleGetRequest t).1.
Proof. unfold handleGetRequest. destruct (_standaloneStream t); by split. Qed.

Lemma reportError_same_session t : same_session t (reportError t).
Proof. unfold reportError. destruct (onerror t); by split. Qed.

Lemma same_session_terminated t t' :
  same_session t t' -> terminated t -> terminated t'.
Proof. intros [G _ _ S _ _] [? ?]. split; congruence. Qed.

(** In that state a POST without an initialize message never gets past
    the session check. *)
Lemma handlePostRequest_terminated t request auth :
  terminated t -> not_initialize (OpRequest request auth) ->
  terminated (handlePostRequest t request auth).1.1.
Proof.
  intros [[g G] S] NI. unfold handlePostRequest.
  destruct (_ || _); [by split; [eexists|]|].
  destruct (negb _); [by split; [eexists|]|].
  destruct (parseMessages (req_body request)) as [messages|] eqn:P; cbn.
  - rewrite (NI _ P), G, S.
    destruct (hdr_mcp_session_id request) as [h|]; cbn; [|by split; [eexists|]].
    destruct (negb (truthy h)); cbn; [by split; [eexists|]|].
    rewrite bool_decide_false by done. cbn. by split; [eexists|].
  - eapply same_session_terminated; [apply reportError_same_session|].
    by split; [eexists|].
Qed.

Lemma handleDeleteRequest_terminated t request :
  terminated t -> terminated (handleDeleteRequest t request).1.
Proof.
  intros [[g G] S]. unfold handleDeleteRequest. rewrite G.
  destruct (hdr_mcp_session_id request) as [h|]; cbn; [|by split; [eexists|]].
  destruct (negb (truthy h)); cbn; [by split; [eexists|]|].
  destruct (bool_decide _); cbn; by split; [eexists|].
Qed.

Lemma run_op_terminated t op :
  terminated t -> not_initialize op -> terminated (run_op t op).
Proof.
  intros T NI. destruct op as [request auth|m related| |ref|ref]; cbn.
  - unfold handleRequest.
    destruct (validateRequestHeaders t request); [done|].
    destruct (bool_decide (_ = "GET")).
    { pose proof (handleGetRequest_same_session t) as G.
      destruct (handleGetRequest t). by eapply same_session_terminated. }
    destruct (bool_decide (_ = "POST")); [by apply handlePostRequest_terminated|].
    destruct (bool_decide (_ = "DELETE")); [|done].
    pose proof (handleDeleteRequest_terminated t request T) as D.
    by destruct (handleDeleteRequest t request).
  - eapply same_session_terminated; [apply send_same_session|done].
  - eapply same_session_terminated; [apply close_same_session|done].
  - eapply same_session_terminated; [apply cancelStandalone_same_session|done].
  - eapply same_session_terminated; [apply cancelRequestStream_same_session|done].
Qed.

Lemma run_ops_terminated ops :
  forall t, terminated t -> Forall not_initialize ops -> terminated (run_ops t ops).
Proof.
  induction ops as [|op rest IH]; intros t T F; [done|].
  apply Forall_cons in F as [F1 F2]. cbn.
  apply IH; [by apply run_op_terminated|done].
Qed.

(** C7 (as amended).  With a generator configured and a non-empty session
    id [s] assigned, a DELETE that presents [s] is answered 204 and clears
    the session id and the initialized flag.  After it, and after any
    further operations none of which is a request with an initialize
    message, a DELETE that presents [s] and a POST without an initialize
    message that presents [s] are answered 404 with code -32001 and change
    nothing. *)
Theorem delete_ends_session t request s :
  is_Some (sessionIdGenerator t) -> sessionId t = Some s -> s <> "" ->
  hdr_mcp_session_id request = Some s ->
  let '(t1, response) := handleDeleteRequest t request in
  response = {| status := 204; headers := []; body := BodyNull |} /\
  sessionId t1 = None /\ _initialized t1 = false /\
  forall ops, Forall not_initialize ops ->
    let t2 := run_ops t1 ops in
    (forall request',
        hdr_mcp_session_id request' = Some s ->
        handleDeleteRequest t2 request' =
          (t2, jsonRpcError 404 (-32001) "Session not found")) /\
    (forall request' auth messages,
        hdr_mcp_session_id request' = Some s ->
        negotiated request' = true ->
        parseMessages (req_body request') = Some messages ->
        existsb isInitializeRequest messages = false ->
        handlePostRequest t2 request' auth =
          (t2, [], Respond (jsonRpcError 404 (-32001) "Session not found"))).
Proof.
  intros [g G] S Ne Hd. unfold handleDeleteRequest at 1. rewrite G, Hd, S.
  assert (Tr : truthy s = true) by (by destruct s).
  rewrite Tr. cbn. rewrite bool_decide_true by done.
  split; [done|]. split; [done|]. split; [done|].
  intros ops F.
  match goal with |- context [run_ops ?u ops] =>
    assert (T : terminated (run_ops u ops))
      by (apply run_ops_terminated; [by split; [eexists|]|done]);
    generalize dependent (run_ops u ops) end.
  intros t2 [[g2 G2] S2]. cbn. split.
  - intros request' Hd'. unfold handleDeleteRequest. rewrite G2, Hd', Tr, S2. cbn.
    by rewrite bool_decide_false.
  - intros request' auth messages Hd' N P NI. unfold handlePostRequest.
    destruct (negotiated_guards _ N) as [-> ->]. rewrite P, NI, G2, Hd', Tr, S2. cbn.
    by rewrite bool_decide_false.
Qed.

End SessionStateMachine.

(** ** Replies that have no channel *)

(** C3 (as amended).  A response or an error whose id has no channel: in
    SSE mode, when the reverse index has no stream for the id, [send]
    throws "No connection established" and changes nothing; in JSON mode,
    when there is no pending promise for the id, [send] returns normally
    and changes nothing. *)
Theorem send_reply_without_channel t m related r :
  isReply m = true -> message_id m = Some r ->
  (_enableJsonResponse t = false -> _requestToStream t !! r = None ->
   send t m related = (t, ThrowNoConnection r)) /\
  (_enableJsonResponse t = true -> _pendingJsonResponses t !! r = None ->
   send t m related = (t, Sent)).
Proof.
  intros R I. split; intros J N; unfold send; rewrite R, I, J.
  - unfold lookupStream. by rewrite N.
  - by rewrite N.
Qed.

(** ** The standalone stream *)

Section StandaloneStream.
Context `{Environment}.

(** The transport has one pointer for the standalone stream, so it holds
    one at most.  While the pointer holds a stream, a GET is answered 409
    and changes nothing.  Once the reader of that stream has cancelled it,
    a GET is answered 200 with an event stream: a stream object that did
    not exist before, open and empty, which becomes the standalone stream. *)
Theorem standalone_stream_exclusive t ref :
  _standaloneStream t = Some ref ->
  handleGetRequest t =
    (t, jsonRpcError 409 (-32000) "Conflict: Only one SSE stream is allowed.") /\
  let '(t2, response) := handleGetRequest (cancelStandalone t ref) in
  exists ref',
    status response = 200 /\
    ("Content-Type", "text/event-stream") ∈ headers response /\
    body response = BodyEventStream ref' /\
    objects t !! ref' = None /\
    objects t2 !! ref' = Some (new_stream (randomUUID (uuidCalls t)) ∅) /\
    _standaloneStream t2 = Some ref'.
Proof.
  intros S. split.
  - unfold handleGetRequest. by rewrite S.
  - unfold handleGetRequest. cbn.
    exists (length (alter cancel_controller ref (objects t))).
    split; [done|]. split; [apply list_elem_of_here|]. split; [done|].
    rewrite length_alter. split; [by apply lookup_ge_None_2|]. split; [|done].
    rewrite lookup_app_r by (by rewrite length_alter).
    by rewrite length_alter, Nat.sub_diag.
Qed.

End StandaloneStream.

(** ** [close()] *)

Lemma close_all_lookup refs objs i :
  close_all refs objs !! i =
    (if bool_decide (i ∈ refs) then close_controller else fun st => st) <$> objs !! i.
Proof.
  induction refs as [|ref refs IH].
  - cbn. by destruct (objs !! i).
  - change (close_all (ref :: refs) objs)
      with (alter close_controller ref (close_all refs objs)).
    destruct (decide (ref = i)) as [->|Ne].
    + rewrite list_lookup_alter_eq, IH.
      rewrite (bool_decide_true (i ∈ i :: refs)) by apply list_elem_of_here.
      destruct (objs !! i) as [st|]; [|done]. cbn.
      by destruct (bool_decide (i ∈ refs)).
    + rewrite list_lookup_alter_ne, IH by done.
      destruct (objs !! i) as [st|]; [|done]. cbn.
      rewrite (bool_decide_ext (i ∈ ref :: refs) (i ∈ refs)); [done|].
      rewrite elem_of_cons. split; [intros [E|E]; [by subst|done]|by right].
Qed.

Lemma elem_of_stream_values (streams : gmap string nat) ref :
  ref ∈ (map_to_list streams).*2 <-> exists streamId, streams !! streamId = Some ref.
Proof.
  rewrite list_elem_of_fmap. split.
  - intros ([streamId ref'] & -> & E). exists streamId. by apply elem_of_map_to_list.
  - intros (streamId & E). exists (streamId, ref). split; [done|].
    by apply elem_of_map_to_list.
Qed.

(** What [close()] does do: every stream of the stream map is closed, the
    three maps and the standalone pointer are cleared, and [onclose] is
    called once when it is installed. *)
Lemma close_effects t :
  (forall streamId ref st,
      _streams t !! streamId = Some ref -> objects t !! ref = Some st ->
      objects (close t) !! ref = Some (close_controller st)) /\
  _streams (close t) = ∅ /\ _requestToStream (close t) = ∅ /\
  _pendingJsonResponses (close t) = ∅ /\ _standaloneStream (close t) = None /\
  oncloseCalls (close t) = oncloseCalls t + (if onclose t then 1 else 0).
Proof.
  unfold close. cbn. destruct (onclose t); cbn.
  - split; [|repeat split; lia].
    intros streamId ref st S O. rewrite close_all_lookup, O, bool_decide_true; [done|].
    apply elem_of_stream_values. eauto.
  - split; [|repeat split; lia].
    intros streamId ref st S O. rewrite close_all_lookup, O, bool_decide_true; [done|].
    apply elem_of_stream_values. eauto.
Qed.

(** C4 (where the code departs from it).  The standalone stream is not in
    the stream map, and [close()] closes the streams of the stream map
    only: an open standalone stream is still open after [close()], and
    the pointer to it is gone. *)
Theorem close_leaves_standalone_stream_open t ref st :
  _standaloneStream t = Some ref ->
  objects t !! ref = Some st -> closed st = false ->
  (forall streamId, _streams t !! streamId <> Some ref) ->
  objects (close t) !! ref = Some st /\ closed st = false /\
  _standaloneStream (close t) = None.
Proof.
  intros S O C N. split; [|split; [done|]].
  - unfold close. cbn.
    replace (objects (if onclose t then _ else _))
      with (close_all (map_to_list (_streams t)).*2 (objects t))
      by (by destruct (onclose t)).
    rewrite close_all_lookup, O, bool_decide_false; [done|].
    rewrite elem_of_stream_values. intros [streamId E]. by eapply N.
  - apply close_effects.
Qed.

(** ** After [close()] *)

Section Again.
Context `{Environment}.

Lemma close_all_length refs objs : length (close_all refs objs) = length objs.
Proof.
  induction refs as [|ref refs IH]; [done|].
  change (close_all (ref :: refs) objs)
    with (alter close_controller ref (close_all refs objs)).
  by rewrite length_alter.
Qed.

Lemma close_objects t :
  objects (close t) = close_all (map_to_list (_streams t)).*2 (objects t).
Proof. unfold close. cbn. by destruct (onclose t). Qed.

(** C8 (where the code departs from it).  A GET has opened the standalone
    stream and [close()] is called: the sink of that stream stays open and
    the pointer to it is cleared, so the next GET is not answered 409 but
    200, with a second standalone stream.  Two standalone streams are then
    open at the same time, of which the transport knows the second only. *)
Theorem second_standalone_stream_after_close t :
  well_formed t -> _standaloneStream t = None ->
  let '(t1, first) := handleGetRequest t in
  let '(t2, second) := handleGetRequest (close t1) in
  exists ref ref' st st',
    status first = 200 /\ body first = BodyEventStream ref /\
    _standaloneStream t1 = Some ref /\
    status second = 200 /\ body second = BodyEventStream ref' /\
    _standaloneStream t2 = Some ref' /\ ref <> ref' /\
    objects t2 !! ref = Some st /\ closed st = false /\
    objects t2 !! ref' = Some st' /\ closed st' = false.
Proof.
  intros [WS _] Sa.
  set (t1 := set_standaloneStream (Some (length (objects t)))
               (set_objects (objects t ++ [new_stream (randomUUID (uuidCalls t)) ∅])
                  (tick_uuid t))).
  assert (G : handleGetRequest t =
              (t1, {| status := 200; headers := sseHeaders t1;
                      body := BodyEventStream (length (objects t)) |})).
  { unfold handleGetRequest. by rewrite Sa. }
  rewrite G.
  assert (O1 : objects (close t1) !! length (objects t)
               = Some (new_stream (randomUUID (uuidCalls t)) ∅)).
  { rewrite close_objects, close_all_lookup. cbn.
    rewrite lookup_app_r, Nat.sub_diag by done. cbn.
    rewrite bool_decide_false; [done|].
    rewrite elem_of_stream_values. intros [streamId E].
    destruct (WS _ _ E) as (st & Es & _). apply lookup_lt_Some in Es. lia. }
  assert (L : length (objects (close t1)) = S (length (objects t))).
  { rewrite close_objects, close_all_length. cbn. rewrite length_app. cbn. lia. }
  assert (P1 : _standaloneStream t1 = Some (length (objects t))) by done.
  assert (N : _standaloneStream (close t1) = None) by apply close_effects.
  set (c := close t1) in *. clearbody c. clearbody t1.
  unfold handleGetRequest. rewrite N.
  exists (length (objects t)), (length (objects c)),
    (new_stream (randomUUID (uuidCalls t)) ∅), (new_stream (randomUUID (uuidCalls c)) ∅).
  split; [reflexivity|]. split; [reflexivity|]. split; [exact P1|].
  split; [reflexivity|]. split; [reflexivity|]. split; [reflexivity|].
  split; [lia|]. cbn.
  split; [by apply lookup_app_l_Some|]. split; [reflexivity|].
  split; [|reflexivity]. by rewrite lookup_app_r, Nat.sub_diag.
Qed.

End Again.

(** ** The life of a request-bound stream *)

Lemma writeSseEvent_cases t ref m :
  writeSseEvent t ref m = (t, ThrowEnqueue) \/
  exists st, objects t !! ref = Some st /\ closed st = false /\
             writeSseEvent t ref m =
               (set_objects (<[ref := enqueue m st]> (objects t)) t, Sent).
Proof.
  unfold writeSseEvent. destruct (objects t !! ref) as [st|]; [|by left].
  destruct (closed st) eqn:C; [by left|]. right. eauto.
Qed.

Lemma send_has_effect t m related : send_effect t m (send t m related).1.
Proof.
  unfold send. destruct (isReply m) eqn:R.
  - destruct (message_id m) as [r|] eqn:I; [|constructor].
    destruct (_enableJsonResponse t).
    + destruct (_pendingJsonResponses t !! r) as [p|] eqn:P; cbn; [|constructor].
      by apply effect_promise.
    + destruct (lookupStream t r) as [ref|] eqn:L; [|constructor].
      destruct (writeSseEvent_cases t ref m) as [->|(st & E & C & ->)]; [constructor|].
      by eapply effect_resolved.
  - destruct related as [r|].
    + destruct (_enableJsonResponse t).
      * destruct (_pendingJsonResponses t !! r) as [p|] eqn:P; cbn; [|constructor].
        by apply effect_promise.
      * destruct (lookupStream t r) as [ref|] eqn:L; [|constructor].
        destruct (writeSseEvent_cases t ref m) as [->|(st & E & C & ->)]; [constructor|].
        by eapply effect_written.
    + destruct (_standaloneStream t) as [ref|]; [|constructor].
      destruct (writeSseEvent_cases t ref m) as [->|(st & E & C & ->)]; [constructor|].
      by eapply effect_written.
Qed.

Lemma same_ids_refl objs : same_ids objs objs.
Proof. intros ref st E. eauto. Qed.

Lemma same_ids_trans a b c : same_ids a b -> same_ids b c -> same_ids a c.
Proof.
  intros AB BC ref st E. destruct (AB _ _ E) as (st1 & E1 & I1).
  destruct (BC _ _ E1) as (st2 & E2 & I2). exists st2. split; [done|congruence].
Qed.

Lemma same_ids_insert objs ref st st' :
  objs !! ref = Some st -> stream_id st' = stream_id st ->
  same_ids objs (<[ref := st']> objs).
Proof.
  intros E I ref0 st0 E0. destruct (decide (ref = ref0)) as [<-|Ne].
  - exists st'. split; [|congruence].
    apply list_lookup_insert_eq. by eapply lookup_lt_Some.
  - exists st0. by rewrite list_lookup_insert_ne.
Qed.

Lemma same_ids_alter objs ref f :
  (forall st, stream_id (f st) = stream_id st) -> same_ids objs (alter f ref objs).
Proof.
  intros F ref0 st0 E0. destruct (decide (ref = ref0)) as [<-|Ne].
  - exists (f st0). by rewrite list_lookup_alter_eq, E0.
  - exists st0. by rewrite list_lookup_alter_ne.
Qed.

(** [send] keeps the objects and their ids, and only removes entries from
    the maps. *)
Lemma send_effect_monotone t m t1 :
  send_effect t m t1 ->
  same_ids (objects t) (objects t1) /\
  (forall streamId ref, _streams t1 !! streamId = Some ref ->
                        _streams t !! streamId = Some ref) /\
  (forall r streamId, _requestToStream t1 !! r = Some streamId ->
                      _requestToStream t !! r = Some streamId) /\
  (forall r p, _pendingJsonResponses t1 !! r = Some p ->
               _pendingJsonResponses t !! r = Some p) /\
  length (promises t1) = length (promises t).
Proof.
  intros [|ref st E C|ref st r E C L _ _|r p P]; cbn.
  - split; [apply same_ids_refl|done].
  - split; [by eapply same_ids_insert|done].
  - assert (E1 : objects (set_objects (<[ref:=enqueue m st]> (objects t)) t) !! ref
                 = Some (enqueue m st)).
    { cbn. apply list_lookup_insert_eq. by eapply lookup_lt_Some. }
    rewrite resolveOnStream_requestToStream.
    rewrite (resolveOnStream_streams _ _ _ _ E1).
    split; [|split; [|split; [|split]]].
    + eapply same_ids_trans; [by eapply (same_ids_insert _ _ _ (enqueue m st))|].
      unfold resolveOnStream. cbn.
      destruct (alter _ ref _ !! ref) as [st0|]; [|by apply same_ids_alter].
      destruct (bool_decide _); cbn; [|by apply same_ids_alter].
      eapply same_ids_trans; by apply same_ids_alter.
    + cbn. intros streamId ref0. destruct (bool_decide _); [|done].
      intros D. by apply lookup_delete_Some in D as [_ D].
    + cbn. intros r0 streamId D. by apply lookup_delete_Some in D as [_ D].
    + unfold resolveOnStream. cbn.
      destruct (alter _ ref _ !! ref) as [st0|]; [|done].
      by destruct (bool_decide _).
    + unfold resolveOnStream. cbn.
      destruct (alter _ ref _ !! ref) as [st0|]; [|done].
      by destruct (bool_decide _).
  - split; [apply same_ids_refl|]. split; [done|]. split; [done|]. split.
    + intros r0 p0 D. by apply lookup_delete_Some in D as [_ D].
    + unfold resolve_promise. apply length_alter.
Qed.

Lemma send_well_formed t m related :
  well_formed t -> well_formed (send t m related).1.
Proof.
  intros [WS WP].
  destruct (send_effect_monotone _ _ _ (send_has_effect t m related))
    as (O & S & _ & P & L).
  split.
  - intros streamId ref E. destruct (WS _ _ (S _ _ E)) as (st & E1 & I1).
    destruct (O _ _ E1) as (st' & E2 & I2). exists st'. split; [done|congruence].
  - intros r p E. rewrite L. eapply WP, P, E.
Qed.

Lemma run_sends_well_formed calls :
  forall t, well_formed t -> well_formed (run_sends t calls).1.
Proof.
  induction calls as [|[m related] rest IH]; intros t W; cbn; [done|].
  pose proof (send_well_formed t m related W) as W1.
  destruct (send t m related) as [t1 o]. specialize (IH t1 W1).
  by destruct (run_sends t1 rest).
Qed.

Lemma owns_lookupStream t ref st r :
  owns t ref st -> r ∈ pendingIds st -> lookupStream t r = Some ref.
Proof.
  intros [_ _ T S _ I] In. unfold lookupStream. by rewrite (I _ In), T.
Qed.

Lemma resolveOnStream_objects_ne t ref r ref' :
  ref <> ref' -> objects (resolveOnStream t ref r) !! ref' = objects t !! ref'.
Proof.
  intros Ne. unfold resolveOnStream. cbn.
  destruct (alter _ ref _ !! ref) as [st0|]; cbn; [|by rewrite list_lookup_alter_ne].
  destruct (bool_decide _); cbn; by rewrite ?list_lookup_alter_ne.
Qed.

Lemma nonempty_size (X : gset RequestId) : X <> ∅ -> bool_decide (size X = 0) = false.
Proof.
  intros N. apply bool_decide_false. intros Z. apply N.
  by apply leibniz_equiv, size_empty_iff.
Qed.

Lemma empty_size (X : gset RequestId) : X = ∅ -> bool_decide (size X = 0) = true.
Proof. intros ->. by apply bool_decide_true. Qed.

(** A response or an error for a pending id of a live stream: it is written
    to that stream, the id leaves the pending set and the reverse index, and
    the stream is closed and taken out of the stream map if and only if no
    id is left pending. *)
Lemma send_reply_pending t ref st m related r :
  _enableJsonResponse t = false -> owns t ref st -> r ∈ pendingIds st ->
  isReply m = true -> message_id m = Some r ->
  exists t1 st1,
    send t m related = (t1, Sent) /\
    objects t1 !! ref = Some st1 /\
    stream_id st1 = stream_id st /\
    chunks st1 = chunks st ++ [m] /\
    pendingIds st1 = pendingIds st ∖ {[r]} /\
    _requestToStream t1 !! r = None /\
    (pendingIds st1 <> ∅ -> owns t1 ref st1) /\
    (pendingIds st1 = ∅ -> closed st1 = true /\ _streams t1 !! stream_id st = None).
Proof.
  intros J O In R I. pose proof (owns_lookupStream _ _ _ _ O In) as L.
  destruct O as [E C T S Pn Ix].
  assert (E1 : objects (set_objects (<[ref:=enqueue m st]> (objects t)) t) !! ref
               = Some (enqueue m st)).
  { cbn. apply list_lookup_insert_eq. by eapply lookup_lt_Some. }
  eexists _, _. split.
  { unfold send. by rewrite R, I, J, L, (writeSseEvent_open _ _ _ _ E C). }
  split; [by apply resolveOnStream_objects|].
  rewrite (resolveOnStream_streams _ _ _ _ E1), resolveOnStream_requestToStream.
  cbn. destruct (decide (pendingIds st ∖ {[r]} = ∅)) as [Em|Ne].
  - rewrite (empty_size _ Em). cbn. split; [done|]. split; [done|]. split; [done|].
    split; [apply lookup_delete_eq|]. split; [done|]. intros _.
    split; [done|apply lookup_delete_eq].
  - rewrite (nonempty_size _ Ne). cbn. split; [done|]. split; [done|]. split; [done|].
    split; [apply lookup_delete_eq|]. split; [|done]. intros _. split; cbn; try done.
    + rewrite (resolveOnStream_objects _ _ _ _ E1). cbn. by rewrite (nonempty_size _ Ne).
    + rewrite (resolveOnStream_streams _ _ _ _ E1). cbn. by rewrite (nonempty_size _ Ne).
    + intros r' [In' Ne']%elem_of_difference.
      rewrite resolveOnStream_requestToStream. cbn.
      rewrite lookup_delete_ne; [by apply Ix|].
      intros ->. apply Ne'. by apply elem_of_singleton.
Qed.

(** Any other call of [send] leaves a live stream live, with the same
    pending ids; it may add an event to it. *)
Lemma send_other_owned t ref st m related :
  well_formed t -> owns t ref st ->
  (forall r, resolved_id (m, related) = Some r -> r ∉ pendingIds st) ->
  exists st1,
    owns (send t m related).1 ref st1 /\
    pendingIds st1 = pendingIds st /\
    stream_id st1 = stream_id st /\
    exists extra, chunks st1 = chunks st ++ extra.
Proof.
  intros [WS _] O NR. destruct O as [E C T S Pn Ix].
  destruct (send_has_effect t m related) as [|ref' st' E' C'|ref' st' r' E' C' L' R' I'|r' p' P'].
  - exists st. split; [by split|]. split; [done|]. split; [done|].
    exists []. by rewrite app_nil_r.
  - destruct (decide (ref' = ref)) as [->|Ne].
    + assert (st' = st) as -> by congruence.
      exists (enqueue m st). split; [|by eauto].
      split; cbn; try done. apply list_lookup_insert_eq. by eapply lookup_lt_Some.
    + exists st. split; [|split; [done|split; [done|exists []; by rewrite app_nil_r]]].
      split; cbn; try done. by rewrite list_lookup_insert_ne.
  - assert (NI : r' ∉ pendingIds st).
    { apply NR. unfold resolved_id. cbn. by rewrite R'. }
    assert (E1 : objects (set_objects (<[ref':=enqueue m st']> (objects t)) t) !! ref'
                 = Some (enqueue m st')).
    { cbn. apply list_lookup_insert_eq. by eapply lookup_lt_Some. }
    destruct (decide (ref' = ref)) as [->|Ne].
    + assert (st' = st) as -> by congruence.
      assert (Same : pendingIds st ∖ {[r']} = pendingIds st).
      { apply set_eq. intros x. rewrite elem_of_difference, elem_of_singleton.
        split; [by intros [? _]|]. intros Hx. split; [done|]. by intros ->. }
      exists (delete_pending r' (enqueue m st)).
      split; [|cbn; by eauto]. split; cbn; try done.
      * rewrite (resolveOnStream_objects _ _ _ _ E1). cbn.
        rewrite Same. by rewrite (nonempty_size _ Pn).
      * rewrite (resolveOnStream_streams _ _ _ _ E1). cbn.
        rewrite Same. by rewrite (nonempty_size _ Pn).
      * by rewrite Same.
      * rewrite Same. intros r In. rewrite resolveOnStream_requestToStream. cbn.
        rewrite lookup_delete_ne; [by apply Ix|]. by intros ->.
    + assert (NeId : stream_id st' <> stream_id st).
      { intros Eq. unfold lookupStream in L'.
        destruct (_requestToStream t !! r') as [streamId|]; [|done].
        destruct (truthy streamId); [|done].
        destruct (WS _ _ L') as (st0 & E0 & I0).
        assert (st0 = st') as -> by congruence.
        apply Ne. rewrite I0 in Eq. rewrite Eq, S in L'. congruence. }
      exists st. split; [|split; [done|split; [done|exists []; by rewrite app_nil_r]]].
      split; cbn; try done.
      * rewrite resolveOnStream_objects_ne by done. cbn.
        by rewrite list_lookup_insert_ne.
      * rewrite (resolveOnStream_streams _ _ _ _ E1). cbn.
        destruct (bool_decide _); [|done]. by rewrite lookup_delete_ne.
      * intros r In. rewrite resolveOnStream_requestToStream. cbn.
        rewrite lookup_delete_ne; [by apply Ix|]. by intros ->.
  - exists st. split; [by split|]. split; [done|]. split; [done|].
    exists []. by rewrite app_nil_r.
Qed.

(** A closed stream object never changes again under [send]. *)
Lemma send_closed_frozen t ref st m related :
  objects t !! ref = Some st -> closed st = true ->
  objects (send t m related).1 !! ref = Some st.
Proof.
  intros E C.
  destruct (send_has_effect t m related) as [|ref' st' E' C'|ref' st' r' E' C' L' R' I'|r' p' P'];
    cbn; try done.
  - destruct (decide (ref' = ref)) as [->|Ne]; [congruence|].
    by rewrite list_lookup_insert_ne.
  - destruct (decide (ref' = ref)) as [->|Ne]; [congruence|].
    rewrite resolveOnStream_objects_ne by done. cbn. by rewrite list_lookup_insert_ne.
Qed.

Lemma run_sends_closed_frozen calls :
  forall t ref st, objects t !! ref = Some st -> closed st = true ->
                   objects (run_sends t calls).1 !! ref = Some st.
Proof.
  induction calls as [|[m related] rest IH]; intros t ref st E C; cbn; [done|].
  pose proof (send_closed_frozen t ref st m related E C) as E1.
  destruct (send t m related) as [t1 o]. specialize (IH t1 ref st E1 C).
  by destruct (run_sends t1 rest).
Qed.

Lemma run_sends_monotone calls :
  forall t,
    (forall streamId, _streams t !! streamId = None ->
                      _streams (run_sends t calls).1 !! streamId = None) /\
    (forall r, _requestToStream t !! r = None ->
               _requestToStream (run_sends t calls).1 !! r = None).
Proof.
  induction calls as [|[m related] rest IH]; intros t; cbn; [done|].
  destruct (send_effect_monotone _ _ _ (send_has_effect t m related))
    as (_ & S & X & _ & _).
  destruct (send t m related) as [t1 o]. specialize (IH t1).
  destruct (run_sends t1 rest) as [t2 os]. cbn in *. destruct IH as [IS IX]. split.
  - intros streamId N. apply IS. destruct (_streams t1 !! streamId) eqn:D; [|done].
    rewrite (S _ _ D) in N. done.
  - intros r N. apply IX. destruct (_requestToStream t1 !! r) eqn:D; [|done].
    rewrite (X _ _ D) in N. done.
Qed.

Lemma first_replies_empty calls : first_replies ∅ calls = [].
Proof.
  induction calls as [|c rest IH]; cbn; [done|].
  destruct (resolved_id c) as [r|]; [|done].
  rewrite bool_decide_false; [done|apply not_elem_of_empty].
Qed.

Lemma resolved_by_cons c rest :
  resolved_by (c :: rest) =
    match resolved_id c with Some r => {[r]} ∪ resolved_by rest | None => resolved_by rest end.
Proof. unfold resolved_by. cbn. by destruct (resolved_id c). Qed.

(** The life of a live stream under any sequence of calls of [send]. *)
Lemma run_sends_owned ref calls :
  forall t st,
    _enableJsonResponse t = false -> well_formed t -> owns t ref st ->
    exists st',
      objects (run_sends t calls).1 !! ref = Some st' /\
      stream_id st' = stream_id st /\
      pendingIds st' = pendingIds st ∖ resolved_by calls /\
      (exists extra, chunks st' = chunks st ++ extra /\
                     sublist (first_replies (pendingIds st) calls) extra) /\
      (forall r, r ∈ pendingIds st -> r ∈ resolved_by calls ->
                 _requestToStream (run_sends t calls).1 !! r = None) /\
      (pendingIds st' <> ∅ -> owns (run_sends t calls).1 ref st') /\
      (pendingIds st' = ∅ ->
       closed st' = true /\ _streams (run_sends t calls).1 !! stream_id st = None).
Proof.
  induction calls as [|[m related] rest IH]; intros t st J W O.
  { exists st. cbn. split; [apply O|]. split; [done|].
    split; [unfold resolved_by; cbn; set_solver|].
    split; [exists []; by rewrite app_nil_r|].
    split; [unfold resolved_by; cbn; set_solver|].
    split; [done|]. intros Em. by destruct O. }
  rewrite resolved_by_cons. cbn [run_sends first_replies].
  pose proof (send_same_session t m related) as SS.
  pose proof (send_well_formed t m related W) as W1.
  destruct (resolved_id (m, related)) as [r|] eqn:RI.
  - destruct (decide (r ∈ pendingIds st)) as [In|NIn].
    + rewrite (bool_decide_true _ In).
      assert (isReply m = true /\ message_id m = Some r) as [R I].
      { unfold resolved_id in RI. cbn in RI. by destruct (isReply m). }
      destruct (send_reply_pending t ref st m related r J O In R I)
        as (t1 & st1 & S & E1 & I1 & C1 & P1 & X1 & Live & Done).
      rewrite S in SS, W1 |- *. cbn in SS, W1.
      destruct (decide (pendingIds st1 = ∅)) as [Em|Ne].
      * destruct (Done Em) as [Cl Gone].
        pose proof (run_sends_closed_frozen rest t1 ref st1 E1 Cl) as F.
        destruct (run_sends_monotone rest t1) as [MS MX].
        destruct (run_sends t1 rest) as [t2 os]. cbn in *.
        exists st1. split; [done|]. split; [done|].
        split; [rewrite Em; rewrite P1 in Em; set_solver|].
        split.
        { exists [m]. split; [done|]. rewrite <- P1, Em, first_replies_empty. done. }
        split.
        { intros r' In' _. destruct (decide (r' = r)) as [->|Nr]; [by apply MX|].
          exfalso. eapply (not_elem_of_empty (C := gset RequestId) r').
          rewrite <- Em, P1. apply elem_of_difference. split; [done|].
          by rewrite elem_of_singleton. }
        split; [done|]. intros _. split; [done|by apply MS].
      * specialize (Live Ne).
        destruct (IH t1 st1 (eq_trans (ss_json _ _ SS) J) W1 Live)
          as (st' & E' & I' & P' & (extra & Ch & Sub) & X' & Live' & Done').
        destruct (run_sends_monotone rest t1) as [_ MX].
        destruct (run_sends t1 rest) as [t2 os]. cbn in *.
        exists st'. split; [done|]. split; [congruence|].
        split; [rewrite P', P1; set_solver|].
        split.
        { exists (m :: extra). split.
          - rewrite Ch, C1, <- app_assoc. done.
          - rewrite <- P1. by apply sublist_skip. }
        split.
        { intros r' In' Res. destruct (decide (r' = r)) as [->|Nr]; [by apply MX|].
          apply X'; [rewrite P1; set_solver|set_solver]. }
        split; [done|]. intros Em. rewrite <- I1. by apply Done'.
    + rewrite (bool_decide_false _ NIn).
      destruct (send_other_owned t ref st m related W O)
        as (st1 & O1 & P1 & I1 & extra1 & C1).
      { intros r0 Eq. rewrite RI in Eq. by injection Eq as <-. }
      destruct (send t m related) as [t1 o]. cbn in *.
      destruct (IH t1 st1 (eq_trans (ss_json _ _ SS) J) W1 O1)
        as (st' & E' & I' & P' & (extra & Ch & Sub) & X' & Live' & Done').
      destruct (run_sends t1 rest) as [t2 os]. cbn in *.
      exists st'. split; [done|]. split; [congruence|].
      split; [rewrite P', P1; set_solver|].
      split.
      { exists (extra1 ++ extra). split.
        - rewrite Ch, C1, <- app_assoc. done.
        - rewrite <- P1. by apply sublist_inserts_l. }
      split.
      { intros r' In' Res. apply X'; [by rewrite P1|set_solver]. }
      split; [done|]. intros Em. rewrite <- I1. by apply Done'.
  - destruct (send_other_owned t ref st m related W O)
      as (st1 & O1 & P1 & I1 & extra1 & C1).
    { intros r0 Eq. by rewrite RI in Eq. }
    destruct (send t m related) as [t1 o]. cbn in *.
    destruct (IH t1 st1 (eq_trans (ss_json _ _ SS) J) W1 O1)
      as (st' & E' & I' & P' & (extra & Ch & Sub) & X' & Live' & Done').
    destruct (run_sends t1 rest) as [t2 os]. cbn in *.
    exists st'. split; [done|]. split; [congruence|].
    split; [by rewrite P', P1|].
    split.
    { exists (extra1 ++ extra). split.
      - rewrite Ch, C1, <- app_assoc. done.
      - rewrite <- P1. by apply sublist_inserts_l. }
    split.
    { intros r' In' Res. apply X'; [by rewrite P1|done]. }
    split; [done|]. intros Em. rewrite <- I1. by apply Done'.
Qed.

Lemma set_requestToStream_id t : set_requestToStream (_requestToStream t) t = t.
Proof. by destruct t. Qed.

Lemma requestIdsOf_cons m rest :
  requestIdsOf (m :: rest) =
    match m with
    | JSONRPCRequest i _ _ => i :: requestIdsOf rest
    | _ => requestIdsOf rest
    end.
Proof. by destruct m. Qed.

(** The first loop of [createSseResponse] touches the reverse index only:
    every request id of the batch is sent to the new stream id, and the ids
    are collected in the pending set. *)
Lemma registerPending_spec streamId messages :
  forall t pending,
  exists index,
    registerPending t streamId messages pending =
      (set_requestToStream index t, list_to_set (requestIdsOf messages) ∪ pending) /\
    (forall r, r ∈ requestIdsOf messages -> index !! r = Some streamId) /\
    (forall r, r ∉ requestIdsOf messages -> index !! r = _requestToStream t !! r).
Proof.
  induction messages as [|m rest IH]; intros t pending.
  { exists (_requestToStream t). cbn. rewrite set_requestToStream_id.
    split; [f_equal; set_solver|]. split; [|done]. intros r In. by apply elem_of_nil in In. }
  rewrite requestIdsOf_cons.
  destruct m as [i method params| | |]; cbn [registerPending]; try apply IH.
  destruct (IH (set_requestToStream (<[i:=streamId]> (_requestToStream t)) t)
               ({[i]} ∪ pending)) as (index & -> & In & Out).
  exists index. split; [f_equal; set_solver|]. split.
  - intros r [->|Hr]%elem_of_cons; [|by apply In].
    destruct (decide (i ∈ requestIdsOf rest)); [by apply In|].
    rewrite Out by done. cbn. apply lookup_insert_eq.
  - intros r [Ne Hr]%not_elem_of_cons. rewrite Out by done. cbn.
    by rewrite lookup_insert_ne.
Qed.

Lemma has_request_ids messages :
  existsb isJSONRPCRequest messages = true -> exists r, r ∈ requestIdsOf messages.
Proof.
  induction messages as [|m rest IH]; [done|]. rewrite requestIdsOf_cons.
  destruct m as [i method params| | |]; cbn; try done.
  intros _. exists i. apply list_elem_of_here.
Qed.

Section RequestStreams.
Context `{Environment}.

(** Before the handler is called for the first time, the stream of the
    batch is live and owns every request id of the batch. *)
Lemma registerSse_owns t messages :
  well_formed t ->
  existsb isJSONRPCRequest messages = true ->
  truthy (randomUUID (uuidCalls t)) = true ->
  let '(t1, ref) := registerSse t messages in
  objects t !! ref = None /\
  well_formed t1 /\
  owns t1 ref (new_stream (randomUUID (uuidCalls t))
                          (list_to_set (requestIdsOf messages))).
Proof.
  intros [WS WP] Q U. unfold registerSse.
  destruct (registerPending_spec (randomUUID (uuidCalls t)) messages (tick_uuid t) ∅)
    as (index & -> & In & Out).
  cbn. replace (list_to_set (requestIdsOf messages) ∪ ∅)
    with (list_to_set (C := gset RequestId) (requestIdsOf messages)) by set_solver.
  split; [apply lookup_ge_None_2; lia|]. split; [split; cbn|split; cbn].
  - intros streamId ref.
    destruct (decide (randomUUID (uuidCalls t) = streamId)) as [<-|Ne].
    + rewrite lookup_insert_eq. intros [= <-]. eexists.
      split; [by apply list_lookup_middle|done].
    + rewrite lookup_insert_ne by done. intros E.
      destruct (WS _ _ E) as (st & E1 & I1). exists st. split; [|done].
      by apply lookup_app_l_Some.
  - done.
  - by apply list_lookup_middle.
  - done.
  - done.
  - apply lookup_insert_eq.
  - destruct (has_request_ids _ Q) as [r Hr]. intros Em.
    assert (r ∈ (∅ : gset RequestId)) as Abs by (rewrite <- Em; set_solver).
    by apply not_elem_of_empty in Abs.
  - intros r Hr. apply In. by apply elem_of_list_to_set in Hr.
Qed.

End RequestStreams.

(** ** Registration comes before dispatch *)

Lemma run_sends_app a b t :
  run_sends t (a ++ b) =
    let '(t1, os1) := run_sends t a in
    let '(t2, os2) := run_sends t1 b in
    (t2, os1 ++ os2).
Proof.
  revert t. induction a as [|[m related] rest IH]; intros t; cbn.
  - by destruct (run_sends t b).
  - destruct (send t m related) as [t1 o]. rewrite IH.
    destruct (run_sends t1 rest) as [t2 os]. by destruct (run_sends t2 b).
Qed.

(** [dispatch] runs the calls of the handler in the order of the batch. *)
Lemma dispatch_run_sends messages extra :
  forall t, dispatch t messages extra = run_sends t (handler_calls t messages extra).
Proof.
  induction messages as [|m rest IH]; intros t; unfold handler_calls in *; cbn.
  { by destruct (onmessage t). }
  destruct (onmessage t) as [handler|] eqn:M.
  - rewrite run_sends_app.
    pose proof (run_sends_same_session (handler m extra) t) as SS.
    destruct (run_sends t (handler m extra)) as [t1 os1]. cbn in SS.
    rewrite IH, (ss_onmessage _ _ SS), M. done.
  - rewrite IH, M. done.
Qed.

(** An event related to a pending id goes to the stream of that id. *)
Lemma send_progress_owned t ref st m r :
  _enableJsonResponse t = false -> owns t ref st -> r ∈ pendingIds st ->
  isReply m = false ->
  exists t1, send t m (Some r) = (t1, Sent) /\ owns t1 ref (enqueue m st).
Proof.
  intros J O In R. pose proof (owns_lookupStream _ _ _ _ O In) as L.
  destruct O as [E C T S Pn Ix]. eexists. split.
  { unfold send. by rewrite R, J, L, (writeSseEvent_open _ _ _ _ E C). }
  split; cbn; try done. apply list_lookup_insert_eq. by eapply lookup_lt_Some.
Qed.

Lemma run_sends_progress_owned ref r progress :
  forall t st,
    _enableJsonResponse t = false -> owns t ref st -> r ∈ pendingIds st ->
    Forall (fun c : SendCall => isReply c.1 = false /\ c.2 = Some r) progress ->
    exists st1,
      owns (run_sends t progress).1 ref st1 /\ pendingIds st1 = pendingIds st /\
      Forall (fun o => o = Sent) (run_sends t progress).2.
Proof.
  induction progress as [|[m related] rest IH]; intros t st J O In F; cbn.
  { exists st. split; [done|]. split; [done|constructor]. }
  apply Forall_cons in F as [[R Rel] F]. cbn in R, Rel. subst related.
  destruct (send_progress_owned t ref st m r J O In R) as (t1 & S & O1).
  pose proof (send_same_session t m (Some r)) as SS. rewrite S in SS |- *. cbn in SS.
  destruct (IH t1 (enqueue m st) (eq_trans (ss_json _ _ SS) J) O1 In F)
    as (st1 & O2 & P2 & F2).
  destruct (run_sends t1 rest) as [t2 os]. cbn in *.
  exists st1. split; [done|]. split; [done|]. by constructor.
Qed.

(** In SSE mode, when the request ids of the batch are distinct and the
    stream of the batch owns the ids that are still to be dispatched, a
    handler that replies synchronously has every call of [send] accepted. *)
Lemma dispatch_replies_accepted ref handler extra messages :
  forall t st,
    _enableJsonResponse t = false ->
    onmessage t = Some handler -> replies_synchronously handler ->
    NoDup (requestIdsOf messages) ->
    (requestIdsOf messages = [] \/
     (owns t ref st /\ pendingIds st = list_to_set (requestIdsOf messages))) ->
    Forall (fun o => o = Sent) (dispatch t messages extra).2.
Proof.
  induction messages as [|m rest IH]; intros t st J M RS ND Own; cbn; [done|].
  rewrite M. pose proof (RS m extra) as A. rewrite requestIdsOf_cons in ND, Own.
  destruct m as [r method params|method params|r result|r code message];
    try (rewrite A; cbn; specialize (IH t st J M RS ND Own);
         by destruct (dispatch t rest extra)).
  apply NoDup_cons in ND as [Nr ND].
  destruct Own as [Abs|[O P]]; [done|].
  destruct A as (progress & reply & related & -> & FP & R & I).
  assert (In : r ∈ pendingIds st) by (rewrite P; set_solver).
  rewrite run_sends_app.
  destruct (run_sends_progress_owned ref r progress t st J O In FP)
    as (st1 & O1 & P1 & F1).
  pose proof (run_sends_same_session progress t) as SS1.
  destruct (run_sends t progress) as [t1 os1]. cbn in O1, F1, SS1. cbn [run_sends].
  assert (J1 : _enableJsonResponse t1 = false) by (by rewrite (ss_json _ _ SS1)).
  assert (In1 : r ∈ pendingIds st1) by (by rewrite P1).
  destruct (send_reply_pending t1 ref st1 reply related r J1 O1 In1 R I)
    as (t2 & st2 & S & E2 & I2 & C2 & P2 & X2 & Live & Done).
  pose proof (send_same_session t1 reply related) as SS2.
  rewrite S in SS2 |- *. cbn in SS2.
  assert (Rest : pendingIds st2 = list_to_set (requestIdsOf rest)).
  { rewrite P2, P1, P. apply set_eq. intros x.
    rewrite elem_of_difference, elem_of_singleton, !elem_of_list_to_set, elem_of_cons.
    split; [by intros [[->|?] ?]|]. intros Hx. split; [by right|]. by intros ->. }
  assert (IHres : Forall (fun o => o = Sent) (dispatch t2 rest extra).2).
  { apply (IH t2 st2); try done.
    - by rewrite (ss_json _ _ SS2).
    - by rewrite (ss_onmessage _ _ SS2), (ss_onmessage _ _ SS1).
    - destruct (requestIdsOf rest) as [|r' ids] eqn:Ids; [by left|right].
      split; [|done]. apply Live. rewrite Rest. set_solver. }
  destruct (dispatch t2 rest extra) as [t3 os3]. cbn in *.
  apply Forall_app. split; [|done]. apply Forall_app. split; [done|]. by repeat constructor.
Qed.

(** In JSON mode [send] has no routing failure. *)
Lemma send_json_routed t m related :
  _enableJsonResponse t = true -> routed (send t m related).2.
Proof.
  intros J. unfold send. rewrite J.
  destruct (if isReply m then message_id m else related) as [r|].
  - by destruct (_pendingJsonResponses t !! r).
  - destruct (isReply m); [done|]. destruct (_standaloneStream t) as [ref|]; [|done].
    by destruct (writeSseEvent_cases t ref m) as [->|(st & _ & _ & ->)].
Qed.

Lemma run_sends_json_routed calls :
  forall t, _enableJsonResponse t = true -> Forall routed (run_sends t calls).2.
Proof.
  induction calls as [|[m related] rest IH]; intros t J; cbn; [done|].
  pose proof (send_json_routed t m related J) as R.
  pose proof (send_same_session t m related) as SS.
  destruct (send t m related) as [t1 o]. cbn in *.
  specialize (IH t1 (eq_trans (ss_json _ _ SS) J)).
  destruct (run_sends t1 rest) as [t2 os]. by constructor.
Qed.

Lemma dispatch_json_routed messages extra :
  forall t, _enableJsonResponse t = true -> Forall routed (dispatch t messages extra).2.
Proof.
  induction messages as [|m rest IH]; intros t J; cbn; [done|].
  assert (R : Forall routed
            (match onmessage t with
             | Some handler => run_sends t (handler m extra)
             | None => (t, [])
             end).2
          /\ _enableJsonResponse
               (match onmessage t with
                | Some handler => run_sends t (handler m extra)
                | None => (t, [])
                end).1 = true).
  { destruct (onmessage t) as [handler|]; [|done]. split.
    - by apply run_sends_json_routed.
    - by rewrite (ss_json _ _ (run_sends_same_session (handler m extra) t)). }
  destruct (match onmessage t with Some _ => _ | None => _ end) as [t1 os1].
  destruct R as [R J1]. specialize (IH t1 J1).
  destruct (dispatch t1 rest extra) as [t2 os2]. cbn in *. by apply Forall_app.
Qed.

(** The registrations of [collectJsonResponses]: the promises are new, and
    the pending map sends every id of the batch to the promise made for
    its last occurrence. *)
Lemma registerJson_spec ids :
  forall t,
  exists pending,
    registerJson t ids =
      (set_pendingJsonResponses pending
         (set_promises (promises t ++ replicate (length ids) None) t),
       seq (length (promises t)) (length ids)) /\
    (forall i r, ids !! i = Some r -> r ∉ drop (S i) ids ->
                 pending !! r = Some (length (promises t) + i)) /\
    (forall r p, pending !! r = Some p ->
                 (_pendingJsonResponses t !! r = Some p /\ r ∉ ids) \/
                 (exists i, p = length (promises t) + i /\ ids !! i = Some r /\
                            r ∉ drop (S i) ids)) /\
    (forall r, r ∉ ids -> pending !! r = _pendingJsonResponses t !! r).
Proof.
  induction ids as [|a rest IH]; intros t.
  { exists (_pendingJsonResponses t). cbn. rewrite app_nil_r.
    split; [by destruct t|]. split; [done|]. split; [|done].
    intros r p E. left. split; [done|apply not_elem_of_nil]. }
  cbn [registerJson].
  destruct (IH (set_pendingJsonResponses
                  (<[a:=length (promises t)]>
                     (_pendingJsonResponses (set_promises (promises t ++ [None]) t)))
                  (set_promises (promises t ++ [None]) t)))
    as (pending & -> & Last & Inv & Out).
  cbn in Last, Inv, Out. rewrite length_app in Last, Inv. cbn in Last, Inv.
  exists pending. split; [|split; [|split]].
  - cbn. rewrite length_app. cbn. rewrite Nat.add_1_r, <- app_assoc. done.
  - intros [|i] r E N; cbn in E, N.
    + injection E as ->. rewrite Out by done. rewrite Nat.add_0_r. apply lookup_insert_eq.
    + rewrite (Last i r E N). f_equal. lia.
  - intros r p E. destruct (Inv r p E) as [[E0 N]|(i & -> & Ei & Ni)].
    + destruct (decide (a = r)) as [->|Ne].
      * rewrite lookup_insert_eq in E0. injection E0 as <-. right. exists 0.
        split; [lia|]. by split.
      * rewrite lookup_insert_ne in E0 by done. left. split; [done|].
        apply not_elem_of_cons. by split.
    + right. exists (S i). split; [lia|]. by split.
  - intros r [Ne N]%not_elem_of_cons. rewrite Out by done. by rewrite lookup_insert_ne.
Qed.

Lemma elem_of_last_occurrence (ids : list RequestId) r :
  r ∈ ids -> exists i, ids !! i = Some r /\ r ∉ drop (S i) ids.
Proof.
  induction ids as [|a rest IH]; [by intros ?%elem_of_nil|].
  intros In. destruct (decide (r ∈ rest)) as [Hr|Hr].
  - destruct (IH Hr) as (i & E & N). by exists (S i).
  - apply elem_of_cons in In as [->|?]; [|done]. by exists 0.
Qed.

(** Before the handler is called for the first time in JSON mode, every
    request id of the batch has a pending promise. *)
Lemma registerJson_registered t ids :
  let '(t1, ps) := registerJson t ids in
  forall r, r ∈ ids ->
    exists p, _pendingJsonResponses t1 !! r = Some p /\ promises t1 !! p = Some None.
Proof.
  destruct (registerJson_spec ids t) as (pending & -> & Last & _ & _).
  intros r In. destruct (elem_of_last_occurrence _ _ In) as (i & E & N).
  exists (length (promises t) + i). cbn. split; [by apply Last|].
  rewrite lookup_app_r by lia.
  replace (length (promises t) + i - length (promises t)) with i by lia.
  apply lookup_replicate_2. by eapply lookup_lt_Some.
Qed.

(** In SSE mode an id that the reverse index does not hold has no
    connection. *)
Lemma send_unrouted t m related r :
  _enableJsonResponse t = false -> routing_id (m, related) = Some r ->
  _requestToStream t !! r = None ->
  send t m related = (t, ThrowNoConnection r).
Proof.
  intros J R N. unfold routing_id in R. cbn in R. unfold send.
  rewrite R, J. unfold lookupStream. by rewrite N.
Qed.

(** A call under a pending id of a live stream is accepted. *)
Lemma send_routed_owned t ref st m related r :
  _enableJsonResponse t = false -> owns t ref st ->
  routing_id (m, related) = Some r -> r ∈ pendingIds st ->
  (send t m related).2 = Sent.
Proof.
  intros J O R In. unfold routing_id in R. cbn in R.
  destruct (isReply m) eqn:Rm.
  - destruct (send_reply_pending t ref st m related r J O In Rm R) as (t1 & st1 & -> & _).
    done.
  - subst related. by destruct (send_progress_owned t ref st m r J O In Rm) as (t1 & -> & _).
Qed.

Lemma run_sends_middle before c after :
  forall t,
    (run_sends t (before ++ c :: after)).2 !! length before =
      Some (send (run_sends t before).1 c.1 c.2).2.
Proof.
  induction before as [|[m related] rest IH]; intros t; cbn.
  - destruct c as [m related]. cbn. destruct (send t m related) as [t1 o].
    by destruct (run_sends t1 after).
  - destruct (send t m related) as [t1 o]. specialize (IH t1).
    destruct (run_sends t1 (rest ++ c :: after)) as [t2 os].
    by destruct (run_sends t1 rest).
Qed.

(** The outcome of each call under a pending id of a live stream, in any
    sequence of calls of [send]: the call is accepted when no response or
    error for that id came before it, and has no connection otherwise. *)
Lemma run_sends_owned_outcome ref calls t st i c r :
  _enableJsonResponse t = false -> well_formed t -> owns t ref st ->
  calls !! i = Some c -> routing_id c = Some r -> r ∈ pendingIds st ->
  (run_sends t calls).2 !! i =
    Some (if bool_decide (r ∈ resolved_by (take i calls))
          then ThrowNoConnection r else Sent).
Proof.
  intros J W O E R In.
  assert (Li : length (take i calls) = i).
  { apply length_take_le. apply lookup_lt_Some in E. lia. }
  rewrite <- (take_drop_middle calls i c E) at 1.
  rewrite <- Li at 1. rewrite run_sends_middle. f_equal.
  destruct (run_sends_owned ref (take i calls) t st J W O)
    as (st' & E' & I' & P' & _ & X' & Live & _).
  pose proof (run_sends_same_session (take i calls) t) as SS.
  destruct (run_sends t (take i calls)) as [t1 os]. cbn in *.
  assert (J1 : _enableJsonResponse t1 = false) by (by rewrite (ss_json _ _ SS)).
  destruct c as [m related]. cbn. case_bool_decide as D.
  - by rewrite (send_unrouted t1 m related r J1 R (X' r In D)).
  - assert (In' : r ∈ pendingIds st').
    { rewrite P'. by apply elem_of_difference. }
    apply (send_routed_owned t1 ref st' m related r J1); [|done|done].
    apply Live. intros Em. rewrite Em in In'. by apply not_elem_of_empty in In'.
Qed.

Section Dispatch.
Context `{Environment}.

(** C2 (as amended).  For a batch with at least one request object the
    routing state is complete before the handler is called for the first
    time.  In SSE mode [createSseResponse] dispatches from the state that
    [registerSse] made, in which the stream is open and in the stream map
    and every request id of the batch is in its pending set and in the
    reverse index.  Of the calls of [send] that the handler makes during
    the dispatch, a call under a request id of the batch, a response or an
    error with that id or another message related to it, is accepted when
    no response or error with that id was sent before it during the
    dispatch, and ends in the routing failure otherwise.  So when the
    request ids of the batch are pairwise distinct, a handler that sends,
    for each request, events related to it and then, as its last call, the
    reply to it, and nothing for the other messages, has every call
    accepted.  In JSON mode [collectJsonResponses] dispatches from the
    state in which every request id of the batch has a pending promise, and
    no call of [send] made during dispatch ends in a routing failure. *)
Theorem registration_precedes_dispatch t messages extra :
  existsb isJSONRPCRequest messages = true ->
  (_enableJsonResponse t = false ->
   let '(t1, ref) := registerSse t messages in
   (createSseResponse t messages extra).1 = dispatch t1 messages extra /\
   (exists st,
       objects t1 !! ref = Some st /\ closed st = false /\
       _streams t1 !! stream_id st = Some ref /\
       forall r, r ∈ requestIdsOf messages ->
                 r ∈ pendingIds st /\ _requestToStream t1 !! r = Some (stream_id st)) /\
   (well_formed t -> truthy (randomUUID (uuidCalls t)) = true ->
    forall i c r,
      handler_calls t messages extra !! i = Some c ->
      routing_id c = Some r -> r ∈ requestIdsOf messages ->
      (dispatch t1 messages extra).2 !! i =
        Some (if bool_decide (r ∈ resolved_by (take i (handler_calls t messages extra)))
              then ThrowNoConnection r else Sent)) /\
   (forall handler,
       onmessage t = Some handler -> replies_synchronously handler ->
       truthy (randomUUID (uuidCalls t)) = true ->
       NoDup (requestIdsOf messages) ->
       Forall (fun o => o = Sent) (dispatch t1 messages extra).2)) /\
  (_enableJsonResponse t = true ->
   let '(t1, ps) := registerJson t (requestIdsOf messages) in
   (collectJsonResponses t messages extra).1 = dispatch t1 messages extra /\
   (forall r, r ∈ requestIdsOf messages ->
       exists p, _pendingJsonResponses t1 !! r = Some p /\ promises t1 !! p = Some None) /\
   Forall routed (dispatch t1 messages extra).2).
Proof.
  intros Q. split; intros J.
  - pose proof (registerSse_same_session t messages) as SS.
    assert (D : (createSseResponse t messages extra).1
                = dispatch (registerSse t messages).1 messages extra).
    { unfold createSseResponse. destruct (registerSse t messages) as [t1 ref]. cbn.
      by destruct (dispatch t1 messages extra). }
    assert (G : well_formed t -> truthy (randomUUID (uuidCalls t)) = true ->
                forall i c r,
                  handler_calls t messages extra !! i = Some c ->
                  routing_id c = Some r -> r ∈ requestIdsOf messages ->
                  (dispatch (registerSse t messages).1 messages extra).2 !! i =
                    Some (if bool_decide
                               (r ∈ resolved_by (take i (handler_calls t messages extra)))
                          then ThrowNoConnection r else Sent)).
    { intros W U i c r E R In.
      pose proof (registerSse_owns t messages W Q U) as Own.
      destruct (registerSse t messages) as [t1 ref]. cbn in SS |- *.
      destruct Own as (_ & W1 & O).
      assert (HC : handler_calls t1 messages extra = handler_calls t messages extra).
      { unfold handler_calls. by rewrite (ss_onmessage _ _ SS). }
      rewrite dispatch_run_sends, HC.
      eapply (run_sends_owned_outcome ref);
        [by rewrite (ss_json _ _ SS)|exact W1|exact O|exact E|exact R|].
      cbn. by apply elem_of_list_to_set. }
    unfold registerSse in *.
    destruct (registerPending_spec (randomUUID (uuidCalls t)) messages (tick_uuid t) ∅)
      as (index & E & In & Out).
    rewrite E in *. cbn in *. split; [done|]. split; [|split; [exact G|]].
    + eexists. split; [by apply list_lookup_middle|]. cbn. split; [done|].
      split; [apply lookup_insert_eq|]. intros r Hr. split; [|by apply In].
      apply elem_of_union. left. by apply elem_of_list_to_set.
    + intros handler M RS U ND.
      eapply (dispatch_replies_accepted (length (objects t)) handler extra messages _
                (new_stream (randomUUID (uuidCalls t))
                            (list_to_set (requestIdsOf messages) ∪ ∅))); try done.
      right. split; [|cbn; set_solver]. split; cbn; try done.
      * by apply list_lookup_middle.
      * apply lookup_insert_eq.
      * destruct (has_request_ids _ Q) as [r Hr]. intros Em.
        eapply (not_elem_of_empty (C := gset RequestId) r). rewrite <- Em.
        apply elem_of_union. left. by apply elem_of_list_to_set.
      * intros r [Hr|Hr]%elem_of_union; [|by apply not_elem_of_empty in Hr].
        apply In. by apply elem_of_list_to_set in Hr.
  - pose proof (registerJson_registered t (requestIdsOf messages)) as R.
    pose proof (registerJson_same_session (requestIdsOf messages) t) as SS.
    unfold collectJsonResponses.
    destruct (registerJson t (requestIdsOf messages)) as [t1 ps]. cbn in SS.
    split; [by destruct (dispatch t1 messages extra)|]. split; [done|].
    apply dispatch_json_routed. by rewrite (ss_json _ _ SS).
Qed.

End Dispatch.

(** ** The response of the JSON mode *)

Lemma send_json t m related :
  _enableJsonResponse t = true ->
  match routing_id (m, related) with
  | Some r =>
      send t m related =
        match _pendingJsonResponses t !! r with
        | Some p =>
            (set_pendingJsonResponses (delete r (_pendingJsonResponses t))
               (set_promises (resolve_promise p m (promises t)) t), Sent)
        | None => (t, Sent)
        end
  | None =>
      promises (send t m related).1 = promises t /\
      _pendingJsonResponses (send t m related).1 = _pendingJsonResponses t
  end.
Proof.
  intros J. unfold send, routing_id. cbn. rewrite J.
  destruct (if isReply m then message_id m else related) as [r|]; [done|].
  destruct (isReply m); [done|]. destruct (_standaloneStream t) as [ref|]; [|done].
  by destruct (writeSseEvent_cases t ref m) as [->|(st & _ & _ & ->)].
Qed.

(** A promise that is waiting for [r] takes the first message sent under
    [r] and is untouched by the others. *)
Lemma send_waiting t m related r p :
  _enableJsonResponse t = true -> waiting t r p ->
  if bool_decide (routing_id (m, related) = Some r)
  then promises (send t m related).1 !! p = Some (Some m)
  else waiting (send t m related).1 r p.
Proof.
  intros J (E & V & U). pose proof (send_json t m related J) as S.
  case_bool_decide as D.
  - rewrite D in S. rewrite S, E. cbn. unfold resolve_promise.
    by rewrite list_lookup_alter_eq, V.
  - destruct (routing_id (m, related)) as [r'|].
    + assert (Ne : r' <> r) by congruence. rewrite S.
      destruct (_pendingJsonResponses t !! r') as [p'|] eqn:E'; [|done].
      assert (Np : p' <> p) by (intros ->; by apply Ne, U).
      split; [|split]; cbn.
      * by rewrite lookup_delete_ne.
      * unfold resolve_promise. by rewrite list_lookup_alter_ne.
      * intros r0 E0. apply lookup_delete_Some in E0 as [_ E0]. by apply U.
    + destruct S as [Sp Sq]. unfold waiting. by rewrite Sp, Sq.
Qed.

Lemma send_settled t m related p v :
  promises t !! p = Some (Some v) -> promises (send t m related).1 !! p = Some (Some v).
Proof.
  intros V.
  destruct (send_has_effect t m related) as [|ref st _ _|ref st r' E1 _ _ _ _|r' p' _]; cbn; try done.
  - unfold resolveOnStream. cbn. destruct (alter _ ref _ !! ref) as [st0|]; [|done].
    by destruct (bool_decide _).
  - unfold resolve_promise. destruct (decide (p' = p)) as [->|Ne].
    + by rewrite list_lookup_alter_eq, V.
    + by rewrite list_lookup_alter_ne.
Qed.

Lemma send_unreachable t m related p :
  unreachable t p -> unreachable (send t m related).1 p.
Proof.
  intros [V U].
  destruct (send_effect_monotone _ _ _ (send_has_effect t m related))
    as (_ & _ & _ & Sub & _).
  split; [|intros r E; by eapply U, Sub].
  destruct (send_has_effect t m related) as [|ref st _ _|ref st r' E1 _ _ _ _|r' p' P']; cbn; try done.
  - unfold resolveOnStream. cbn. destruct (alter _ ref _ !! ref) as [st0|]; [|done].
    by destruct (bool_decide _).
  - unfold resolve_promise. rewrite list_lookup_alter_ne; [done|].
    intros ->. by eapply U.
Qed.

Lemma run_sends_settled calls :
  forall t p v, promises t !! p = Some (Some v) ->
                promises (run_sends t calls).1 !! p = Some (Some v).
Proof.
  induction calls as [|[m related] rest IH]; intros t p v V; cbn; [done|].
  pose proof (send_settled t m related p v V) as V1.
  destruct (send t m related) as [t1 o]. specialize (IH t1 p v V1).
  by destruct (run_sends t1 rest).
Qed.

Lemma run_sends_unreachable calls :
  forall t p, unreachable t p -> promises (run_sends t calls).1 !! p = Some None.
Proof.
  induction calls as [|[m related] rest IH]; intros t p U; cbn; [by destruct U|].
  pose proof (send_unreachable t m related p U) as U1.
  destruct (send t m related) as [t1 o]. specialize (IH t1 p U1).
  by destruct (run_sends t1 rest).
Qed.

Lemma run_sends_waiting calls :
  forall t r p,
    _enableJsonResponse t = true -> waiting t r p ->
    promises (run_sends t calls).1 !! p = Some (first_routed r calls).
Proof.
  induction calls as [|[m related] rest IH]; intros t r p J Wt; cbn [run_sends first_routed].
  { by destruct Wt as (_ & V & _). }
  pose proof (send_waiting t m related r p J Wt) as S.
  pose proof (send_same_session t m related) as SS.
  destruct (bool_decide (routing_id (m, related) = Some r)).
  - pose proof (run_sends_settled rest _ p m S) as V.
    destruct (send t m related) as [t1 o]. cbn in *. by destruct (run_sends t1 rest).
  - destruct (send t m related) as [t1 o]. cbn in *.
    specialize (IH t1 r p (eq_trans (ss_json _ _ SS) J) S).
    by destruct (run_sends t1 rest).
Qed.

(** The value of each promise of a batch after any calls of [send]: the
    promise of an id that occurs again later in the batch stays pending,
    the promise of any other id holds the first message sent under it. *)
Lemma batch_promises t ids calls :
  _enableJsonResponse t = true -> well_formed t ->
  let '(t1, ps) := registerJson t ids in
  ps = seq (length (promises t)) (length ids) /\
  forall i r, ids !! i = Some r ->
    promises (run_sends t1 calls).1 !! (length (promises t) + i) =
      Some (if bool_decide (r ∈ drop (S i) ids) then None else first_routed r calls).
Proof.
  intros J [_ WP].
  destruct (registerJson_spec ids t) as (pending & -> & Last & Inv & _).
  split; [done|]. intros i r E.
  assert (V : (promises t ++ replicate (length ids) None) !! (length (promises t) + i)
              = Some None).
  { rewrite lookup_app_r by lia.
    replace (length (promises t) + i - length (promises t)) with i by lia.
    apply lookup_replicate_2. by eapply lookup_lt_Some. }
  case_bool_decide as D.
  - apply run_sends_unreachable. split; [done|]. cbn. intros r' E'.
    destruct (Inv r' _ E') as [[E0 _]|(j & Ej & Ij & Nj)].
    + apply WP in E0. lia.
    + assert (j = i) as -> by lia. congruence.
  - apply run_sends_waiting; [done|]. split; [by apply Last|]. split; [done|].
    cbn. intros r' E'. destruct (Inv r' _ E') as [[E0 _]|(j & Ej & Ij & Nj)].
    + apply WP in E0. lia.
    + assert (j = i) as -> by lia. congruence.
Qed.

Lemma NoDup_lookup_drop (ids : list RequestId) i r :
  NoDup ids -> ids !! i = Some r -> r ∉ drop (S i) ids.
Proof.
  intros ND E. rewrite <- (take_drop_middle _ _ _ E) in ND.
  apply NoDup_app in ND as (_ & _ & ND). by apply NoDup_cons in ND as [? _].
Qed.

(** The response of a batch in JSON mode, after [collectJsonResponses] has
    registered its promises and dispatched it and after any further calls
    of [send].  When the awaited promises are all resolved, the responses
    are as many as the request objects, the i-th response is the first
    message sent under the id of the i-th request, and the body is that one
    message when there is one request and the array of the responses when
    there are more.  The promises are all resolved as soon as a message has
    been sent under every request id, provided the ids are pairwise
    distinct. *)
Lemma json_batch_await t messages extra calls :
  _enableJsonResponse t = true -> well_formed t ->
  let ids := requestIdsOf messages in
  let '(t1, _, ps) := collectJsonResponses t messages extra in
  let t2 := (run_sends t1 calls).1 in
  let sent := handler_calls t messages extra ++ calls in
  (forall responses,
      awaitAll t2 ps = Some responses ->
      length responses = length ids /\
      Forall2 (fun r m => first_routed r sent = Some m) ids responses /\
      resumeJsonResponse t2 ps = Some (jsonResponse t2 (payloadOf responses)) /\
      (length ids = 1 -> exists m, responses = [m] /\ payloadOf responses = PayloadObject m) /\
      (1 < length ids -> payloadOf responses = PayloadArray responses)) /\
  (NoDup ids -> (forall r, r ∈ ids -> is_Some (first_routed r sent)) ->
   is_Some (awaitAll t2 ps)).
Proof.
  intros J W ids. unfold collectJsonResponses.
  pose proof (batch_promises t ids (handler_calls t messages extra ++ calls) J W) as B.
  pose proof (registerJson_same_session ids t) as SS. fold ids.
  destruct (registerJson t ids) as [t0 ps]. destruct B as [-> B]. cbn in SS.
  rewrite dispatch_run_sends. unfold handler_calls at 1. rewrite (ss_onmessage _ _ SS).
  fold (handler_calls t messages extra).
  rewrite run_sends_app in B.
  destruct (run_sends t0 (handler_calls t messages extra)) as [t1 os].
  destruct (run_sends t1 calls) as [t2 os2]. cbn in *.
  assert (Val : forall i r, ids !! i = Some r ->
            mjoin (promises t2 !! (length (promises t) + i)) =
              if bool_decide (r ∈ drop (S i) ids) then None
              else first_routed r (handler_calls t messages extra ++ calls)).
  { intros i r E. rewrite (B i r E). cbn. by destruct (bool_decide _). }
  split.
  - intros responses A. unfold awaitAll in A. apply mapM_Some in A.
    pose proof (Forall2_length _ _ _ A) as Len. rewrite length_seq in Len.
    split; [done|]. split.
    + apply Forall2_same_length_lookup. split; [done|]. intros i r m E Em.
      assert (Hi : i < length ids) by (by eapply lookup_lt_Some).
      pose proof (Forall2_lookup_lr _ _ _ _ _ _ A (lookup_seq_lt _ _ _ Hi) Em) as V.
      cbn in V. rewrite (Val i r E) in V. by destruct (bool_decide _).
    + split.
      { unfold resumeJsonResponse, awaitAll. by rewrite (proj2 (mapM_Some _ _ _) A). }
      split.
      * intros One. rewrite One in Len.
        destruct responses as [|m [|]]; try done. by exists m.
      * intros Many. rewrite Len in Many. destruct responses as [|m [|]]; cbn in *; (done || lia).
  - intros ND All. unfold awaitAll. apply mapM_is_Some, Forall_seq.
    intros p Hp. cbn.
    destruct (lookup_lt_is_Some_2 ids (p - length (promises t)) ltac:(lia)) as [r E].
    replace p with (length (promises t) + (p - length (promises t))) by lia.
    rewrite (Val _ r E), bool_decide_false by (by eapply NoDup_lookup_drop).
    apply All. by eapply list_elem_of_lookup_2.
Qed.

(** ** Every transport is well formed *)

Lemma constructor_well_formed options : well_formed (constructor options).
Proof. split; cbn; intros ? ?; by rewrite lookup_empty. Qed.

Lemma connect_well_formed handler t : well_formed t -> well_formed (connect handler t).
Proof. intros [WS WP]. by split. Qed.

(** ** Every operation keeps the transport well formed *)

Lemma well_formed_frame t t' :
  same_ids (objects t) (objects t') ->
  (forall streamId ref, _streams t' !! streamId = Some ref ->
                        _streams t !! streamId = Some ref) ->
  (forall r p, _pendingJsonResponses t' !! r = Some p ->
               _pendingJsonResponses t !! r = Some p) ->
  length (promises t) <= length (promises t') ->
  well_formed t -> well_formed t'.
Proof.
  intros O S P L [WS WP]. split.
  - intros streamId ref E. destruct (WS _ _ (S _ _ E)) as (st & E1 & I1).
    destruct (O _ _ E1) as (st' & E2 & I2). exists st'. split; [done|congruence].
  - intros r p E. apply P, WP in E. lia.
Qed.

Lemma same_ids_app objs more : same_ids objs (objs ++ more).
Proof. intros ref st E. exists st. split; [by apply lookup_app_l_Some|done]. Qed.

Lemma session_only_refl t : session_only t t.
Proof. by split. Qed.

Lemma session_only_well_formed t t' :
  session_only t t' -> well_formed t -> well_formed t'.
Proof.
  intros [_ _ S _ P _ O Q _]. apply well_formed_frame.
  - rewrite O. apply same_ids_refl.
  - by rewrite S.
  - by rewrite P.
  - by rewrite Q.
Qed.

Lemma close_well_formed t : well_formed t -> well_formed (close t).
Proof.
  intros _. destruct (close_effects t) as (_ & S & _ & P & _).
  split; intros ? ?; by rewrite ?S, ?P, lookup_empty.
Qed.

Lemma cancelStandalone_well_formed t ref :
  well_formed t -> well_formed (cancelStandalone t ref).
Proof. apply well_formed_frame; cbn; try done. by apply same_ids_alter. Qed.

Lemma cancelRequestStream_well_formed t ref :
  well_formed t -> well_formed (cancelRequestStream t ref).
Proof.
  unfold cancelRequestStream. destruct (objects t !! ref) as [st|]; [|done].
  apply well_formed_frame; cbn; try done.
  - by apply same_ids_alter.
  - intros streamId ref' E. by apply lookup_delete_Some in E as [_ E].
Qed.

Lemma registerJson_well_formed ids t :
  well_formed t -> well_formed (registerJson t ids).1.
Proof.
  intros [WS WP]. destruct (registerJson_spec ids t) as (pending & -> & _ & Inv & _).
  split; cbn; [done|]. intros r p E. rewrite length_app, length_replicate.
  destruct (Inv r p E) as [[E0 _]|(i & -> & Ei & _)].
  - apply WP in E0. lia.
  - apply lookup_lt_Some in Ei. lia.
Qed.

Lemma dispatch_well_formed messages extra t :
  well_formed t -> well_formed (dispatch t messages extra).1.
Proof. rewrite dispatch_run_sends. apply run_sends_well_formed. Qed.

Section WellFormedOperations.
Context `{Environment}.

Lemma registerSse_well_formed t messages :
  well_formed t -> well_formed (registerSse t messages).1.
Proof.
  intros [WS WP]. unfold registerSse.
  destruct (registerPending_spec (randomUUID (uuidCalls t)) messages (tick_uuid t) ∅)
    as (index & -> & _ & _).
  split; cbn; [|done]. intros streamId ref.
  destruct (decide (randomUUID (uuidCalls t) = streamId)) as [<-|Ne].
  - rewrite lookup_insert_eq. intros [= <-]. eexists.
    split; [by apply list_lookup_middle|done].
  - rewrite lookup_insert_ne by done. intros E.
    destruct (WS _ _ E) as (st & E1 & I1). exists st. split; [|done].
    by apply lookup_app_l_Some.
Qed.

Lemma handleGetRequest_well_formed t :
  well_formed t -> well_formed (handleGetRequest t).1.
Proof.
  unfold handleGetRequest. destruct (_standaloneStream t); [done|].
  apply well_formed_frame; cbn; try done. apply same_ids_app.
Qed.

Lemma handleDeleteRequest_session_only t request :
  session_only t (handleDeleteRequest t request).1.
Proof.
  unfold handleDeleteRequest. destruct (sessionIdGenerator t); [|by split].
  destruct (hdr_mcp_session_id request) as [h|]; [|by split].
  destruct (negb (truthy h)); [by split|]. destruct (bool_decide _); by split.
Qed.

(** [handlePostRequest] answers at once and changes nothing but the error
    counter, or it passes the session check, which writes session fields
    only, and delivers the batch. *)
Lemma handlePostRequest_cases t request auth :
  (exists t1 r, session_only t t1 /\ handlePostRequest t request auth = (t1, [], Respond r)) \/
  (exists messages t1,
      parseMessages (req_body request) = Some messages /\ session_only t t1 /\
      handlePostRequest t request auth =
        let extra := {| authInfo := auth; requestInfo := request |} in
        if negb (existsb isJSONRPCRequest messages) then
          let '(t2, os) := dispatch t1 messages extra in
          (t2, os, Respond {| status := 202; headers := []; body := BodyNull |})
        else if _enableJsonResponse t1 then
          let '(t2, os, ps) := collectJsonResponses t1 messages extra in
          (t2, os, AwaitJson ps)
        else
          let '(t2, os, r) := createSseResponse t1 messages extra in
          (t2, os, Respond r)).
Proof.
  unfold handlePostRequest.
  destruct (_ || _); [left; eexists _, _; split; [apply session_only_refl|done]|].
  destruct (negb _); [left; eexists _, _; split; [apply session_only_refl|done]|].
  destruct (parseMessages (req_body request)) as [messages|] eqn:P.
  2:{ left. eexists _, _. split; [|done]. unfold reportError.
      destruct (onerror t); by split. }
  match goal with
  | |- context [match ?c with inl _ => _ | inr _ => _ end] =>
      destruct c as [t1|r] eqn:C
  end.
  2:{ left. eexists _, _. split; [apply session_only_refl|done]. }
  right. exists messages, t1. split; [done|]. split; [|done].
  destruct (existsb isInitializeRequest messages).
  - destruct (_ && _); [done|]. destruct (bool_decide _); [done|].
    injection C as <-. destruct (sessionIdGenerator t); by split.
  - destruct (match sessionIdGenerator t with Some _ => _ | None => _ end); [done|].
    destruct (validateProtocolVersion request); [done|]. injection C as <-. by split.
Qed.

Lemma handlePostRequest_well_formed t request auth :
  well_formed t -> well_formed (handlePostRequest t request auth).1.1.
Proof.
  intros W.
  destruct (handlePostRequest_cases t request auth)
    as [(t1 & r & SO & ->)|(messages & t1 & _ & SO & ->)];
    pose proof (session_only_well_formed _ _ SO W) as W1; [done|]. cbn.
  destruct (negb _).
  - pose proof (dispatch_well_formed messages
                  {| authInfo := auth; requestInfo := request |} t1 W1) as D.
    by destruct (dispatch t1 messages _).
  - destruct (_enableJsonResponse t1).
    + unfold collectJsonResponses.
      pose proof (registerJson_well_formed (requestIdsOf messages) t1 W1) as R.
      destruct (registerJson t1 (requestIdsOf messages)) as [t2 ps].
      pose proof (dispatch_well_formed messages
                    {| authInfo := auth; requestInfo := request |} t2 R) as D.
      by destruct (dispatch t2 messages _).
    + unfold createSseResponse.
      pose proof (registerSse_well_formed t1 messages W1) as R.
      destruct (registerSse t1 messages) as [t2 ref].
      pose proof (dispatch_well_formed messages
                    {| authInfo := auth; requestInfo := request |} t2 R) as D.
      by destruct (dispatch t2 messages _).
Qed.

Lemma run_op_well_formed t op : well_formed t -> well_formed (run_op t op).
Proof.
  intros W. destruct op as [request auth|m related| |ref|ref]; cbn.
  - unfold handleRequest. destruct (validateRequestHeaders t request); [done|].
    destruct (bool_decide (_ = "GET")).
    { pose proof (handleGetRequest_well_formed t W). by destruct (handleGetRequest t). }
    destruct (bool_decide (_ = "POST")); [by apply handlePostRequest_well_formed|].
    destruct (bool_decide (_ = "DELETE")); [|done].
    pose proof (session_only_well_formed _ _ (handleDeleteRequest_session_only t request) W).
    by destruct (handleDeleteRequest t request).
  - by apply send_well_formed.
  - by apply close_well_formed.
  - by apply cancelStandalone_well_formed.
  - by apply cancelRequestStream_well_formed.
Qed.

Lemma run_ops_well_formed ops :
  forall t, well_formed t -> well_formed (run_ops t ops).
Proof.
  induction ops as [|op rest IH]; intros t W; [done|].
  cbn. apply IH. by apply run_op_well_formed.
Qed.

(** Every transport that the constructor, [connect] and the operations
    produce is well formed. *)
Lemma reachable_well_formed options handler ops :
  well_formed (run_ops (connect handler (constructor options)) ops).
Proof.
  apply run_ops_well_formed, connect_well_formed, constructor_well_formed.
Qed.

End WellFormedOperations.

(** ** Operations that leave a request-bound stream alone *)

Lemma tracked_frame t t' ref streamId batch st :
  tracked t ref streamId batch st ->
  objects t' !! ref = Some st ->
  _streams t' !! streamId = _streams t !! streamId ->
  (forall r, r ∈ pendingIds st -> _requestToStream t' !! r = _requestToStream t !! r) ->
  tracked t' ref streamId batch st.
Proof.
  intros [O I P R L D] O' S' X'. split; try done.
  - intros Ne. destruct (L Ne) as [_ C T S _ X]. split; try done.
    + by rewrite I, S', <- I.
    + intros r In. rewrite X' by done. by apply X.
  - intros Em. destruct (D Em) as [C S]. split; [done|]. by rewrite S'.
Qed.

Lemma session_only_tracked t t' ref streamId batch st :
  session_only t t' -> tracked t ref streamId batch st ->
  tracked t' ref streamId batch st.
Proof.
  intros [_ _ S X _ _ O _ _] T. eapply tracked_frame; [done| | |].
  - rewrite O. apply (tracked_object _ _ _ _ _ T).
  - by rewrite S.
  - intros r _. by rewrite X.
Qed.

Lemma close_controller_closed st : closed st = true -> close_controller st = st.
Proof. destruct st. cbn. by intros ->. Qed.

(** One call of [send] keeps the stream of a batch on its track. *)
Lemma send_tracked t ref streamId batch st m related :
  _enableJsonResponse t = false -> well_formed t ->
  tracked t ref streamId batch st ->
  exists st', tracked (send t m related).1 ref streamId batch st'.
Proof.
  intros J W T. destruct (decide (pendingIds st = ∅)) as [Em|Ne].
  - exists st. destruct T as [O I P R L D]. destruct (D Em) as [C S].
    destruct (send_effect_monotone _ _ _ (send_has_effect t m related))
      as (_ & Sub & _).
    split; try done.
    + by apply send_closed_frozen.
    + intros _. split; [done|].
      destruct (_streams (send t m related).1 !! streamId) as [ref'|] eqn:E; [|done].
      rewrite (Sub _ _ E) in S. done.
  - destruct T as [O I P R L D]. specialize (L Ne).
    destruct (resolved_id (m, related)) as [r|] eqn:RI.
    + destruct (decide (r ∈ pendingIds st)) as [In|NIn].
      * assert (isReply m = true /\ message_id m = Some r) as [Rm Im].
        { unfold resolved_id in RI. cbn in RI. by destruct (isReply m). }
        destruct (send_reply_pending t ref st m related r J L In Rm Im)
          as (t1 & st1 & S & E1 & I1 & C1 & P1 & X1 & Live & Done).
        rewrite S. cbn. exists st1. split; try done.
        -- congruence.
        -- rewrite P1. intros x [Hx _]%elem_of_difference. by apply P.
        -- intros r' Hb Hn. destruct (decide (r' = r)) as [->|Nr].
           ++ exists m. rewrite C1. split; [|done].
              apply elem_of_app. right. apply list_elem_of_here.
           ++ destruct (R r' Hb) as (m' & Hm & Rm' & Im').
              { intros Hp. apply Hn. rewrite P1. apply elem_of_difference.
                split; [done|]. by rewrite elem_of_singleton. }
              exists m'. rewrite C1. split; [|done]. apply elem_of_app. by left.
        -- intros Em. rewrite <- I, <- I1. rewrite I1. by apply Done.
      * destruct (send_other_owned t ref st m related W L)
          as (st1 & O1 & P1 & I1 & extra & C1).
        { intros r0 Eq. rewrite RI in Eq. by injection Eq as <-. }
        exists st1. split; try done.
        -- apply O1.
        -- congruence.
        -- by rewrite P1.
        -- rewrite P1. intros r' Hb Hn. destruct (R r' Hb Hn) as (m' & Hm & Rm' & Im').
           exists m'. rewrite C1. split; [|done]. apply elem_of_app. by left.
        -- rewrite P1. intros Em. done.
    + destruct (send_other_owned t ref st m related W L)
        as (st1 & O1 & P1 & I1 & extra & C1).
      { intros r0 Eq. by rewrite RI in Eq. }
      exists st1. split; try done.
      * apply O1.
      * congruence.
      * by rewrite P1.
      * rewrite P1. intros r' Hb Hn. destruct (R r' Hb Hn) as (m' & Hm & Rm' & Im').
        exists m'. rewrite C1. split; [|done]. apply elem_of_app. by left.
      * rewrite P1. intros Em. done.
Qed.

Lemma run_sends_tracked ref streamId batch calls :
  forall t st,
    _enableJsonResponse t = false -> well_formed t ->
    tracked t ref streamId batch st ->
    exists st', tracked (run_sends t calls).1 ref streamId batch st'.
Proof.
  induction calls as [|[m related] rest IH]; intros t st J W T; cbn; [by exists st|].
  destruct (send_tracked t ref streamId batch st m related J W T) as [st1 T1].
  pose proof (send_same_session t m related) as SS.
  pose proof (send_well_formed t m related W) as W1.
  destruct (send t m related) as [t1 o]. cbn in *.
  destruct (IH t1 st1 (eq_trans (ss_json _ _ SS) J) W1 T1) as [st2 T2].
  destruct (run_sends t1 rest) as [t2 os]. by exists st2.
Qed.

Lemma delete_all_lookup_ne ids (index : gmap RequestId string) r :
  r ∉ ids -> delete_all ids index !! r = index !! r.
Proof.
  induction ids as [|i rest IH]; [done|]. intros [Ne N]%not_elem_of_cons. cbn.
  rewrite lookup_delete_ne by done. by apply IH.
Qed.

Lemma send_uuidCalls t m related : uuidCalls (send t m related).1 = uuidCalls t.
Proof.
  destruct (send_has_effect t m related) as [|ref st _ _|ref st r _ _ _ _ _|r p _];
    cbn; try done.
  unfold resolveOnStream. cbn. destruct (alter _ ref _ !! ref) as [st0|]; [|done].
  by destruct (bool_decide _).
Qed.

Lemma run_sends_uuidCalls calls :
  forall t, uuidCalls (run_sends t calls).1 = uuidCalls t.
Proof.
  induction calls as [|[m related] rest IH]; intros t; cbn; [done|].
  pose proof (send_uuidCalls t m related) as S.
  destruct (send t m related) as [t1 o]. specialize (IH t1).
  destruct (run_sends t1 rest). cbn in *. congruence.
Qed.

Section LeftAlone.
Context `{Environment}.

Lemma registerSse_tracked t messages ref streamId batch st :
  tracked t ref streamId batch st ->
  randomUUID (uuidCalls t) <> streamId ->
  (forall r, r ∈ requestIdsOf messages -> r ∉ pendingIds st) ->
  tracked (registerSse t messages).1 ref streamId batch st.
Proof.
  intros T Ne Dis. unfold registerSse.
  destruct (registerPending_spec (randomUUID (uuidCalls t)) messages (tick_uuid t) ∅)
    as (index & -> & _ & Out).
  eapply tracked_frame; [done| | |]; cbn.
  - apply lookup_app_l_Some, (tracked_object _ _ _ _ _ T).
  - by rewrite lookup_insert_ne.
  - intros r In. apply Out. intros Hr. by eapply Dis.
Qed.

Lemma registerSse_uuidCalls t messages :
  uuidCalls (registerSse t messages).1 = S (uuidCalls t).
Proof.
  unfold registerSse.
  by destruct (registerPending_spec (randomUUID (uuidCalls t)) messages (tick_uuid t) ∅)
    as (index & -> & _ & _).
Qed.

Lemma dispatch_tracked ref streamId batch messages extra t st :
  _enableJsonResponse t = false -> well_formed t ->
  tracked t ref streamId batch st ->
  exists st', tracked (dispatch t messages extra).1 ref streamId batch st'.
Proof. rewrite dispatch_run_sends. apply run_sends_tracked. Qed.

Lemma dispatch_uuidCalls messages extra t :
  uuidCalls (dispatch t messages extra).1 = uuidCalls t.
Proof. rewrite dispatch_run_sends. apply run_sends_uuidCalls. Qed.

(** The stream ids are the values of [randomUUID] at the calls made so
    far; the stream of the batch got the one of call [n]. *)
Lemma handlePostRequest_tracked t request auth ref n batch st :
  (forall a b, randomUUID a = randomUUID b -> a = b) ->
  _enableJsonResponse t = false -> well_formed t -> n < uuidCalls t ->
  tracked t ref (randomUUID n) batch st ->
  leaves_alone t ref (OpRequest request auth) ->
  (exists st', tracked (handlePostRequest t request auth).1.1 ref (randomUUID n) batch st')
  /\ n < uuidCalls (handlePostRequest t request auth).1.1.
Proof.
  intros Inj J W Lt T LA. pose proof (LA st (tracked_object _ _ _ _ _ T)) as Dis.
  destruct (handlePostRequest_cases t request auth)
    as [(t1 & r & SO & ->)|(messages & t1 & P & SO & ->)];
    pose proof (session_only_well_formed _ _ SO W) as W1;
    pose proof (session_only_tracked _ _ _ _ _ _ SO T) as T1;
    pose proof (so_uuidCalls _ _ SO) as U1.
  { split; [by exists st|]. cbn. lia. }
  assert (J1 : _enableJsonResponse t1 = false) by (by rewrite (so_json _ _ SO)).
  cbn. rewrite J1. destruct (negb _).
  - destruct (dispatch_tracked ref (randomUUID n) batch messages
                {| authInfo := auth; requestInfo := request |} t1 st J1 W1 T1) as [st' T'].
    pose proof (dispatch_uuidCalls messages
                  {| authInfo := auth; requestInfo := request |} t1) as D.
    destruct (dispatch t1 messages _). cbn in *. split; [by exists st'|lia].
  - unfold createSseResponse.
    pose proof (registerSse_tracked t1 messages ref (randomUUID n) batch st T1) as R.
    assert (NeId : randomUUID (uuidCalls t1) <> randomUUID n).
    { intros Eq. apply Inj in Eq. lia. }
    specialize (R NeId (Dis _ P)).
    pose proof (registerSse_well_formed t1 messages W1) as W2.
    pose proof (registerSse_same_session t1 messages) as SS.
    pose proof (registerSse_uuidCalls t1 messages) as U2.
    destruct (registerSse t1 messages) as [t2 ref2]. cbn in *.
    destruct (dispatch_tracked ref (randomUUID n) batch messages
                {| authInfo := auth; requestInfo := request |} t2 st
                (eq_trans (ss_json _ _ SS) J1) W2 R) as [st' T'].
    pose proof (dispatch_uuidCalls messages
                  {| authInfo := auth; requestInfo := request |} t2) as D.
    destruct (dispatch t2 messages _). cbn in *. split; [by exists st'|lia].
Qed.

Lemma run_op_tracked t op ref n batch st :
  (forall a b, randomUUID a = randomUUID b -> a = b) ->
  _enableJsonResponse t = false -> well_formed t -> n < uuidCalls t ->
  tracked t ref (randomUUID n) batch st -> leaves_alone t ref op ->
  (exists st', tracked (run_op t op) ref (randomUUID n) batch st')
  /\ n < uuidCalls (run_op t op).
Proof.
  intros Inj J W Lt T LA. pose proof (LA st (tracked_object _ _ _ _ _ T)) as C.
  destruct op as [request auth|m related| |ref'|ref']; cbn.
  - unfold handleRequest. destruct (validateRequestHeaders t request); [by split; [exists st|]|].
    destruct (bool_decide (_ = "GET")).
    { unfold handleGetRequest.
      destruct (_standaloneStream t); [by split; [exists st|]|]. cbn.
      split; [exists st|lia].
      eapply tracked_frame; [done| | |]; cbn; try done.
      apply lookup_app_l_Some, (tracked_object _ _ _ _ _ T). }
    destruct (bool_decide (_ = "POST")); [by eapply handlePostRequest_tracked|].
    destruct (bool_decide (_ = "DELETE")); [|by split; [exists st|]].
    pose proof (session_only_tracked _ _ _ _ _ _
                  (handleDeleteRequest_session_only t request) T).
    pose proof (so_uuidCalls _ _ (handleDeleteRequest_session_only t request)).
    destruct (handleDeleteRequest t request). cbn in *. split; [by exists st|lia].
  - rewrite send_uuidCalls. split; [by eapply send_tracked|done].
  - split; [|unfold close; cbn; by destruct (onclose t)].
    exists st. destruct (tracked_done _ _ _ _ _ T C) as [Cl Gone].
    destruct (close_effects t) as (_ & S & _).
    eapply tracked_frame; [done| | |].
    + unfold close. cbn.
      replace (objects (if onclose t then _ else _))
        with (close_all (map_to_list (_streams t)).*2 (objects t))
        by (by destruct (onclose t)).
      rewrite close_all_lookup, (tracked_object _ _ _ _ _ T). cbn.
      destruct (bool_decide _); [|done]. by rewrite close_controller_closed.
    + by rewrite S, lookup_empty, Gone.
    + intros r In. rewrite C in In. by apply not_elem_of_empty in In.
  - split; [|done]. exists st. eapply tracked_frame; [done| | |]; cbn; try done.
    rewrite list_lookup_alter_ne by done. apply (tracked_object _ _ _ _ _ T).
  - destruct C as [Ne C]. unfold cancelRequestStream.
    destruct (objects t !! ref') as [st'|] eqn:E'; [|by split; [exists st|]].
    split; [|done]. exists st. destruct (C st' eq_refl) as [NeId Dis].
    eapply tracked_frame; [done| | |]; cbn.
    + rewrite list_lookup_alter_ne by done. apply (tracked_object _ _ _ _ _ T).
    + rewrite lookup_delete_ne; [done|]. by rewrite <- (tracked_id _ _ _ _ _ T).
    + intros r In. apply delete_all_lookup_ne. rewrite elem_of_elements.
      intros In'. by eapply Dis.
Qed.

Lemma run_op_json t op :
  _enableJsonResponse (run_op t op) = _enableJsonResponse t.
Proof.
  destruct op as [request auth|m related| |ref|ref]; cbn.
  - unfold handleRequest. destruct (validateRequestHeaders t request); [done|].
    destruct (bool_decide (_ = "GET")).
    { pose proof (ss_json _ _ (handleGetRequest_same_session t)).
      by destruct (handleGetRequest t). }
    destruct (bool_decide (_ = "POST")).
    { destruct (handlePostRequest_cases t request auth)
        as [(t1 & r & SO & ->)|(messages & t1 & _ & SO & ->)]; [apply SO|].
      rewrite <- (so_json _ _ SO).
      apply (ss_json _ _ (post_delivery_same_session t1 messages
                            {| authInfo := auth; requestInfo := request |})). }
    destruct (bool_decide (_ = "DELETE")); [|done].
    pose proof (so_json _ _ (handleDeleteRequest_session_only t request)).
    by destruct (handleDeleteRequest t request).
  - apply (ss_json _ _ (send_same_session t m related)).
  - apply (ss_json _ _ (close_same_session t)).
  - done.
  - apply (ss_json _ _ (cancelRequestStream_same_session t ref)).
Qed.

Lemma run_ops_tracked ref n batch ops :
  (forall a b, randomUUID a = randomUUID b -> a = b) ->
  forall t st,
    _enableJsonResponse t = false -> well_formed t -> n < uuidCalls t ->
    tracked t ref (randomUUID n) batch st -> left_alone t ref ops ->
    exists st',
      tracked (run_ops t ops) ref (randomUUID n) batch st' /\
      _enableJsonResponse (run_ops t ops) = false.
Proof.
  intros Inj. induction ops as [|op rest IH]; intros t st J W Lt T LA; [by exists st|].
  destruct LA as [LA1 LA2]. cbn.
  destruct (run_op_tracked t op ref n batch st Inj J W Lt T LA1) as [[st1 T1] Lt1].
  eapply IH; try done.
  - by rewrite run_op_json.
  - by apply run_op_well_formed.
Qed.

(** The calls of [send] that a handler makes are operations like the
    others. *)
Lemma run_ops_sends calls :
  forall t, run_ops t (map (fun c : SendCall => OpSend c.1 c.2) calls)
            = (run_sends t calls).1.
Proof.
  induction calls as [|[m related] rest IH]; intros t; cbn; [done|].
  unfold run_ops in IH. rewrite IH.
  destruct (send t m related) as [t1 o]. cbn. by destruct (run_sends t1 rest).
Qed.

(** C1 (as amended).  [randomUUID] never gives the same value twice nor the
    empty string.  A POST with request objects in SSE mode has registered
    its stream, and the operations that follow leave the stream alone: the
    transport is not closed while the stream has a pending id, the stream is
    not cancelled, and no pending request id of the stream comes in a second
    time.  Then what is pending on the stream is part of the batch; every
    id of the batch that is no longer pending has a response or an error on
    the stream; while an id is pending the stream is open, in the stream
    map, and the reverse index routes its pending ids to it; when none is
    pending the stream is closed and out of the stream map.  And a response
    or an error for a pending id is written to the stream, takes the id out
    of the pending set and of the reverse index, and closes and removes the
    stream if and only if it was the last pending id. *)
Theorem request_stream_lifecycle t messages ops :
  (forall a b, randomUUID a = randomUUID b -> a = b) ->
  truthy (randomUUID (uuidCalls t)) = true ->
  _enableJsonResponse t = false -> well_formed t ->
  existsb isJSONRPCRequest messages = true ->
  let '(t1, ref) := registerSse t messages in
  let streamId := randomUUID (uuidCalls t) in
  let batch : gset RequestId := list_to_set (requestIdsOf messages) in
  left_alone t1 ref ops ->
  let t2 := run_ops t1 ops in
  exists st,
    objects t2 !! ref = Some st /\ stream_id st = streamId /\
    pendingIds st ⊆ batch /\
    (forall r, r ∈ batch -> r ∉ pendingIds st ->
       exists m, m ∈ chunks st /\ isReply m = true /\ message_id m = Some r) /\
    (pendingIds st <> ∅ ->
     closed st = false /\ _streams t2 !! streamId = Some ref /\
     forall r, r ∈ pendingIds st -> _requestToStream t2 !! r = Some streamId) /\
    (pendingIds st = ∅ -> closed st = true /\ _streams t2 !! streamId = None) /\
    (forall m related r,
       isReply m = true -> message_id m = Some r -> r ∈ pendingIds st ->
       exists t3 st3,
         send t2 m related = (t3, Sent) /\
         objects t3 !! ref = Some st3 /\
         chunks st3 = chunks st ++ [m] /\
         pendingIds st3 = pendingIds st ∖ {[r]} /\
         _requestToStream t3 !! r = None /\
         (pendingIds st3 <> ∅ ->
          closed st3 = false /\ _streams t3 !! streamId = Some ref) /\
         (pendingIds st3 = ∅ ->
          closed st3 = true /\ _streams t3 !! streamId = None)).
Proof.
  intros Inj U J W Q. pose proof (registerSse_owns t messages W Q U) as R.
  pose proof (registerSse_same_session t messages) as SS.
  pose proof (registerSse_uuidCalls t messages) as UC.
  destruct (registerSse t messages) as [t1 ref]. destruct R as (Fresh & W1 & O).
  cbn in SS, UC. intros streamId batch LA t2.
  assert (T1 : tracked t1 ref streamId batch (new_stream streamId batch)).
  { split.
    - apply O.
    - done.
    - done.
    - intros r Hb Hn. by destruct Hn.
    - intros _. exact O.
    - intros Em. by destruct O as [_ _ _ _ Pn _]. }
  destruct (run_ops_tracked ref (uuidCalls t) batch ops Inj t1 _
              (eq_trans (ss_json _ _ SS) J) W1 ltac:(lia) T1 LA) as (st & T & J2).
  fold t2 in T, J2. unfold streamId. exists st. destruct T as [E I P Rp Live Done].
  split; [done|]. split; [done|]. split; [done|]. split; [done|]. split.
  { intros Ne. destruct (Live Ne) as [_ C _ S _ X]. rewrite I in S, X. done. }
  split; [done|].
  intros m related r Rm Im In.
  assert (Ne : pendingIds st <> ∅).
  { intros Em. rewrite Em in In. by apply not_elem_of_empty in In. }
  destruct (send_reply_pending t2 ref st m related r J2 (Live Ne) In Rm Im)
    as (t3 & st3 & S & E3 & I3 & C3 & P3 & X3 & Live3 & Done3).
  exists t3, st3. split; [done|]. split; [done|]. split; [done|]. split; [done|].
  split; [done|]. split.
  - intros Ne3. destruct (Live3 Ne3) as [_ C _ S3 _ _]. rewrite I3, I in S3. done.
  - intros Em3. rewrite <- I. by apply Done3.
Qed.

End LeftAlone.

(** ** The response of the JSON mode under any operations *)

Lemma first_routed_app r a b :
  first_routed r (a ++ b) =
    match first_routed r a with
    | Some m => Some m
    | None => first_routed r b
    end.
Proof.
  induction a as [|c rest IH]; cbn; [done|]. by destruct (bool_decide _).
Qed.

Lemma run_sends_waiting_kept calls :
  forall t r p,
    _enableJsonResponse t = true -> waiting t r p -> first_routed r calls = None ->
    waiting (run_sends t calls).1 r p.
Proof.
  induction calls as [|[m related] rest IH]; intros t r p J Wt F; cbn in *; [done|].
  pose proof (send_waiting t m related r p J Wt) as S.
  pose proof (send_same_session t m related) as SS.
  destruct (bool_decide (routing_id (m, related) = Some r)); [done|].
  destruct (send t m related) as [t1 o]. cbn in *.
  specialize (IH t1 r p (eq_trans (ss_json _ _ SS) J) S F).
  by destruct (run_sends t1 rest).
Qed.

(** A pending promise is not one of the promises that [registerJson]
    makes, and stays where it is when its id is not registered again. *)
Lemma registerJson_waiting_kept ids t r p :
  waiting t r p -> r ∉ ids -> waiting (registerJson t ids).1 r p.
Proof.
  intros (E & V & U) N.
  destruct (registerJson_spec ids t) as (pending & -> & _ & Inv & Out). cbn.
  split; [by rewrite Out|]. split; [by apply lookup_app_l_Some|].
  intros r' E'. destruct (Inv r' p E') as [[E0 _]|(i & -> & _)]; [by apply U|].
  apply lookup_lt_Some in V. lia.
Qed.

Lemma registerJson_settled ids t p v :
  promises t !! p = Some v -> promises (registerJson t ids).1 !! p = Some v.
Proof.
  intros V. destruct (registerJson_spec ids t) as (pending & -> & _). cbn.
  by apply lookup_app_l_Some.
Qed.

(** The promises that [registerJson] makes for a batch of distinct ids are
    waiting. *)
Lemma registerJson_waiting t ids i r :
  well_formed t -> NoDup ids -> ids !! i = Some r ->
  (registerJson t ids).2 = seq (length (promises t)) (length ids) /\
  waiting (registerJson t ids).1 r (length (promises t) + i).
Proof.
  intros [_ WP] ND E.
  destruct (registerJson_spec ids t) as (pending & -> & Last & Inv & _).
  split; [done|]. cbn. split; [|split].
  - apply Last; [done|]. by eapply NoDup_lookup_drop.
  - cbn. rewrite lookup_app_r by lia.
    replace (length (promises t) + i - length (promises t)) with i by lia.
    apply lookup_replicate_2. by eapply lookup_lt_Some.
  - cbn. intros r' E'. destruct (Inv r' _ E') as [[E0 _]|(j & Ej & Ij & Nj)].
    + apply WP in E0. lia.
    + assert (j = i) as -> by lia. congruence.
Qed.

Lemma requestIdsOf_no_request messages :
  existsb isJSONRPCRequest messages = false -> requestIdsOf messages = [].
Proof.
  induction messages as [|m rest IH]; [done|]. cbn.
  intros [Hm Hr]%orb_false_elim. unfold requestIdsOf in *. cbn.
  rewrite Hm. by apply IH.
Qed.

Section JsonOperations.
Context `{Environment}.

(** [handlePostRequest] answers with an error and changes nothing but the
    error counter, or it passes the session check, which writes session
    fields only, and delivers the batch. *)
Lemma handlePostRequest_split t request auth :
  (exists t1 r, session_only t t1 /\ 400 <= status r /\
                handlePostRequest t request auth = (t1, [], Respond r)) \/
  (exists messages t1,
      parseMessages (req_body request) = Some messages /\ session_only t t1 /\
      handlePostRequest t request auth =
        let extra := {| authInfo := auth; requestInfo := request |} in
        if negb (existsb isJSONRPCRequest messages) then
          let '(t2, os) := dispatch t1 messages extra in
          (t2, os, Respond {| status := 202; headers := []; body := BodyNull |})
        else if _enableJsonResponse t1 then
          let '(t2, os, ps) := collectJsonResponses t1 messages extra in
          (t2, os, AwaitJson ps)
        else
          let '(t2, os, r) := createSseResponse t1 messages extra in
          (t2, os, Respond r)).
Proof.
  unfold handlePostRequest.
  destruct (_ || _).
  { left. eexists _, _. split; [apply session_only_refl|]. split; [|done]. cbn. lia. }
  destruct (negb _).
  { left. eexists _, _. split; [apply session_only_refl|]. split; [|done]. cbn. lia. }
  destruct (parseMessages (req_body request)) as [messages|] eqn:P.
  2:{ left. eexists _, _. split; [|split; [|done]]; [|cbn; lia]. unfold reportError.
      destruct (onerror t); by split. }
  destruct (existsb isInitializeRequest messages).
  - destruct (_ && _).
    { left. eexists _, _. split; [apply session_only_refl|]. split; [|done]. cbn. lia. }
    destruct (bool_decide _).
    { left. eexists _, _. split; [apply session_only_refl|]. split; [|done]. cbn. lia. }
    right. exists messages. eexists. split; [done|]. split; [|done].
    destruct (sessionIdGenerator t); by split.
  - destruct (sessionIdGenerator t) as [generator|].
    + destruct (hdr_mcp_session_id request) as [h|].
      2:{ left. eexists _, _. split; [apply session_only_refl|]. split; [|done]. cbn. lia. }
      destruct (negb (truthy h)).
      { left. eexists _, _. split; [apply session_only_refl|]. split; [|done]. cbn. lia. }
      destruct (bool_decide (Some h = sessionId t)).
      2:{ left. eexists _, _. split; [apply session_only_refl|]. split; [|done]. cbn. lia. }
      destruct (validateProtocolVersion request).
      { left. eexists _, _. split; [apply session_only_refl|]. split; [|done]. cbn. lia. }
      right. exists messages, t. split; [done|]. split; [apply session_only_refl|done].
    + destruct (validateProtocolVersion request).
      { left. eexists _, _. split; [apply session_only_refl|]. split; [|done]. cbn. lia. }
      right. exists messages, t. split; [done|]. split; [apply session_only_refl|done].
Qed.

(** What a request does to the promises in JSON mode: nothing, and the
    handler is not called; or it is a POST that is accepted, which
    registers the request ids of its batch and calls the handler. *)
Lemma json_request_effect t request auth :
  _enableJsonResponse t = true ->
  let op := OpRequest request auth in
  (promises (run_op t op) = promises t /\
   _pendingJsonResponses (run_op t op) = _pendingJsonResponses t /\
   sends_of t op = []) \/
  (exists messages t1,
      parseMessages (req_body request) = Some messages /\ session_only t t1 /\
      sends_of t op =
        handler_calls t messages {| authInfo := auth; requestInfo := request |} /\
      run_op t op =
        (run_sends (registerJson t1 (requestIdsOf messages)).1
                   (handler_calls t messages
                      {| authInfo := auth; requestInfo := request |})).1).
Proof.
  intros J op. unfold op, sends_of, accepted_post, run_op, handleRequest.
  destruct (validateRequestHeaders t request).
  { left. cbn. by rewrite andb_false_r. }
  destruct (bool_decide (toUpperCase (req_method request) = "GET")) eqn:G.
  { left. apply bool_decide_eq_true in G. rewrite G. cbn -[handleGetRequest].
    unfold handleGetRequest. by destruct (_standaloneStream t). }
  destruct (bool_decide (toUpperCase (req_method request) = "POST")) eqn:P.
  2:{ left. cbn [andb].
      destruct (bool_decide (toUpperCase (req_method request) = "DELETE")); [|done].
      pose proof (handleDeleteRequest_session_only t request) as SO.
      destruct (handleDeleteRequest t request) as [t1 r]. cbn in *.
      by rewrite (so_promises _ _ SO), (so_pending _ _ SO). }
  cbn [andb].
  destruct (handlePostRequest_split t request auth)
    as [(t1 & r & SO & St & ->)|(messages & t1 & Pm & SO & ->)].
  { left. cbn. rewrite (so_promises _ _ SO), (so_pending _ _ SO).
    rewrite bool_decide_false by lia. done. }
  right. exists messages, t1. split; [done|]. split; [done|].
  rewrite Pm. cbn [default from_option id].
  assert (HC : forall t0, onmessage t0 = onmessage t1 ->
                 handler_calls t0 messages {| authInfo := auth; requestInfo := request |}
                 = handler_calls t messages {| authInfo := auth; requestInfo := request |}).
  { intros t0 E. unfold handler_calls. by rewrite E, (so_onmessage _ _ SO). }
  cbv zeta. destruct (existsb isJSONRPCRequest messages) eqn:Q; cbn [negb].
  - rewrite (so_json _ _ SO), J. unfold collectJsonResponses.
    pose proof (registerJson_same_session (requestIdsOf messages) t1) as SS.
    destruct (registerJson t1 (requestIdsOf messages)) as [t0 ps]. cbn in SS.
    rewrite dispatch_run_sends, (HC t0 (ss_onmessage _ _ SS)).
    cbn [fst]. destruct (run_sends t0 _) as [t2 os]. by split.
  - rewrite (requestIdsOf_no_request _ Q). cbn [registerJson fst].
    rewrite dispatch_run_sends, (HC t1 eq_refl).
    destruct (run_sends t1 _) as [t2 os]. by split.
Qed.

Lemma run_op_settled t op p v :
  _enableJsonResponse t = true ->
  promises t !! p = Some (Some v) -> promises (run_op t op) !! p = Some (Some v).
Proof.
  intros J V. destruct op as [request auth|m related| |ref|ref].
  - destruct (json_request_effect t request auth J)
      as [(-> & _)|(messages & t1 & _ & SO & _ & ->)]; [done|].
    apply run_sends_settled, registerJson_settled. by rewrite (so_promises _ _ SO).
  - by apply send_settled.
  - cbn. unfold close. cbn. by destruct (onclose t).
  - done.
  - cbn. unfold cancelRequestStream. by destruct (objects t !! ref).
Qed.

Lemma run_ops_settled ops :
  forall t p v,
    _enableJsonResponse t = true ->
    promises t !! p = Some (Some v) -> promises (run_ops t ops) !! p = Some (Some v).
Proof.
  induction ops as [|op rest IH]; intros t p v J V; [done|].
  cbn. apply IH; [by rewrite run_op_json|by apply run_op_settled].
Qed.

(** A waiting promise takes the first message that an operation sends
    under its id, and goes on waiting when there is none. *)
Lemma run_op_waiting t op r p :
  _enableJsonResponse t = true -> waiting t r p -> leaves_waiting t r p op ->
  promises (run_op t op) !! p = Some (first_routed r (sends_of t op)) /\
  (first_routed r (sends_of t op) = None -> waiting (run_op t op) r p).
Proof.
  intros J Wt LA. pose proof Wt as (E & V & U). specialize (LA V).
  destruct op as [request auth|m related| |ref|ref].
  - destruct (json_request_effect t request auth J)
      as [(Pr & Pe & ->)|(messages & t1 & Pm & SO & -> & ->)].
    { cbn [first_routed]. split; [by rewrite Pr|]. intros _.
      unfold waiting. by rewrite Pr, Pe. }
    assert (W1 : waiting (registerJson t1 (requestIdsOf messages)).1 r p).
    { apply registerJson_waiting_kept; [|by apply LA].
      unfold waiting. by rewrite (so_pending _ _ SO), (so_promises _ _ SO). }
    assert (J1 : _enableJsonResponse (registerJson t1 (requestIdsOf messages)).1 = true).
    { rewrite (ss_json _ _ (registerJson_same_session _ t1)). by rewrite (so_json _ _ SO). }
    split; [by apply run_sends_waiting|]. by apply run_sends_waiting_kept.
  - cbn [sends_of run_op].
    assert (One : (run_sends t [(m, related)]).1 = (send t m related).1)
      by (cbn; by destruct (send t m related)).
    rewrite <- One.
    split; [exact (run_sends_waiting [(m, related)] t r p J Wt)|].
    exact (run_sends_waiting_kept [(m, related)] t r p J Wt).
  - done.
  - by split.
  - cbn. unfold cancelRequestStream. destruct (objects t !! ref); by split.
Qed.

Lemma run_ops_waiting ops :
  forall t r p,
    _enableJsonResponse t = true -> waiting t r p ->
    (forall ids ps i, ids !! i = Some r -> ps !! i = Some p ->
                      promises_left_alone t ids ps ops ->
                      promises (run_ops t ops) !! p
                      = Some (first_routed r (sent_during t ops))).
Proof.
  induction ops as [|op rest IH]; intros t r p J Wt ids ps i Ei Ep LA.
  { by destruct Wt as (_ & V & _). }
  destruct LA as [LA1 LA2]. cbn [sent_during]. rewrite first_routed_app.
  change (run_ops t (op :: rest)) with (run_ops (run_op t op) rest).
  destruct (run_op_waiting t op r p J Wt (LA1 i r p Ei Ep)) as [V Kept].
  destruct (first_routed r (sends_of t op)) as [m|].
  - apply run_ops_settled; [by rewrite run_op_json|done].
  - by apply (IH _ r p (eq_trans (run_op_json t op) J) (Kept eq_refl) ids ps i).
Qed.

(** C5 (as amended).  In JSON mode, a POST whose request ids are pairwise
    distinct has registered its promises and called the handler, and the
    operations that follow, requests, calls of [send] and cancellations,
    leave its promises alone: the transport is not closed while one of
    them is pending, and no request brings the id of a pending one again.
    Once a message has been sent under the id of every request, by the
    handler during the POST or later, and the first message sent under each
    id is a response or an error, the awaited promises are resolved; the
    body of the HTTP response is made of these replies in the order of the
    requests in the batch: the reply itself when there is one request, the
    array of the N replies when there are more. *)
Theorem json_batch_response t messages extra ops replies :
  _enableJsonResponse t = true -> well_formed t ->
  let ids := requestIdsOf messages in
  NoDup ids ->
  let '(t1, _, ps) := collectJsonResponses t messages extra in
  promises_left_alone t1 ids ps ops ->
  let sent := handler_calls t messages extra ++ sent_during t1 ops in
  Forall2 (fun r m => first_routed r sent = Some m /\ isReply m = true) ids replies ->
  let t2 := run_ops t1 ops in
  length replies = length ids /\
  resumeJsonResponse t2 ps = Some (jsonResponse t2 (payloadOf replies)) /\
  (length ids = 1 -> exists m, replies = [m] /\ payloadOf replies = PayloadObject m) /\
  (1 < length ids -> payloadOf replies = PayloadArray replies).
Proof.
  intros J W ids ND. unfold collectJsonResponses.
  assert (R : forall i r, ids !! i = Some r ->
            (registerJson t ids).2 = seq (length (promises t)) (length ids) /\
            waiting (registerJson t ids).1 r (length (promises t) + i))
    by (intros i r E; by apply registerJson_waiting).
  assert (Ps : (registerJson t ids).2 = seq (length (promises t)) (length ids)).
  { destruct (registerJson_spec ids t) as (pending & -> & _). done. }
  pose proof (registerJson_same_session ids t) as SS. fold ids.
  destruct (registerJson t ids) as [t0 ps]. cbn in R, Ps, SS. subst ps.
  rewrite dispatch_run_sends.
  assert (HC : handler_calls t0 messages extra = handler_calls t messages extra).
  { unfold handler_calls. by rewrite (ss_onmessage _ _ SS). }
  rewrite HC.
  assert (J0 : _enableJsonResponse t0 = true) by (by rewrite (ss_json _ _ SS)).
  pose proof (run_sends_same_session (handler_calls t messages extra) t0) as SS1.
  assert (D : forall i r, ids !! i = Some r ->
            promises (run_sends t0 (handler_calls t messages extra)).1
              !! (length (promises t) + i)
            = Some (first_routed r (handler_calls t messages extra)) /\
            (first_routed r (handler_calls t messages extra) = None ->
             waiting (run_sends t0 (handler_calls t messages extra)).1 r
                     (length (promises t) + i))).
  { intros i r E. destruct (R i r E) as [_ Wt].
    split; [by apply run_sends_waiting|]. by apply run_sends_waiting_kept. }
  destruct (run_sends t0 (handler_calls t messages extra)) as [t1 os]. cbn in D, SS1.
  intros LA F.
  set (sent := handler_calls t messages extra ++ sent_during t1 ops) in *.
  set (t2 := run_ops t1 ops).
  assert (J1 : _enableJsonResponse t1 = true) by (by rewrite (ss_json _ _ SS1)).
  assert (Val : forall i r, ids !! i = Some r ->
            promises t2 !! (length (promises t) + i) = Some (first_routed r sent)).
  { intros i r E. unfold sent, t2. rewrite first_routed_app.
    destruct (D i r E) as [V Kept].
    destruct (first_routed r (handler_calls t messages extra)) as [m|].
    - by apply run_ops_settled.
    - apply (run_ops_waiting ops t1 r _ J1 (Kept eq_refl) ids
               (seq (length (promises t)) (length ids)) i E); [|done].
      apply lookup_seq_lt. by eapply lookup_lt_Some. }
  pose proof (Forall2_length _ _ _ F) as Len.
  assert (A : awaitAll t2 (seq (length (promises t)) (length ids)) = Some replies).
  { unfold awaitAll. apply mapM_Some. apply Forall2_same_length_lookup.
    split; [by rewrite length_seq|]. intros i p m Ep Em.
    apply lookup_seq in Ep as [-> Hi].
    destruct (lookup_lt_is_Some_2 ids i Hi) as [r Er].
    destruct (Forall2_lookup_lr _ _ _ _ _ _ F Er Em) as [Fm _].
    rewrite (Val i r Er), Fm. done. }
  split; [done|]. split.
  { unfold resumeJsonResponse. by rewrite A. }
  split.
  - intros One. rewrite One in Len. destruct replies as [|m [|]]; try done. by exists m.
  - intros Many. rewrite Len in Many.
    destruct replies as [|m [|]]; cbn in *; (done || lia).
Qed.

End JsonOperations.

Section SendsOfRequest.
Context `{Environment}.

(** The calls of [send] that a request makes are those of [sends_of]: what
    [handleRequest] did and what its calls of [send] returned is the run of
    these calls, from the state in which the batch is registered. *)
Lemma sends_of_request t request auth :
  exists t0, (handleRequest t request auth).1
             = run_sends t0 (sends_of t (OpRequest request auth)).
Proof.
  unfold sends_of, accepted_post, handleRequest.
  destruct (validateRequestHeaders t request).
  { exists t. cbn. by rewrite andb_false_r. }
  destruct (bool_decide (toUpperCase (req_method request) = "GET")) eqn:G.
  { apply bool_decide_eq_true in G. rewrite G. cbn -[handleGetRequest].
    destruct (handleGetRequest t) as [t1 r]. by exists t1. }
  destruct (bool_decide (toUpperCase (req_method request) = "POST")) eqn:P.
  2:{ cbn [andb].
      destruct (bool_decide (toUpperCase (req_method request) = "DELETE")); [|by exists t].
      destruct (handleDeleteRequest t request) as [t1 r]. by exists t1. }
  cbn [andb].
  destruct (handlePostRequest_split t request auth)
    as [(t1 & r & SO & St & ->)|(messages & t1 & Pm & SO & ->)].
  { exists t1. cbn. by rewrite bool_decide_false by lia. }
  rewrite Pm. cbn [default from_option id].
  assert (HC : forall t0, onmessage t0 = onmessage t1 ->
                 handler_calls t0 messages {| authInfo := auth; requestInfo := request |}
                 = handler_calls t messages {| authInfo := auth; requestInfo := request |}).
  { intros t0 E. unfold handler_calls. by rewrite E, (so_onmessage _ _ SO). }
  cbv zeta. destruct (existsb isJSONRPCRequest messages); cbn [negb].
  - destruct (_enableJsonResponse t1).
    + unfold collectJsonResponses.
      pose proof (registerJson_same_session (requestIdsOf messages) t1) as SS.
      destruct (registerJson t1 (requestIdsOf messages)) as [t0 ps]. cbn in SS.
      exists t0. rewrite dispatch_run_sends, (HC t0 (ss_onmessage _ _ SS)).
      destruct (run_sends t0 _) as [t2 os] eqn:R. cbn. by rewrite R.
    + unfold createSseResponse.
      pose proof (registerSse_same_session t1 messages) as SS.
      destruct (registerSse t1 messages) as [t0 ref]. cbn in SS.
      exists t0. rewrite dispatch_run_sends, (HC t0 (ss_onmessage _ _ SS)).
      destruct (run_sends t0 _) as [t2 os] eqn:R. cbn.
      rewrite bool_decide_true by lia. by rewrite R.
  - exists t1. rewrite dispatch_run_sends, (HC t1 eq_refl).
    destruct (run_sends t1 _) as [t2 os] eqn:R. cbn.
    rewrite bool_decide_true by lia. by rewrite R.
Qed.

End SendsOfRequest.

(** * The theorems at concrete transports *)

Lemma send_reply_at_most_once_witness :
  let t := (@registerSse demo_environment sse_transport [request_1]).1 in
  let t1 := (send t response_1 None).1 in
  _enableJsonResponse t = false /\
  isReply response_1 = true /\ message_id response_1 = Some (IdNumber 1) /\
  send t response_1 None = (t1, Sent) /\
  _requestToStream t1 !! IdNumber 1 = None /\
  send t1 response_1 None = (t1, ThrowNoConnection (IdNumber 1)).
Proof.
  intros t t1.
  assert (J : _enableJsonResponse t = false) by reflexivity.
  assert (R : isReply response_1 = true) by reflexivity.
  assert (I : message_id response_1 = Some (IdNumber 1)) by reflexivity.
  assert (S : send t response_1 None = (t1, Sent)) by (vm_compute; reflexivity).
  split; [exact J|]. split; [exact R|]. split; [exact I|]. split; [exact S|].
  exact (proj2 (send_reply_at_most_once t response_1 None t1 response_1 None
                  (IdNumber 1) J R I S R I)).
Defined.

Lemma tally_inj a : forall b, tally a = tally b -> a = b.
Proof.
  induction a as [|a IH]; intros [|b] E; try discriminate; [reflexivity|].
  injection E as E. f_equal. by apply IH.
Qed.

Lemma request_stream_lifecycle_witness :
  let t := sse_transport in
  let messages := [request_1; request_2] in
  let get := {| req_method := "GET"; hdr_host := None; hdr_origin := None;
                hdr_accept := None; hdr_content_type := None;
                hdr_mcp_session_id := None; hdr_mcp_protocol_version := None;
                req_body := BodyArray [] |} in
  let ops := [OpSend response_2 None; OpRequest get None; OpSend response_1 None] in
  let t1 := (@registerSse demo_environment t messages).1 in
  let ref := (@registerSse demo_environment t messages).2 in
  (forall a b, @randomUUID demo_environment a = @randomUUID demo_environment b -> a = b) /\
  truthy (@randomUUID demo_environment (uuidCalls t)) = true /\
  _enableJsonResponse t = false /\ well_formed t /\
  existsb isJSONRPCRequest messages = true /\
  @left_alone demo_environment t1 ref ops /\
  exists st,
    objects (@run_ops demo_environment t1 ops) !! ref = Some st /\
    stream_id st = "stream-" /\
    (pendingIds st = ∅ ->
     closed st = true /\
     _streams (@run_ops demo_environment t1 ops) !! "stream-" = None).
Proof.
  intros t messages get ops t1 ref.
  assert (Inj : forall a b,
             @randomUUID demo_environment a = @randomUUID demo_environment b -> a = b).
  { intros a b E. apply tally_inj. by injection E. }
  assert (U : truthy (@randomUUID demo_environment (uuidCalls t)) = true) by reflexivity.
  assert (J : _enableJsonResponse t = false) by reflexivity.
  assert (W : well_formed t)
    by apply connect_well_formed, constructor_well_formed.
  assert (Q : existsb isJSONRPCRequest messages = true) by reflexivity.
  assert (LA : @left_alone demo_environment t1 ref ops).
  { split; [intros st E; exact I|].
    split; [|split; [intros st E; exact I|exact I]].
    intros st E ms P r In. vm_compute in P. injection P as <-.
    by apply elem_of_nil in In. }
  split; [exact Inj|]. split; [exact U|]. split; [exact J|]. split; [exact W|].
  split; [exact Q|]. split; [exact LA|].
  pose proof (@request_stream_lifecycle demo_environment t messages ops Inj U J W Q) as L.
  assert (E : @registerSse demo_environment t messages = (t1, ref))
    by (vm_compute; reflexivity).
  rewrite E in L. destruct (L LA) as (st & O & Id & _ & _ & _ & Done & _).
  exists st. split; [exact O|]. split; [exact Id|exact Done].
Defined.

Lemma registration_precedes_dispatch_witness :
  let messages := [request_1; request_2] in
  existsb isJSONRPCRequest messages = true /\
  Forall (fun o => o = Sent)
    (dispatch (@registerSse demo_environment (connect echo_handler sse_transport) messages).1
              messages demo_extra).2 /\
  (dispatch (@registerSse demo_environment (connect late_handler sse_transport) messages).1
            messages demo_extra).2 !! 1 = Some (ThrowNoConnection (IdNumber 1)) /\
  (dispatch (@registerSse demo_environment (connect late_handler sse_transport) messages).1
            messages demo_extra).2 !! 2 = Some Sent /\
  Forall routed
    (dispatch (registerJson (connect echo_handler json_transport) (requestIdsOf messages)).1
              messages demo_extra).2.
Proof.
  intros messages.
  assert (Q : existsb isJSONRPCRequest messages = true) by reflexivity.
  assert (W : well_formed (connect late_handler sse_transport)).
  { split; cbn; intros ? ?; by rewrite lookup_empty. }
  pose proof (proj1 (proj2 (proj2 (proj1 (@registration_precedes_dispatch demo_environment
                (connect late_handler sse_transport) messages demo_extra Q) eq_refl)))
                W eq_refl) as Late.
  split; [exact Q|]. split; [|split; [|split]].
  - assert (RS : replies_synchronously echo_handler).
    { intros m extra. destruct m as [r method params| | |]; try reflexivity.
      exists [], (JSONRPCResponse r method), None.
      split; [reflexivity|]. split; [constructor|]. split; reflexivity. }
    assert (ND : NoDup (requestIdsOf messages)).
    { exact (bool_decide_unpack (NoDup (requestIdsOf messages)) I). }
    exact (proj2 (proj2 (proj2 (proj1 (@registration_precedes_dispatch demo_environment
             (connect echo_handler sse_transport) messages demo_extra Q) eq_refl)))
             echo_handler eq_refl RS eq_refl ND).
  - exact (Late 1 (JSONRPCNotification "notifications/progress" "late", Some (IdNumber 1))
                (IdNumber 1) eq_refl eq_refl
                (bool_decide_unpack (IdNumber 1 ∈ requestIdsOf messages) I)).
  - exact (Late 2 (JSONRPCResponse (IdNumber 2) "tools/call", None)
                (IdNumber 2) eq_refl eq_refl
                (bool_decide_unpack (IdNumber 2 ∈ requestIdsOf messages) I)).
  - exact (proj2 (proj2 (proj2 (@registration_precedes_dispatch demo_environment
             (connect echo_handler json_transport) messages demo_extra Q) eq_refl))).
Defined.

Lemma send_reply_without_channel_witness :
  isReply response_1 = true /\ message_id response_1 = Some (IdNumber 1) /\
  _enableJsonResponse sse_transport = false /\
  _requestToStream sse_transport !! IdNumber 1 = None /\
  send sse_transport response_1 None = (sse_transport, ThrowNoConnection (IdNumber 1)) /\
  _enableJsonResponse json_transport = true /\
  _pendingJsonResponses json_transport !! IdNumber 1 = None /\
  send json_transport response_1 None = (json_transport, Sent).
Proof.
  assert (R : isReply response_1 = true) by reflexivity.
  assert (I : message_id response_1 = Some (IdNumber 1)) by reflexivity.
  split; [exact R|]. split; [exact I|].
  split; [reflexivity|]. split; [reflexivity|]. split.
  { exact (proj1 (send_reply_without_channel sse_transport response_1 None
                    (IdNumber 1) R I) eq_refl eq_refl). }
  split; [reflexivity|]. split; [reflexivity|].
  exact (proj2 (send_reply_without_channel json_transport response_1 None
                  (IdNumber 1) R I) eq_refl eq_refl).
Defined.

Lemma close_leaves_standalone_stream_open_witness :
  let t := (@handleGetRequest demo_environment sse_transport).1 in
  let st := new_stream "stream-" ∅ in
  _standaloneStream t = Some 0 /\ objects t !! 0 = Some st /\ closed st = false /\
  (forall streamId, _streams t !! streamId <> Some 0) /\
  objects (close t) !! 0 = Some st /\ closed st = false /\
  _standaloneStream (close t) = None.
Proof.
  intros t st.
  assert (S : _standaloneStream t = Some 0) by reflexivity.
  assert (O : objects t !! 0 = Some st) by reflexivity.
  assert (C : closed st = false) by reflexivity.
  assert (N : forall streamId, _streams t !! streamId <> Some 0).
  { intros streamId. change (_streams t) with (∅ : gmap string nat).
    rewrite lookup_empty. discriminate. }
  split; [exact S|]. split; [exact O|]. split; [exact C|]. split; [exact N|].
  exact (close_leaves_standalone_stream_open t 0 st S O C N).
Defined.

Lemma json_batch_response_witness :
  let t := json_transport in
  let messages := [request_1; request_2] in
  let ops := [OpSend response_2 None;
              OpRequest (demo_request None [JSONRPCRequest (IdNumber 3) "ping" "{}"]) None;
              OpCancelStandalone 0;
              OpSend response_1 None] in
  let replies := [response_1; response_2] in
  _enableJsonResponse t = true /\ well_formed t /\
  NoDup (requestIdsOf messages) /\
  let '(t1, _, ps) := @collectJsonResponses t messages demo_extra in
  @promises_left_alone demo_environment t1 (requestIdsOf messages) ps ops /\
  Forall2 (fun r m => first_routed r (handler_calls t messages demo_extra
                                      ++ @sent_during demo_environment t1 ops) = Some m
                      /\ isReply m = true)
          (requestIdsOf messages) replies /\
  let t2 := @run_ops demo_environment t1 ops in
  resumeJsonResponse t2 ps = Some (jsonResponse t2 (PayloadArray replies)).
Proof.
  intros t messages ops replies.
  assert (J : _enableJsonResponse t = true) by reflexivity.
  assert (W : well_formed t)
    by apply connect_well_formed, constructor_well_formed.
  assert (ND : NoDup (requestIdsOf messages)).
  { exact (bool_decide_unpack (NoDup (requestIdsOf messages)) I). }
  split; [exact J|]. split; [exact W|]. split; [exact ND|].
  pose proof (@json_batch_response demo_environment t messages demo_extra ops replies
                J W ND) as B.
  destruct (collectJsonResponses t messages demo_extra) as [[t1 os] ps] eqn:C.
  vm_compute in C. injection C as <- <- <-.
  cbv zeta in B.
  match type of B with
  | ?P -> ?Q -> _ =>
      assert (LA : P);
      [|assert (F : Q);
        [|exact (conj LA (conj F (proj1 (proj2 (B LA F)))))]]
  end.
  - split; [intros i r p _ _ _; exact I|].
    split; [|split; [intros i r p _ _ _; exact I|split; [intros i r p _ _ _; exact I|exact I]]].
    intros i r p Ei _ _ ms [= <-].
    destruct i as [|[|i]]; [injection Ei as <-|injection Ei as <-|discriminate Ei].
    + exact (bool_decide_unpack (IdNumber 1 ∉ [IdNumber 3]) I).
    + exact (bool_decide_unpack (IdNumber 2 ∉ [IdNumber 3]) I).
  - vm_compute. repeat constructor.
Defined.

Lemma initialize_post_witness :
  let t := session_transport in
  let request := demo_request None [initialize_request] in
  negotiated request = true /\
  parseMessages (req_body request) = Some [initialize_request] /\
  existsb (@isInitializeRequest demo_environment) [initialize_request] = true /\
  let '(t', _, result) := @handlePostRequest demo_environment t request None in
  if _initialized t && bool_decide (sessionId t <> None) then
    t' = t /\ exists message, result = Respond (jsonRpcError 400 (-32600) message)
  else if bool_decide (1 < length [initialize_request]) then
    t' = t /\ exists message, result = Respond (jsonRpcError 400 (-32600) message)
  else
    sessionId t' = (fun generator => generator (generatorCalls t)) <$> sessionIdGenerator t
    /\ _initialized t' = true.
Proof.
  intros t request.
  assert (N : negotiated request = true) by reflexivity.
  assert (P : parseMessages (req_body request) = Some [initialize_request]) by reflexivity.
  assert (M : existsb (@isInitializeRequest demo_environment) [initialize_request] = true)
    by reflexivity.
  split; [exact N|]. split; [exact P|]. split; [exact M|].
  exact (@initialize_post demo_environment t request None [initialize_request] N P M).
Defined.

Lemma delete_ends_session_witness :
  let t := (@handlePostRequest demo_environment session_transport
              (demo_request None [initialize_request]) None).1.1 in
  let s := "session-" in
  let request := demo_request (Some s) [] in
  let ops := [OpSend response_1 None; OpRequest (demo_request (Some s) [request_1]) None;
              OpClose] in
  is_Some (sessionIdGenerator t) /\ sessionId t = Some s /\ s <> "" /\
  hdr_mcp_session_id request = Some s /\
  Forall (@not_initialize demo_environment) ops /\
  (handleDeleteRequest t request).2 = {| status := 204; headers := []; body := BodyNull |} /\
  let t2 := @run_ops demo_environment (handleDeleteRequest t request).1 ops in
  @handlePostRequest demo_environment t2 (demo_request (Some s) [request_1]) None =
    (t2, [], Respond (jsonRpcError 404 (-32001) "Session not found")).
Proof.
  intros t s request ops.
  assert (G : is_Some (sessionIdGenerator t)) by (eexists; reflexivity).
  assert (S : sessionId t = Some s) by reflexivity.
  assert (Ne : s <> "") by discriminate.
  assert (Hd : hdr_mcp_session_id request = Some s) by reflexivity.
  assert (F : Forall (@not_initialize demo_environment) ops).
  { repeat constructor. intros messages [= <-]. reflexivity. }
  split; [exact G|]. split; [exact S|]. split; [exact Ne|]. split; [exact Hd|].
  split; [exact F|].
  pose proof (@delete_ends_session demo_environment t request s G S Ne Hd) as D.
  destruct (handleDeleteRequest t request) as [t1 response].
  destruct D as (R & _ & _ & After). split; [exact R|].
  exact (proj2 (After ops F) (demo_request (Some s) [request_1]) None [request_1]
               eq_refl eq_refl eq_refl eq_refl).
Defined.

Lemma standalone_stream_exclusive_witness :
  let t := (@handleGetRequest demo_environment sse_transport).1 in
  _standaloneStream t = Some 0 /\
  @handleGetRequest demo_environment t =
    (t, jsonRpcError 409 (-32000) "Conflict: Only one SSE stream is allowed.") /\
  status (@handleGetRequest demo_environment (cancelStandalone t 0)).2 = 200.
Proof.
  intros t.
  assert (S : _standaloneStream t = Some 0) by reflexivity.
  split; [exact S|].
  pose proof (@standalone_stream_exclusive demo_environment t 0 S) as [Busy Again].
  split; [exact Busy|].
  destruct (@handleGetRequest demo_environment (cancelStandalone t 0)) as [t2 response].
  destruct Again as (ref' & St & _). exact St.
Defined.

Lemma second_standalone_stream_after_close_witness :
  well_formed sse_transport /\ _standaloneStream sse_transport = None /\
  let '(t1, first) := @handleGetRequest demo_environment sse_transport in
  let '(t2, second) := @handleGetRequest demo_environment (close t1) in
  exists ref ref' st st',
    status first = 200 /\ body first = BodyEventStream ref /\
    _standaloneStream t1 = Some ref /\
    status second = 200 /\ body second = BodyEventStream ref' /\
    _standaloneStream t2 = Some ref' /\ ref <> ref' /\
    objects t2 !! ref = Some st /\ closed st = false /\
    objects t2 !! ref' = Some st' /\ closed st' = false.
Proof.
  assert (W : well_formed sse_transport).
  { split; cbn; intros ? ?; by rewrite lookup_empty. }
  assert (S : _standaloneStream sse_transport = None) by reflexivity.
  split; [exact W|]. split; [exact S|].
  exact (@second_standalone_stream_after_close demo_environment sse_transport W S).
Defined.

Lemma close_keeps_session_witness :
  let t := (@handlePostRequest demo_environment session_transport
              (demo_request None [initialize_request]) None).1.1 in
  let request := demo_request None [initialize_request] in
  _initialized t = true /\ sessionId t <> None /\ negotiated request = true /\
  sessionId (close t) = sessionId t /\ _initialized (close t) = _initialized t /\
  @handlePostRequest demo_environment (close t) request None =
    (close t, [],
     Respond (jsonRpcError 400 (-32600) "Invalid Request: Server already initialized")).
Proof.
  intros t request.
  assert (I : _initialized t = true) by reflexivity.
  assert (S : sessionId t <> None) by discriminate.
  assert (N : negotiated request = true) by reflexivity.
  split; [exact I|]. split; [exact S|]. split; [exact N|].
  pose proof (@close_keeps_session demo_environment t) as (KS & KI & Again).
  split; [exact KS|]. split; [exact KI|].
  exact (Again request None [initialize_request] I S N eq_refl eq_refl).
Defined.

(** * Where the code departs from the claims as they are written *)

(** What follows from [close()] leaving the sink of the standalone stream
    open: the next GET is answered 200 and its stream becomes the standalone
    stream, while the sink of the stream that [close()] dropped is still
    open. *)
Lemma close_then_get_opens_second_standalone_stream :
  let t1 := (@handleGetRequest demo_environment sse_transport).1 in
  let '(t2, response) := @handleGetRequest demo_environment (close t1) in
  status response = 200 /\ _standaloneStream t2 = Some 1 /\
  closed <$> objects t2 !! 0 = Some false /\
  closed <$> objects t2 !! 1 = Some false.
Proof. vm_compute. repeat split; reflexivity. Qed.

(** C1 as written fails.  A stream whose only request id is still pending
    is closed and taken out of the stream map and of the reverse index by
    [close()], and likewise when its reader cancels it.  And when a later
    POST registers the same id again, the reply for that id goes to the
    stream of the later POST: the earlier stream gets nothing, keeps the id
    pending, and stays open in the stream map. *)
Lemma request_stream_torn_down_while_pending :
  let '(t1, ref) := @registerSse demo_environment sse_transport [request_1] in
  (pendingIds <$> objects (close t1) !! ref = Some {[IdNumber 1]} /\
   closed <$> objects (close t1) !! ref = Some true /\
   _streams (close t1) !! "stream-" = None /\
   _requestToStream (close t1) !! IdNumber 1 = None) /\
  (pendingIds <$> objects (cancelRequestStream t1 ref) !! ref = Some {[IdNumber 1]} /\
   closed <$> objects (cancelRequestStream t1 ref) !! ref = Some true /\
   _streams (cancelRequestStream t1 ref) !! "stream-" = None /\
   _requestToStream (cancelRequestStream t1 ref) !! IdNumber 1 = None) /\
  let '(t2, ref2) := @registerSse demo_environment t1 [request_1] in
  let '(t3, outcome) := send t2 response_1 None in
  outcome = Sent /\
  chunks <$> objects t3 !! ref = Some [] /\
  chunks <$> objects t3 !! ref2 = Some [response_1] /\
  pendingIds <$> objects t3 !! ref = Some {[IdNumber 1]} /\
  closed <$> objects t3 !! ref = Some false /\
  _streams t3 !! "stream-" = Some ref /\
  _requestToStream t3 !! IdNumber 1 = None.
Proof. vm_compute. repeat split; reflexivity. Qed.

(** C2 as written fails.  In SSE mode, a batch of two requests with the same
    id and a handler that answers each request while it is called with it:
    the second answer ends in the routing failure.  And with distinct ids, a
    handler that answers each request and then sends an event related to
    it: the reply has closed the routing entry, and the event ends in the
    routing failure. *)
Lemma reply_during_dispatch_unrouted :
  (let t := connect echo_handler sse_transport in
   let messages := [request_1; JSONRPCRequest (IdNumber 1) "tools/call" "{}"] in
   replies_synchronously echo_handler /\
   existsb isJSONRPCRequest messages = true /\
   _enableJsonResponse t = false /\
   onmessage t = Some echo_handler /\
   (@createSseResponse demo_environment t messages demo_extra).1.2 =
     [Sent; ThrowNoConnection (IdNumber 1)]) /\
  (let t := connect late_handler sse_transport in
   let messages := [request_1; request_2] in
   NoDup (requestIdsOf messages) /\
   _enableJsonResponse t = false /\
   onmessage t = Some late_handler /\
   (@createSseResponse demo_environment t messages demo_extra).1.2 =
     [Sent; ThrowNoConnection (IdNumber 1); Sent; ThrowNoConnection (IdNumber 2)]).
Proof.
  split.
  - split.
    { intros m extra. destruct m as [r method params| | |]; try reflexivity.
      exists [], (JSONRPCResponse r method), None.
      split; [reflexivity|]. split; [constructor|]. split; reflexivity. }
    vm_compute. repeat split; reflexivity.
  - split; [exact (bool_decide_unpack (NoDup [IdNumber 1; IdNumber 2]) I)|].
    vm_compute. repeat split; reflexivity.
Qed.

(** C3 as written fails.  In JSON mode a response whose id has no pending
    promise is dropped: [send] returns normally. *)
Lemma json_reply_without_promise_is_dropped :
  isReply response_1 = true /\ message_id response_1 = Some (IdNumber 1) /\
  _enableJsonResponse json_transport = true /\
  _pendingJsonResponses json_transport !! IdNumber 1 = None /\
  send json_transport response_1 None = (json_transport, Sent).
Proof. vm_compute. repeat split; reflexivity. Qed.

(** C7 as written fails.  When the generator returns the empty string, the
    session id is assigned but a DELETE that presents it is answered 400:
    an empty header counts as missing. *)
Lemma delete_with_empty_session_id :
  let t0 := connect silent_handler
              (constructor (demo_options (Some (fun _ => "")) false)) in
  let t := (@handlePostRequest demo_environment t0
              (demo_request None [initialize_request]) None).1.1 in
  is_Some (sessionIdGenerator t) /\ sessionId t = Some "" /\
  handleDeleteRequest t (demo_request (Some "") []) =
    (t, jsonRpcError 400 (-32000) "Bad Request: Missing Mcp-Session-Id header").
Proof. vm_compute. split; [by eexists|]. split; reflexivity. Qed.

(** C5 as written fails.  In JSON mode, a batch of two requests with the same
    id: the pending map holds the promise of the second request only, so
    the promise of the first is never resolved.  The handler answers both
    requests, both calls of [send] return normally, and whatever is sent
    afterwards the awaited promises are never all resolved: there is no
    response.  For a single request, when a notification related to it
    is sent before its response, the body of the response is the
    notification.  When the transport is closed before the response to the
    request is sent, the response is dropped and the POST is never
    answered.  And when a second POST brings the same id before the
    response is sent, the response resolves the promise of the second POST,
    and the first is never answered. *)
Lemma duplicate_id_batch_never_answered :
  let t := connect echo_handler json_transport in
  let messages := [request_1; JSONRPCRequest (IdNumber 1) "tools/call" "{}"] in
  let progress := JSONRPCNotification "notifications/progress" "{}" in
  (_enableJsonResponse t = true /\
   existsb isJSONRPCRequest messages = true /\
   replies_synchronously echo_handler /\
   let '(t1, outcomes, ps) := collectJsonResponses t messages demo_extra in
   outcomes = [Sent; Sent] /\
   forall calls, resumeJsonResponse (run_sends t1 calls).1 ps = None) /\
  (let '(t1, _, ps) := collectJsonResponses json_transport [request_1] demo_extra in
   let t2 := (run_sends t1 [(progress, Some (IdNumber 1)); (response_1, None)]).1 in
   resumeJsonResponse t2 ps = Some (jsonResponse t2 (PayloadObject progress))) /\
  (let '(t1, _, ps) := collectJsonResponses json_transport [request_1] demo_extra in
   send (close t1) response_1 None = (close t1, Sent) /\
   resumeJsonResponse (close t1) ps = None) /\
  (let '(t1, _, ps) := collectJsonResponses json_transport [request_1] demo_extra in
   let '(t2, _, ps2) := collectJsonResponses t1 [request_1] demo_extra in
   let '(t3, outcome) := send t2 response_1 None in
   outcome = Sent /\
   resumeJsonResponse t3 ps2 = Some (jsonResponse t3 (PayloadObject response_1)) /\
   resumeJsonResponse t3 ps = None /\
   send t3 response_1 None = (t3, Sent)).
Proof.
  intros t messages progress.
  split; [|split; [vm_compute; reflexivity|split; vm_compute; repeat split; reflexivity]].
  split; [reflexivity|]. split; [reflexivity|]. split.
  { intros m extra. destruct m as [r method params| | |]; try reflexivity.
    exists [], (JSONRPCResponse r method), None.
    split; [reflexivity|]. split; [constructor|]. split; reflexivity. }
  assert (W : well_formed t)
    by apply connect_well_formed, connect_well_formed, constructor_well_formed.
  pose proof (fun calls => json_batch_await t messages demo_extra calls eq_refl W) as A.
  destruct (collectJsonResponses t messages demo_extra) as [[t1 outcomes] ps] eqn:C.
  split; [by vm_compute in C; injection C as _ <- _|].
  intros calls. unfold resumeJsonResponse.
  destruct (awaitAll (run_sends t1 calls).1 ps) as [responses|] eqn:R; [|done].
  destruct (proj1 (A calls) _ R) as (_ & F & _).
  apply Forall2_cons_inv_l in F as (m & rest & F1 & F2 & ->).
  apply Forall2_cons_inv_l in F2 as (m2 & rest2 & F3 & _ & ->).
  exfalso.
  pose proof (fun calls => batch_promises t (requestIdsOf messages) calls eq_refl W) as B.
  clear A. unfold collectJsonResponses in C.
  destruct (registerJson t (requestIdsOf messages)) as [t0 ps0] eqn:RJ.
  rewrite dispatch_run_sends in C.
  specialize (B (handler_calls t0 messages demo_extra ++ calls)).
  destruct B as [-> B]. specialize (B 0 (IdNumber 1) eq_refl).
  rewrite run_sends_app in B.
  destruct (run_sends t0 (handler_calls t0 messages demo_extra)) as [t1' os'].
  injection C as -> -> <-.
  destruct (run_sends t1 calls) as [t2 os2]. cbn in B, R.
  unfold awaitAll in R. cbn in R.
  rewrite bool_decide_true in B by apply list_elem_of_here. rewrite B in R. done.
Qed.

(** * Further properties of the transport and of its callers *)

(** ** Requests that are turned down *)

Section Rejections.
Context `{Environment}.

Lemma createSseResponse_response t messages extra :
  (createSseResponse t messages extra).2 =
    {| status := 200;
       headers := sseHeaders (createSseResponse t messages extra).1.1;
       body := BodyEventStream (registerSse t messages).2 |}.
Proof.
  unfold createSseResponse. destruct (registerSse t messages) as [t1 ref].
  by destruct (dispatch t1 messages extra) as [t2 os].
Qed.

(** [handlePostRequest] in its parts: the checks, then the delivery. *)
Lemma handlePostRequest_unparsed t request auth :
  negotiated request = true -> parseMessages (req_body request) = None ->
  handlePostRequest t request auth =
    (reportError t, [], Respond (jsonRpcError 400 (-32700) "Parse error")).
Proof.
  intros N P. destruct (negotiated_guards _ N) as [A C].
  unfold handlePostRequest. by rewrite A, C, P.
Qed.

Lemma handlePostRequest_initialize t request auth messages :
  negotiated request = true -> parseMessages (req_body request) = Some messages ->
  existsb isInitializeRequest messages = true ->
  handlePostRequest t request auth =
    if _initialized t && bool_decide (sessionId t <> None) then
      (t, [], Respond (jsonRpcError 400 (-32600)
                         "Invalid Request: Server already initialized"))
    else if bool_decide (1 < length messages) then
      (t, [], Respond (jsonRpcError 400 (-32600)
                         "Invalid Request: Only one initialization request is allowed"))
    else deliver (startSession t) messages {| authInfo := auth; requestInfo := request |}.
Proof.
  intros N P I. destruct (negotiated_guards _ N) as [A C].
  unfold handlePostRequest. rewrite A, C, P, I. unfold deliver, startSession.
  destruct (_initialized t && bool_decide (sessionId t <> None)); [done|].
  by destruct (bool_decide (1 < length messages)).
Qed.

Lemma handlePostRequest_other t request auth messages :
  negotiated request = true -> parseMessages (req_body request) = Some messages ->
  existsb isInitializeRequest messages = false ->
  if passes_checks t request then
    handlePostRequest t request auth =
      deliver t messages {| authInfo := auth; requestInfo := request |}
  else
    exists r, handlePostRequest t request auth = (t, [], Respond r) /\
              400 <= status r.
Proof.
  intros N P I. destruct (negotiated_guards _ N) as [A C].
  unfold handlePostRequest. rewrite A, C, P, I. unfold passes_checks, deliver.
  assert (V : bool_decide (validateProtocolVersion request = None) =
              match validateProtocolVersion request with Some _ => false | None => true end).
  { by destruct (validateProtocolVersion request). }
  rewrite V. clear V.
  destruct (sessionIdGenerator t) as [g|] eqn:G.
  - destruct (hdr_mcp_session_id request) as [h|] eqn:Hh; cbn;
      [|eexists; split; [done|]; cbn; lia].
    destruct (truthy h) eqn:T; cbn; [|eexists; split; [done|]; cbn; lia].
    case_bool_decide as S; cbn; [|eexists; split; [done|]; cbn; lia].
    destruct (validateProtocolVersion request) eqn:V; cbn;
      [eexists; split; [done|]; cbn; lia|].
    by repeat case_match.
  - cbn. destruct (validateProtocolVersion request) eqn:V; cbn;
      [eexists; split; [done|]; cbn; lia|].
    by repeat case_match.
Qed.

Lemma handlePostRequest_rejected t request auth t' outcomes response :
  handlePostRequest t request auth = (t', outcomes, Respond response) ->
  400 <= status response ->
  outcomes = [] /\
  (t' = t \/ t' = reportError t /\ response = jsonRpcError 400 (-32700) "Parse error").
Proof.
  unfold handlePostRequest.
  repeat (case_match; simplify_eq/=;
          try (intros [= <- <- <-]; cbn; intros; try lia; eauto; fail)).
  all: match goal with
       | E : createSseResponse ?a ?b ?c = (_, _, ?r) |- _ =>
           pose proof (createSseResponse_response a b c) as R; rewrite E in R;
           cbn in R; subst r
       end.
  all: intros [= <- <- <-]; cbn; lia.
Qed.

(** A request that is answered with an error status has changed nothing
    and has caused no call of [send]; the one trace it leaves is the call
    of [onerror] for a body that does not parse. *)
Theorem rejected_request_changes_nothing t request auth t' outcomes response :
  handleRequest t request auth = (t', outcomes, Respond response) ->
  400 <= status response ->
  outcomes = [] /\
  (t' = t \/ t' = reportError t /\ response = jsonRpcError 400 (-32700) "Parse error").
Proof.
  unfold handleRequest. destruct (validateRequestHeaders t request).
  { intros [= <- <- <-]. eauto. }
  repeat case_bool_decide.
  - unfold handleGetRequest. destruct (_standaloneStream t).
    + intros [= <- <- <-]. eauto.
    + intros [= <- <- <-]. cbn. lia.
  - apply handlePostRequest_rejected.
  - unfold handleDeleteRequest.
    repeat (case_match; simplify_eq/=); intros [= <- <- <-]; cbn; try lia; eauto.
  - intros [= <- <- <-]. eauto.
Qed.

Lemma handlePostRequest_envelope t request auth t' outcomes response :
  handlePostRequest t request auth = (t', outcomes, Respond response) ->
  400 <= status response ->
  exists code message,
    response = jsonRpcError (status response) code message /\
    code ∈ [-32000; -32001; -32600; -32700]%Z /\
    status response ∈ [400; 404; 406; 415].
Proof.
  unfold handlePostRequest.
  repeat (case_match; simplify_eq/=;
          try (intros [= <- <- <-]; cbn; intros;
               first [lia
                     |eexists _, _; split; [reflexivity|];
                      split;
                      repeat first [apply list_elem_of_here|apply list_elem_of_further]];
               fail)).
  all: match goal with
       | E : createSseResponse ?a ?b ?c = (_, _, ?r) |- _ =>
           pose proof (createSseResponse_response a b c) as R; rewrite E in R;
           cbn in R; subst r
       end.
  all: intros [= <- <- <-]; cbn; lia.
Qed.

(** Every error that [handleRequest] answers with is a JSON-RPC error
    object with a null id, its own status, one of four codes, and the
    content type application/json; the one exception is the 405 for a
    method other than GET, POST and DELETE, whose response is given the
    Allow header alone. *)
Theorem error_responses_are_envelopes t request auth t' outcomes response :
  handleRequest t request auth = (t', outcomes, Respond response) ->
  400 <= status response ->
  (exists code message,
      response = jsonRpcError (status response) code message /\
      code ∈ [-32000; -32001; -32600; -32700]%Z /\
      status response ∈ [400; 404; 405; 406; 409; 415]) \/
  (response = handleUnsupportedRequest /\
   toUpperCase (req_method request) ∉ ["GET"; "POST"; "DELETE"]).
Proof.
  unfold handleRequest. destruct (validateRequestHeaders t request).
  { intros [= <- <- <-] _. left. eexists _, _. split; [reflexivity|].
    split; repeat first [apply list_elem_of_here|apply list_elem_of_further]. }
  case_bool_decide as G.
  { unfold handleGetRequest. destruct (_standaloneStream t).
    - intros [= <- <- <-] _. left. eexists _, _. split; [reflexivity|].
      split; repeat first [apply list_elem_of_here|apply list_elem_of_further].
    - intros [= <- <- <-]. cbn. lia. }
  case_bool_decide as P.
  { intros E S. left.
    destruct (handlePostRequest_envelope _ _ _ _ _ _ E S) as (code & message & R & C & St).
    exists code, message. split; [done|]. split; [done|].
    revert St. generalize (status response). intros n.
    rewrite !elem_of_cons. naive_solver. }
  case_bool_decide as D.
  { unfold handleDeleteRequest.
    repeat (case_match; simplify_eq/=); intros [= <- <- <-]; cbn; try lia; intros _;
      left; eexists _, _; (split; [reflexivity|]);
      split; repeat first [apply list_elem_of_here|apply list_elem_of_further]. }
  intros [= <- <- <-] _. right. split; [done|].
  rewrite !not_elem_of_cons. repeat split; try done. apply not_elem_of_nil.
Qed.

End Rejections.

(** ** The validation of the Host and Origin headers *)

Lemma truthy_nonempty s : truthy s = true <-> s <> "".
Proof. by destruct s. Qed.

Section HeaderValidation.
Context `{Environment}.

Lemma validateRequestHeaders_None t request :
  validateRequestHeaders t request = None <->
  _enableDnsRebindingProtection t = false \/
  (forall hosts, _allowedHosts t = Some hosts -> hosts <> [] ->
     exists host, hdr_host request = Some host /\ host <> "" /\ host ∈ hosts) /\
  (forall origins origin, _allowedOrigins t = Some origins -> origins <> [] ->
     hdr_origin request = Some origin -> origin <> "" -> origin ∈ origins).
Proof.
  unfold validateRequestHeaders.
  destruct (_enableDnsRebindingProtection t); cbn; [|by split; [left|]].
  assert (L : forall l : list string, bool_decide (0 < length l) = true <-> l <> []).
  { intros [|x l]; cbn; [by split|]. rewrite bool_decide_true by lia. by split. }
  split.
  - intros V. right. split.
    + intros hosts E Ne. apply L in Ne. rewrite E, Ne in V.
      destruct (hdr_host request) as [host|]; [|done].
      destruct (truthy host) eqn:T; [|done]. cbn in V.
      destruct (bool_decide (host ∈ hosts)) eqn:I; [|done].
      apply bool_decide_eq_true in I. exists host.
      split; [done|]. split; [by apply truthy_nonempty|done].
    + intros origins origin E Ne O T. apply L in Ne. apply truthy_nonempty in T.
      rewrite E, Ne, O, T in V. cbn in V.
      destruct (match _allowedHosts t with Some _ => _ | None => _ end); [done|].
      destruct (bool_decide (origin ∈ origins)) eqn:I; [|done].
      by apply bool_decide_eq_true in I.
  - intros [?|[Hh Ho]]; [done|].
    assert (match _allowedHosts t with
            | Some hosts =>
                if bool_decide (0 < length hosts)
                then match hdr_host request with
                     | Some host => negb (truthy host) || negb (bool_decide (host ∈ hosts))
                     | None => true
                     end
                else false
            | None => false
            end = false) as ->.
    { destruct (_allowedHosts t) as [hosts|]; [|done].
      destruct (bool_decide (0 < length hosts)) eqn:Ne; [|done].
      apply L in Ne. destruct (Hh hosts eq_refl Ne) as (host & -> & T & I).
      apply truthy_nonempty in T. rewrite T. cbn. by rewrite bool_decide_true. }
    destruct (_allowedOrigins t) as [origins|]; [|done].
    destruct (bool_decide (0 < length origins)) eqn:Ne; [|done].
    apply L in Ne. destruct (hdr_origin request) as [origin|] eqn:O; [|done].
    destruct (truthy origin) eqn:T; [|done]. cbn.
    rewrite bool_decide_true; [done|].
    apply (Ho origins origin eq_refl Ne eq_refl). by apply truthy_nonempty.
Qed.

(** The requests that [validateRequestHeaders] lets through: all of them
    when the protection is off; otherwise those whose Host is on the list of
    hosts and whose Origin, if they have one, is on the list of origins,
    where an empty or missing list lets everything through.  A request
    without a Host header does not pass a list of hosts; a request without
    an Origin header passes any list of origins.  A request that is not let
    through is answered 400, whatever its method, and changes nothing. *)
Theorem header_validation t request :
  (validateRequestHeaders t request = None <->
   _enableDnsRebindingProtection t = false \/
   (forall hosts, _allowedHosts t = Some hosts -> hosts <> [] ->
      exists host, hdr_host request = Some host /\ host <> "" /\ host ∈ hosts) /\
   (forall origins origin, _allowedOrigins t = Some origins -> origins <> [] ->
      hdr_origin request = Some origin -> origin <> "" -> origin ∈ origins)) /\
  (forall validationError auth,
     validateRequestHeaders t request = Some validationError ->
     handleRequest t request auth =
       (t, [], Respond (jsonRpcError 400 (-32000) validationError))).
Proof.
  split; [apply validateRequestHeaders_None|].
  intros e auth E. unfold handleRequest. by rewrite E.
Qed.

End HeaderValidation.

(** ** The session state machine *)

Lemma same_session_kept t t' op `{Environment} :
  same_session t t' -> session_step t t' op.
Proof. intros [? ? ? ? ? ?]. by apply session_kept. Qed.

Section SessionMoves.
Context `{Environment}.

Lemma handlePostRequest_not_negotiated t request auth :
  negotiated request = false ->
  exists r, handlePostRequest t request auth = (t, [], Respond r) /\ 400 <= status r.
Proof.
  unfold negotiated, handlePostRequest. intros N.
  destruct (includes "application/json" (default "" (hdr_accept request))); cbn in *;
    [|eexists; split; [done|]; cbn; lia].
  destruct (includes "text/event-stream" (default "" (hdr_accept request))); cbn in *;
    [|eexists; split; [done|]; cbn; lia].
  rewrite N. cbn. eexists; split; [done|]; cbn; lia.
Qed.

Lemma deliver_same_session t messages extra :
  same_session t (deliver t messages extra).1.1.
Proof. apply post_delivery_same_session. Qed.

Lemma startSession_generator t :
  sessionIdGenerator (startSession t) = sessionIdGenerator t.
Proof. unfold startSession. by destruct (sessionIdGenerator t) eqn:E. Qed.


Lemma startSession_initialized t : _initialized (startSession t) = true.
Proof. done. Qed.

Lemma startSession_sessionId t :
  sessionId (startSession t) =
    (fun generator => generator (generatorCalls t)) <$> sessionIdGenerator t.
Proof. unfold startSession. by destruct (sessionIdGenerator t). Qed.

Lemma startSession_generatorCalls t :
  generatorCalls (startSession t) =
    match sessionIdGenerator t with
    | Some _ => S (generatorCalls t)
    | None => generatorCalls t
    end.
Proof. unfold startSession. by destruct (sessionIdGenerator t). Qed.

Lemma single_initialize messages :
  existsb isInitializeRequest messages = true -> ~ 1 < length messages ->
  exists m, messages = [m] /\ isInitializeRequest m = true.
Proof.
  destruct messages as [|m [|m' rest]]; cbn; [done| |lia].
  rewrite orb_false_r. eauto.
Qed.

Lemma run_op_session t op :
  sessionIdGenerator (run_op t op) = sessionIdGenerator t /\
  session_step t (run_op t op) op.
Proof.
  destruct op as [request auth|m related| |ref|ref]; cbn.
  - unfold handleRequest.
    destruct (validateRequestHeaders t request); [by split; [|apply session_kept]|].
    case_bool_decide as G.
    { pose proof (handleGetRequest_same_session t) as S.
      destruct (handleGetRequest t) as [t1 r]. cbn in *.
      split; [apply S|by apply same_session_kept]. }
    case_bool_decide as P.
    { destruct (negotiated request) eqn:N.
      - destruct (parseMessages (req_body request)) as [messages|] eqn:B.
        + destruct (existsb isInitializeRequest messages) eqn:I.
          * rewrite (handlePostRequest_initialize _ _ _ _ N B I).
            destruct (_initialized t && bool_decide (sessionId t <> None)) eqn:A;
              [by split; [|apply session_kept]|].
            destruct (bool_decide (1 < length messages)) eqn:L;
              [by split; [|apply session_kept]|].
            apply bool_decide_eq_false in L.
            destruct (single_initialize _ I L) as (m & -> & Im).
            pose proof (deliver_same_session (startSession t) [m]
                          {| authInfo := auth; requestInfo := request |})
              as [S1 S2 _ S4 _ S6].
            split.
            { by rewrite S1, startSession_generator. }
            by apply session_started with (m := m).
          * pose proof (handlePostRequest_other t _ auth _ N B I) as O.
            destruct (passes_checks t request).
            -- rewrite O.
               pose proof (deliver_same_session t messages
                             {| authInfo := auth; requestInfo := request |}) as S.
               split; [apply S|by apply same_session_kept].
            -- destruct O as (r & -> & _). by split; [|apply session_kept].
        + rewrite (handlePostRequest_unparsed _ _ _ N B). cbn.
          pose proof (reportError_same_session t) as S.
          split; [apply S|by apply same_session_kept].
      - destruct (handlePostRequest_not_negotiated t request auth N) as (r & -> & _).
        by split; [|apply session_kept]. }
    case_bool_decide as D; [|by split; [|apply session_kept]].
    unfold handleDeleteRequest.
    destruct (sessionIdGenerator t) as [g|] eqn:Eg; [|by split; [|apply session_kept]].
    destruct (hdr_mcp_session_id request) as [h|] eqn:Eh;
      [|by split; [|apply session_kept]].
    destruct (truthy h) eqn:T; cbn; [|by split; [|apply session_kept]].
    destruct (bool_decide (Some h = sessionId t)) eqn:S; cbn;
      [|by split; [|apply session_kept]].
    apply bool_decide_eq_true in S.
    split; [done|]. apply session_ended with (s := h); try done.
    by apply truthy_nonempty.
  - pose proof (send_same_session t m related) as S.
    split; [apply S|by apply same_session_kept].
  - pose proof (close_same_session t) as S.
    split; [apply S|by apply same_session_kept].
  - pose proof (cancelStandalone_same_session t ref) as S.
    split; [apply S|by apply same_session_kept].
  - pose proof (cancelRequestStream_same_session t ref) as S.
    split; [apply S|by apply same_session_kept].
Qed.

(** The session id, the initialized flag and the count of generator calls
    move in two ways only: a DELETE that presents the session id of a
    transport with sessions clears the first two, and a POST whose body is
    one initialize request, on a transport that is not both initialized
    and in a session, sets the flag and takes the next session id from the
    generator.  No other request, no [send], no [close()] and no
    cancellation touches them; the generator itself never changes. *)
Theorem session_moves t op :
  sessionIdGenerator (run_op t op) = sessionIdGenerator t /\
  session_step t (run_op t op) op.
Proof. apply run_op_session. Qed.

End SessionMoves.

Section SessionInvariants.
Context `{Environment}.

Lemma session_step_state t t' op :
  sessionIdGenerator t' = sessionIdGenerator t -> session_step t t' op ->
  session_state t -> session_state t'.
Proof.
  intros G S. unfold session_state. rewrite G.
  destruct S as [op S I C|request auth s M [g Eg] Hh Es Ne S I C
                |request auth m M B Im A S I C].
  - by rewrite S, I, C.
  - rewrite Eg. intros _. by left.
  - rewrite S, I, C, startSession_sessionId, startSession_generatorCalls.
    destruct (sessionIdGenerator t) as [g|]; cbn; [|done].
    intros _. right. by exists (generatorCalls t).
Qed.

Lemma run_ops_generator ops :
  forall t, sessionIdGenerator (run_ops t ops) = sessionIdGenerator t.
Proof.
  induction ops as [|op rest IH]; intros t; [done|].
  change (run_ops t (op :: rest)) with (run_ops (run_op t op) rest).
  rewrite IH. apply run_op_session.
Qed.

Lemma run_ops_session_state ops :
  forall t, session_state t -> session_state (run_ops t ops).
Proof.
  induction ops as [|op rest IH]; intros t S; [done|]. cbn. apply IH.
  destruct (run_op_session t op) as [G St]. by eapply session_step_state.
Qed.

Lemma initial_session_state options handler :
  session_state (connect handler (constructor options)).
Proof.
  unfold session_state. cbn. destruct (opt_sessionIdGenerator options); [by left|done].
Qed.

(** In every state that the transport reaches, the session fields agree:
    with a generator, the initialized flag is up exactly when there is a
    session id, and the session id is the value that the latest call of the
    generator gave; without a generator there is no session id. *)
Theorem session_fields_agree options handler ops :
  session_state (run_ops (connect handler (constructor options)) ops).
Proof. apply run_ops_session_state, initial_session_state. Qed.


Lemma session_step_retired generator k t t' op :
  (forall a b : nat, generator a = generator b -> a = b) ->
  sessionIdGenerator t = Some generator ->
  session_step t t' op ->
  k < generatorCalls t -> sessionId t <> Some (generator k) ->
  k < generatorCalls t' /\ sessionId t' <> Some (generator k).
Proof.
  intros Inj G St C N.
  destruct St as [op Es Ei Ec|request auth s M _ Hh Es Ne Es' Ei Ec
                 |request auth m M B Im A Es Ei Ec].
  - by rewrite Es, Ec.
  - by rewrite Es', Ec.
  - rewrite Es, Ec, startSession_sessionId, startSession_generatorCalls, G. cbn.
    split; [lia|]. intros [= E]. apply Inj in E. lia.
Qed.

Lemma run_ops_retired generator k ops :
  (forall a b : nat, generator a = generator b -> a = b) ->
  forall t,
    sessionIdGenerator t = Some generator ->
    k < generatorCalls t -> sessionId t <> Some (generator k) ->
    sessionId (run_ops t ops) <> Some (generator k).
Proof.
  intros Inj. induction ops as [|op rest IH]; intros t G C N; [done|].
  change (run_ops t (op :: rest)) with (run_ops (run_op t op) rest).
  destruct (run_op_session t op) as [Go St].
  destruct (session_step_retired generator k t _ op Inj G St C N) as [C' N'].
  apply IH; [congruence|done|done].
Qed.

(** A session id that a DELETE has retired is not accepted again, whatever
    follows, new sessions included, as long as the generator gives no value
    twice: the session id never has that value again, and a DELETE or a POST
    without an initialize message that presents it is answered 404. *)
Theorem retired_session_id_stays_retired options handler generator ops request ops' :
  opt_sessionIdGenerator options = Some generator ->
  (forall a b : nat, generator a = generator b -> a = b) ->
  let t := run_ops (connect handler (constructor options)) ops in
  status (handleDeleteRequest t request).2 = 204 ->
  let t' := run_ops (handleDeleteRequest t request).1 ops' in
  sessionId t' <> hdr_mcp_session_id request /\
  handleDeleteRequest t' request =
    (t', jsonRpcError 404 (-32001) "Session not found") /\
  (forall request' auth messages,
      hdr_mcp_session_id request' = hdr_mcp_session_id request ->
      negotiated request' = true ->
      parseMessages (req_body request') = Some messages ->
      existsb isInitializeRequest messages = false ->
      handlePostRequest t' request' auth =
        (t', [], Respond (jsonRpcError 404 (-32001) "Session not found"))).
Proof.
  intros O Inj t D.
  assert (G : sessionIdGenerator t = Some generator)
    by (unfold t; by rewrite run_ops_generator).
  pose proof (run_ops_session_state ops _ (initial_session_state options handler))
    as St.
  fold t in St. revert D. unfold handleDeleteRequest at 1 2. rewrite G.
  destruct (hdr_mcp_session_id request) as [h|] eqn:Hh; [|done].
  destruct (truthy h) eqn:T; cbn; [|done].
  destruct (bool_decide (Some h = sessionId t)) eqn:S; cbn; [|done].
  apply bool_decide_eq_true in S. intros _.
  unfold session_state in St. rewrite G in St.
  destruct St as [[St _]|(k & Ck & Sk & _)]; [congruence|].
  assert (h = generator k) as -> by congruence.
  set (t' := run_ops _ ops').
  assert (G' : sessionIdGenerator t' = Some generator)
    by (unfold t'; by rewrite run_ops_generator).
  assert (N' : sessionId t' <> Some (generator k)).
  { apply run_ops_retired; [done|done|cbn; lia|done]. }
  split; [done|]. split.
  - unfold handleDeleteRequest. rewrite G', Hh, T. cbn.
    by rewrite bool_decide_false by (by intros E; rewrite <- E in N').
  - intros request' auth messages Hd N P NI. unfold handlePostRequest.
    destruct (negotiated_guards _ N) as [-> ->]. rewrite P, NI, G', Hd, T. cbn.
    by rewrite bool_decide_false by (by intros E; rewrite <- E in N').
Qed.

End SessionInvariants.

(** ** What a GET and a DELETE leave out *)

Section GetAndDelete.
Context `{Environment}.

(** The answer to a GET depends on nothing in the request but the Host and
    Origin headers that the header validation reads: no session id and no
    protocol version is asked for.  So a GET that passes the header
    validation opens the standalone stream, when there is none, whatever
    session the transport is in and whatever session id the request
    presents. *)
Theorem get_is_not_session_checked t request auth :
  toUpperCase (req_method request) = "GET" ->
  (forall request' auth',
      toUpperCase (req_method request') = "GET" ->
      hdr_host request' = hdr_host request ->
      hdr_origin request' = hdr_origin request ->
      handleRequest t request' auth' = handleRequest t request auth) /\
  (validateRequestHeaders t request = None -> _standaloneStream t = None ->
   exists t' ref,
     handleRequest t request auth =
       (t', [], Respond {| status := 200; headers := sseHeaders t;
                           body := BodyEventStream ref |}) /\
     _standaloneStream t' = Some ref).
Proof.
  intros M. split.
  - intros request' auth' M' Hh Ho. unfold handleRequest.
    assert (validateRequestHeaders t request' = validateRequestHeaders t request) as ->.
    { unfold validateRequestHeaders. by rewrite Hh, Ho. }
    by rewrite M, M'.
  - intros V S. unfold handleRequest, handleGetRequest. rewrite V, M, S. cbn.
    by eexists _, _.
Qed.

Lemma send_session_fields a b t m related :
  send (set_initialized a (set_sessionId b t)) m related =
    (set_initialized a (set_sessionId b (send t m related).1), (send t m related).2).
Proof.
  unfold send, lookupStream, writeSseEvent, resolveOnStream. cbn.
  repeat (case_match; simplify_eq/=; try done).
Qed.

(** A DELETE and a call of [send] do not see each other: in either order
    they give the same answer, the same outcome and the same transport.  A
    DELETE that ends the session therefore leaves every stream registered
    and open, and what is sent afterwards is delivered as it would have
    been. *)
Theorem delete_and_send_commute t request m related :
  let '(t1, response) := handleDeleteRequest t request in
  let '(t2, outcome) := send t m related in
  send t1 m related = ((handleDeleteRequest t2 request).1, outcome) /\
  (handleDeleteRequest t2 request).2 = response.
Proof.
  pose proof (send_same_session t m related) as [G _ _ S _ _].
  pose proof (send_session_fields false None t m related) as F.
  destruct (send t m related) as [t2 o] eqn:E. cbn in G, S, F.
  unfold handleDeleteRequest. rewrite G, S.
  destruct (sessionIdGenerator t); [|by rewrite E].
  destruct (hdr_mcp_session_id request) as [h|]; [|by rewrite E].
  destruct (negb (truthy h)); [by rewrite E|].
  destruct (bool_decide (Some h = sessionId t)); [|by rewrite E].
  by rewrite F.
Qed.

End GetAndDelete.

(** ** Messages that are not replies *)

Lemma with_events_nil st : with_events st [] = st.
Proof. destruct st. unfold with_events. cbn. by rewrite app_nil_r. Qed.

Lemma with_events_cons st m events :
  with_events (enqueue m st) events = with_events st (m :: events).
Proof. unfold with_events. cbn. by rewrite <- app_assoc. Qed.

Lemma set_objects_id t : set_objects (objects t) t = t.
Proof. by destruct t. Qed.

(** The messages that the server sends on its own account, related to no
    request, go to the standalone stream in the order in which they are
    sent, and nothing else changes; when there is no standalone stream they
    are dropped, and [send] returns as if they had been sent. *)
Theorem unrelated_messages_reach_the_standalone_stream t messages :
  Forall (fun m => isReply m = false) messages ->
  match _standaloneStream t with
  | Some ref =>
      forall st, objects t !! ref = Some st -> closed st = false ->
        run_sends t (unrelated messages) =
          (set_objects (<[ref := with_events st messages]> (objects t)) t,
           replicate (length messages) Sent)
  | None => run_sends t (unrelated messages) = (t, replicate (length messages) Sent)
  end.
Proof.
  revert t. induction messages as [|m rest IH]; intros t F.
  { destruct (_standaloneStream t) as [ref|]; [|done]. intros st E C. cbn.
    by rewrite with_events_nil, list_insert_id, set_objects_id. }
  apply Forall_cons in F as [R F]. cbn. fold (unrelated rest).
  destruct (_standaloneStream t) as [ref|] eqn:S.
  - intros st E C. unfold send. rewrite R, S, (writeSseEvent_open _ _ _ _ E C).
    set (t1 := set_objects _ t).
    assert (E1 : objects t1 !! ref = Some (enqueue m st)).
    { cbn. apply list_lookup_insert_eq. by eapply lookup_lt_Some. }
    specialize (IH t1 F). change (_standaloneStream t1) with (_standaloneStream t) in IH.
    rewrite S in IH. rewrite (IH _ E1 C). cbn.
    by rewrite list_insert_insert_eq, with_events_cons.
  - unfold send. rewrite R, S. specialize (IH t F). rewrite S in IH. by rewrite IH.
Qed.

(** In SSE mode the messages that relate to a pending request and are not
    its reply, such as progress notifications, are written to the stream of
    that request in the order in which they are sent; the request stays
    pending and the stream stays open and registered. *)
Theorem progress_events_keep_the_stream_open t ref st r progress :
  _enableJsonResponse t = false -> owns t ref st -> r ∈ pendingIds st ->
  Forall (fun m => isReply m = false) progress ->
  let '(t1, outcomes) := run_sends t (related_to r progress) in
  outcomes = replicate (length progress) Sent /\
  owns t1 ref (with_events st progress).
Proof.
  revert t st. induction progress as [|m rest IH]; intros t st J O P F.
  { cbn. by rewrite with_events_nil. }
  apply Forall_cons in F as [R F]. cbn. fold (related_to r rest).
  destruct (send_progress_owned t ref st m r J O P R) as (t1 & E & O1).
  assert (J1 : _enableJsonResponse t1 = false).
  { pose proof (send_same_session t m (Some r)) as [_ _ Sj _ _ _].
    rewrite E in Sj. cbn in Sj. congruence. }
  rewrite E. specialize (IH t1 (enqueue m st) J1 O1 P F).
  destruct (run_sends t1 (related_to r rest)) as [t2 os].
  destruct IH as [-> O2]. by rewrite <- with_events_cons.
Qed.

(** ** POSTs that are waiting when the transport is closed *)

Lemma run_sends_keeps_unreachable calls :
  forall t p, unreachable t p -> unreachable (run_sends t calls).1 p.
Proof.
  induction calls as [|[m related] rest IH]; intros t p U; [done|]. cbn.
  pose proof (send_unreachable t m related p U) as U1.
  destruct (send t m related) as [t1 o]. specialize (IH t1 p U1).
  by destruct (run_sends t1 rest).
Qed.

Lemma unreachable_frame t t' p :
  promises t' = promises t -> _pendingJsonResponses t' = _pendingJsonResponses t ->
  unreachable t p -> unreachable t' p.
Proof. unfold unreachable. by intros -> ->. Qed.

Lemma registerJson_unreachable ids :
  forall t p, unreachable t p -> unreachable (registerJson t ids).1 p.
Proof.
  induction ids as [|i rest IH]; intros t p [P N]; [done|]. cbn.
  match goal with |- context [registerJson ?u rest] =>
    specialize (IH u p); destruct (registerJson u rest) as [t3 ps] end.
  apply IH. split; cbn.
  - rewrite lookup_app_l; [done|by eapply lookup_lt_Some].
  - intros r. destruct (decide (i = r)) as [->|Ne].
    + rewrite lookup_insert_eq. intros [= E]. apply lookup_lt_Some in P. lia.
    + by rewrite lookup_insert_ne.
Qed.

Lemma registerPending_promises streamId messages :
  forall t pending,
    promises (registerPending t streamId messages pending).1 = promises t /\
    _pendingJsonResponses (registerPending t streamId messages pending).1 =
      _pendingJsonResponses t.
Proof.
  intros t pending.
  by destruct (registerPending_spec streamId messages t pending) as (index & -> & _).
Qed.

Section Abandoned.
Context `{Environment}.

Lemma deliver_unreachable t messages extra p :
  unreachable t p -> unreachable (deliver t messages extra).1.1 p.
Proof.
  intros U. unfold deliver. destruct (negb _).
  { pose proof (run_sends_keeps_unreachable (handler_calls t messages extra) t p U) as D.
    rewrite <- dispatch_run_sends in D. by destruct (dispatch t messages extra). }
  destruct (_enableJsonResponse t).
  - unfold collectJsonResponses.
    pose proof (registerJson_unreachable (requestIdsOf messages) t p U) as R.
    destruct (registerJson t (requestIdsOf messages)) as [t1 ps].
    pose proof (run_sends_keeps_unreachable (handler_calls t1 messages extra) t1 p R) as D.
    rewrite <- dispatch_run_sends in D. by destruct (dispatch t1 messages extra).
  - unfold createSseResponse, registerSse.
    destruct (registerPending_promises (randomUUID (uuidCalls t)) messages (tick_uuid t) ∅)
      as [P Q].
    destruct (registerPending (tick_uuid t) _ messages ∅) as [t2 pending].
    match goal with |- context [dispatch ?u messages extra] =>
      assert (R : unreachable u p) by (by apply (unreachable_frame t));
      pose proof (run_sends_keeps_unreachable (handler_calls u messages extra) u p R) as D;
      rewrite <- dispatch_run_sends in D; by destruct (dispatch u messages extra) end.
Qed.

Lemma run_op_unreachable t op p : unreachable t p -> unreachable (run_op t op) p.
Proof.
  intros U. destruct op as [request auth|m related| |ref|ref]; cbn.
  - unfold handleRequest. destruct (validateRequestHeaders t request); [done|].
    destruct (bool_decide (_ = "GET")).
    { unfold handleGetRequest. by destruct (_standaloneStream t). }
    destruct (bool_decide (_ = "POST")).
    { destruct (handlePostRequest_cases t request auth)
        as [(t1 & r & S & ->)|(messages & t1 & _ & S & ->)].
      - destruct S. by apply (unreachable_frame t).
      - apply (deliver_unreachable t1 messages). destruct S.
        by apply (unreachable_frame t). }
    destruct (bool_decide (_ = "DELETE")); [|done].
    pose proof (handleDeleteRequest_session_only t request) as S.
    destruct (handleDeleteRequest t request) as [t1 r]. destruct S.
    by apply (unreachable_frame t).
  - by apply send_unreachable.
  - destruct U as [P _]. unfold close.
    destruct (onclose _); split; cbn; try done; intros r; by rewrite lookup_empty.
  - by apply (unreachable_frame t).
  - unfold cancelRequestStream. destruct (objects t !! ref); [|done].
    by apply (unreachable_frame t).
Qed.

Lemma resume_needs_every_promise t ps p :
  p ∈ ps -> promises t !! p = Some None -> resumeJsonResponse t ps = None.
Proof.
  intros I P. unfold resumeJsonResponse, awaitAll.
  destruct (mapM _ ps) as [values|] eqn:M; [|done].
  apply mapM_Some in M. apply list_elem_of_lookup in I as [i I].
  destruct (Forall2_lookup_l _ _ _ _ _ M I) as (v & _ & E).
  by rewrite P in E.
Qed.

(** [close()] abandons the POSTs that wait for their responses in JSON
    mode: it forgets their promises without settling them, and nothing that
    happens afterwards settles a promise that was pending, so the response
    of such a POST is never made. *)
Theorem close_abandons_waiting_posts t ps p ops :
  p ∈ ps -> promises t !! p = Some None ->
  resumeJsonResponse (run_ops (close t) ops) ps = None.
Proof.
  intros I P. apply (resume_needs_every_promise _ _ p I).
  assert (U : unreachable (close t) p).
  { unfold close. destruct (onclose _); split; cbn; try done;
      intros r; by rewrite lookup_empty. }
  revert U. generalize (close t). clear P.
  induction ops as [|op rest IH]; intros u U; [apply U|].
  apply (IH (run_op u op)). by apply run_op_unreachable.
Qed.

End Abandoned.

(** ** POSTs without a request object, and bodies that do not parse *)





Section Accepted.
Context `{Environment}.


(** One element that the schema does not accept turns the whole batch
    down: the answer is 400 with the code -32700, [onerror] is called, once,
    when it is installed, and no message of the batch reaches the handler,
    not even the valid ones before the invalid one. *)
Theorem invalid_element_rejects_the_batch t request auth items :
  negotiated request = true ->
  req_body request = BodyArray items -> None ∈ items ->
  handlePostRequest t request auth =
    (reportError t, [], Respond (jsonRpcError 400 (-32700) "Parse error")) /\
  onerrorCalls (reportError t) =
    (if onerror t then S (onerrorCalls t) else onerrorCalls t) /\
  objects (reportError t) = objects t /\ promises (reportError t) = promises t /\
  same_session t (reportError t) /\ session_only t (reportError t).
Proof.
  intros N B I. split.
  - apply handlePostRequest_unparsed; [done|]. rewrite B. cbn.
    destruct (mapM (fun x => x) items) as [messages|] eqn:M; [|done].
    apply mapM_Some in M. apply list_elem_of_lookup in I as [i I].
    by destruct (Forall2_lookup_l _ _ _ _ _ M I) as (v & _ & E).
  - unfold reportError. by destruct (onerror t).
Qed.



End Accepted.

(** ** Controllers that are written to *)

Lemma streams_open_frame t t' :
  _streams t' = _streams t -> _standaloneStream t' = _standaloneStream t ->
  objects t' = objects t -> streams_open t -> streams_open t'.
Proof. intros S P O [M A]. split; rewrite ?S, ?P, ?O; done. Qed.

(** An update of one object that keeps its stream id and leaves it open. *)
Lemma streams_open_update t ref st st' :
  objects t !! ref = Some st -> stream_id st' = stream_id st -> closed st' = false ->
  streams_open t -> streams_open (set_objects (<[ref := st']> (objects t)) t).
Proof.
  intros E I C [M A]. split; cbn.
  - intros streamId ref' L. destruct (M _ _ L) as (st0 & E0 & I0 & C0).
    destruct (decide (ref' = ref)) as [->|Ne].
    + exists st'. rewrite list_lookup_insert_eq by (by eapply lookup_lt_Some).
      split; [done|]. split; [congruence|done].
    + exists st0. by rewrite list_lookup_insert_ne.
  - intros ref' P. destruct (A _ P) as [(st0 & E0 & C0) N]. split; [|done].
    destruct (decide (ref' = ref)) as [->|Ne].
    + exists st'. by rewrite list_lookup_insert_eq by (by eapply lookup_lt_Some).
    + exists st0. by rewrite list_lookup_insert_ne.
Qed.

(** Closing an object that neither the stream map nor the standalone
    pointer holds any longer. *)
Lemma streams_open_drop t t' ref f :
  objects t' = alter f ref (objects t) ->
  (forall streamId ref', _streams t' !! streamId = Some ref' ->
                         _streams t !! streamId = Some ref' /\ ref' <> ref) ->
  (forall ref', _standaloneStream t' = Some ref' ->
                _standaloneStream t = Some ref' /\ ref' <> ref) ->
  streams_open t -> streams_open t'.
Proof.
  intros O S P [M A]. split.
  - intros streamId ref' L. destruct (S _ _ L) as [L0 Ne].
    destruct (M _ _ L0) as (st0 & E0 & I0 & C0). exists st0.
    by rewrite O, list_lookup_alter_ne.
  - intros ref' Q. destruct (P _ Q) as [Q0 Ne].
    destruct (A _ Q0) as [(st0 & E0 & C0) N]. split.
    + exists st0. by rewrite O, list_lookup_alter_ne.
    + intros streamId L. destruct (S _ _ L) as [L0 _]. by apply N in L0.
Qed.

Lemma lookupStream_Some t r ref :
  lookupStream t r = Some ref -> exists streamId, _streams t !! streamId = Some ref.
Proof.
  unfold lookupStream. destruct (_requestToStream t !! r) as [streamId|]; [|done].
  destruct (truthy streamId); [|done]. eauto.
Qed.

Lemma resolveOnStream_streams_open t ref r st :
  objects t !! ref = Some st -> closed st = false ->
  (exists streamId, _streams t !! streamId = Some ref) ->
  streams_open t -> streams_open (resolveOnStream t ref r).
Proof.
  intros E C [streamId L] O.
  assert (I : stream_id st = streamId).
  { destruct (open_streams t O _ _ L) as (st0 & E0 & I0 & _). congruence. }
  assert (Ns : _standaloneStream t <> Some ref).
  { intros P. by destruct (open_standalone t O _ P) as [_ N]; apply N in L. }
  assert (O1 : streams_open (set_objects (<[ref := delete_pending r st]> (objects t)) t))
    by (by apply (streams_open_update t ref st)).
  unfold resolveOnStream. cbn. rewrite list_lookup_alter_eq, E. cbn.
  assert (A1 : alter (delete_pending r) ref (objects t) =
               <[ref := delete_pending r st]> (objects t)).
  { apply list_eq. intros i. destruct (decide (i = ref)) as [->|Ne].
    - rewrite list_lookup_alter_eq, E.
      by rewrite list_lookup_insert_eq by (by eapply lookup_lt_Some).
    - by rewrite list_lookup_alter_ne, list_lookup_insert_ne. }
  rewrite A1. destruct (bool_decide _).
  2: { by apply (streams_open_frame
                   (set_objects (<[ref := delete_pending r st]> (objects t)) t)). }
  eapply (streams_open_drop
            (set_objects (<[ref := delete_pending r st]> (objects t)) t)
            _ ref close_controller); [done| | |exact O1]; cbn.
  - intros streamId' ref' L'.
    destruct (decide (streamId' = stream_id st)) as [->|Ne].
    { by rewrite lookup_delete_eq in L'. }
    rewrite lookup_delete_ne in L' by done. split; [done|]. intros ->.
    destruct (open_streams t O _ _ L') as (st0 & E0 & I0 & _). congruence.
  - intros ref' P. split; [done|]. congruence.
Qed.

Lemma send_streams_open t m related :
  streams_open t ->
  streams_open (send t m related).1 /\ (send t m related).2 <> ThrowEnqueue.
Proof.
  intros O. unfold send.
  destruct (if isReply m then message_id m else related) as [r|].
  - destruct (_enableJsonResponse t).
    { destruct (_pendingJsonResponses t !! r); [|done].
      split; [|done]. by apply (streams_open_frame t). }
    destruct (lookupStream t r) as [ref|] eqn:L; [|done].
    destruct (lookupStream_Some _ _ _ L) as [streamId Ls].
    destruct (open_streams t O _ _ Ls) as (st & E & I & C).
    rewrite (writeSseEvent_open _ _ _ _ E C).
    assert (O1 : streams_open (set_objects (<[ref := enqueue m st]> (objects t)) t))
      by (by apply (streams_open_update t ref st)).
    destruct (isReply m); [|done]. split; [|done].
    apply (resolveOnStream_streams_open _ _ _ (enqueue m st)); cbn; try done.
    + apply list_lookup_insert_eq. by eapply lookup_lt_Some.
    + by exists streamId.
  - destruct (isReply m); [done|].
    destruct (_standaloneStream t) as [ref|] eqn:P; [|done].
    destruct (open_standalone t O _ P) as [(st & E & C) _].
    rewrite (writeSseEvent_open _ _ _ _ E C). split; [|done].
    by apply (streams_open_update t ref st).
Qed.

Lemma run_sends_streams_open calls :
  forall t, streams_open t ->
            streams_open (run_sends t calls).1 /\ ThrowEnqueue ∉ (run_sends t calls).2.
Proof.
  induction calls as [|[m related] rest IH]; intros t O.
  { split; [done|apply not_elem_of_nil]. }
  cbn. destruct (send_streams_open t m related O) as [O1 N1].
  destruct (send t m related) as [t1 o]. destruct (IH t1 O1) as [O2 N2].
  destruct (run_sends t1 rest) as [t2 os]. cbn in *. split; [done|].
  apply not_elem_of_cons. split; [congruence|done].
Qed.

Lemma registerPending_streams streamId messages t pending :
  _streams (registerPending t streamId messages pending).1 = _streams t /\
  _standaloneStream (registerPending t streamId messages pending).1 = _standaloneStream t /\
  objects (registerPending t streamId messages pending).1 = objects t.
Proof.
  by destruct (registerPending_spec streamId messages t pending) as (index & -> & _).
Qed.

Lemma registerJson_streams ids :
  forall t, _streams (registerJson t ids).1 = _streams t /\
            _standaloneStream (registerJson t ids).1 = _standaloneStream t /\
            objects (registerJson t ids).1 = objects t.
Proof.
  intros t. by destruct (registerJson_spec ids t) as (pending & -> & _).
Qed.

Section OpenStreams.
Context `{Environment}.

Lemma handleGetRequest_streams_open t :
  streams_open t -> streams_open (handleGetRequest t).1.
Proof.
  intros O. unfold handleGetRequest. destruct (_standaloneStream t) eqn:P; [done|].
  destruct O as [M A]. split; cbn.
  - intros streamId ref L. destruct (M _ _ L) as (st & E & I & C). exists st.
    split; [by apply lookup_app_l_Some|done].
  - intros ref [= <-]. split.
    + eexists. split; [by apply list_lookup_middle|done].
    + intros streamId L. destruct (M _ _ L) as (st & E & _).
      apply lookup_lt_Some in E. lia.
Qed.

Lemma registerSse_streams_open t messages :
  streams_open t -> streams_open (registerSse t messages).1.
Proof.
  intros [M A]. unfold registerSse.
  destruct (registerPending_spec (randomUUID (uuidCalls t)) messages (tick_uuid t) ∅)
    as (index & -> & _ & _).
  split; cbn.
  - intros streamId ref.
    destruct (decide (randomUUID (uuidCalls t) = streamId)) as [<-|Ne].
    + rewrite lookup_insert_eq. intros [= <-]. eexists.
      split; [by apply list_lookup_middle|done].
    + rewrite lookup_insert_ne by done. intros L.
      destruct (M _ _ L) as (st & E & I & C). exists st.
      split; [by apply lookup_app_l_Some|done].
  - intros ref P. destruct (A _ P) as [(st & E & C) N]. split.
    + exists st. split; [by apply lookup_app_l_Some|done].
    + intros streamId.
      destruct (decide (randomUUID (uuidCalls t) = streamId)) as [<-|Ne].
      * rewrite lookup_insert_eq. intros [= <-]. apply lookup_lt_Some in E. lia.
      * rewrite lookup_insert_ne by done. apply N.
Qed.

Lemma deliver_streams_open t messages extra :
  streams_open t ->
  streams_open (deliver t messages extra).1.1 /\
  ThrowEnqueue ∉ (deliver t messages extra).1.2.
Proof.
  intros O. unfold deliver. destruct (negb _).
  { rewrite dispatch_run_sends.
    destruct (run_sends_streams_open (handler_calls t messages extra) t O) as [O1 N1].
    by destruct (run_sends t _). }
  destruct (_enableJsonResponse t).
  - unfold collectJsonResponses.
    destruct (registerJson_streams (requestIdsOf messages) t) as (S & P & Ob).
    destruct (registerJson t (requestIdsOf messages)) as [t1 ps]. cbn in *.
    assert (O1 : streams_open t1) by (by apply (streams_open_frame t)).
    rewrite dispatch_run_sends.
    destruct (run_sends_streams_open (handler_calls t1 messages extra) t1 O1) as [O2 N2].
    by destruct (run_sends t1 _).
  - unfold createSseResponse.
    pose proof (registerSse_streams_open t messages O) as O1.
    destruct (registerSse t messages) as [t1 ref]. cbn in *.
    rewrite dispatch_run_sends.
    destruct (run_sends_streams_open (handler_calls t1 messages extra) t1 O1) as [O2 N2].
    by destruct (run_sends t1 _).
Qed.

Lemma handleRequest_streams_open t request auth :
  streams_open t ->
  streams_open (handleRequest t request auth).1.1 /\
  ThrowEnqueue ∉ (handleRequest t request auth).1.2.
Proof.
  intros O. unfold handleRequest.
  destruct (validateRequestHeaders t request); [split; [done|apply not_elem_of_nil]|].
  destruct (bool_decide (_ = "GET")).
  { pose proof (handleGetRequest_streams_open t O) as G.
    destruct (handleGetRequest t). split; [done|apply not_elem_of_nil]. }
  destruct (bool_decide (_ = "POST")).
  { destruct (handlePostRequest_cases t request auth)
      as [(t1 & r & S & ->)|(messages & t1 & _ & S & ->)].
    - destruct S. split; [by apply (streams_open_frame t)|apply not_elem_of_nil].
    - apply (deliver_streams_open t1 messages). destruct S.
      by apply (streams_open_frame t). }
  destruct (bool_decide (_ = "DELETE")); [|split; [done|apply not_elem_of_nil]].
  pose proof (handleDeleteRequest_session_only t request) as S.
  destruct (handleDeleteRequest t request) as [t1 r]. destruct S.
  split; [by apply (streams_open_frame t)|apply not_elem_of_nil].
Qed.

Lemma run_op_streams_open t op :
  cancel_fits t op -> streams_open t -> streams_open (run_op t op).
Proof.
  intros F O. destruct op as [request auth|m related| |ref|ref]; cbn in *.
  - by apply handleRequest_streams_open.
  - by apply send_streams_open.
  - unfold close. destruct (onclose _); split; cbn; try done;
      intros streamId ref; by rewrite lookup_empty.
  - eapply (streams_open_drop t _ ref cancel_controller); [done| |done|done].
    cbn. intros streamId ref' L. split; [done|]. intros ->. by apply F in L.
  - unfold cancelRequestStream. destruct (objects t !! ref) as [st|] eqn:E; [|done].
    eapply (streams_open_drop t _ ref cancel_controller); [done| | |done]; cbn.
    + intros streamId ref' L.
      destruct (decide (streamId = stream_id st)) as [->|Ne].
      { by rewrite lookup_delete_eq in L. }
      rewrite lookup_delete_ne in L by done. split; [done|]. intros ->.
      destruct (open_streams t O _ _ L) as (st0 & E0 & I0 & _). congruence.
    + intros ref' P. split; [done|]. congruence.
Qed.

Lemma run_ops_streams_open ops :
  forall t, cancels_fit t ops -> streams_open t -> streams_open (run_ops t ops).
Proof.
  induction ops as [|op rest IH]; intros t F O; [done|]. destruct F as [F1 F2].
  apply (IH (run_op t op)); [done|by apply run_op_streams_open].
Qed.

(** The transport never writes to a closed controller.  In every state it
    reaches, the streams of the stream map and the standalone stream are
    open, so no call of [send], by the server or by the handler during a
    request, fails in [controller.enqueue]: a stream that is closed or
    cancelled leaves the stream map, or the standalone pointer, in the
    same step. *)
Theorem send_never_meets_a_closed_controller options handler ops :
  cancels_fit (connect handler (constructor options)) ops ->
  let t := run_ops (connect handler (constructor options)) ops in
  streams_open t /\
  (forall m related, (send t m related).2 <> ThrowEnqueue) /\
  (forall request auth, ThrowEnqueue ∉ (handleRequest t request auth).1.2).
Proof.
  intros F t.
  assert (O : streams_open t).
  { apply run_ops_streams_open; [done|]. split; cbn; [|done].
    intros streamId ref. by rewrite lookup_empty. }
  split; [done|]. split.
  - intros m related. by apply send_streams_open.
  - intros request auth. by apply handleRequest_streams_open.
Qed.

End OpenStreams.

(** ** Streams that their reader cancels *)

Lemma delete_all_lookup_eq ids (index : gmap RequestId string) r :
  r ∈ ids -> delete_all ids index !! r = None.
Proof.
  induction ids as [|i rest IH]; [by intros ?%elem_of_nil|].
  intros [->|In]%elem_of_cons; cbn; [apply lookup_delete_eq|].
  destruct (decide (i = r)) as [->|Ne]; [apply lookup_delete_eq|].
  rewrite lookup_delete_ne by done. by apply IH.
Qed.

(** When the reader of a request-bound stream cancels it, the stream
    leaves the stream map and its pending ids leave the reverse index: in
    SSE mode a response or an error for one of these ids is then refused
    with the error "No connection established", and nothing is written. *)
Theorem cancelled_stream_refuses_replies t ref st m related r :
  _enableJsonResponse t = false -> owns t ref st -> r ∈ pendingIds st ->
  isReply m = true -> message_id m = Some r ->
  let t' := cancelRequestStream t ref in
  _streams t' !! stream_id st = None /\
  (forall r', r' ∈ pendingIds st -> _requestToStream t' !! r' = None) /\
  send t' m related = (t', ThrowNoConnection r).
Proof.
  intros J O P R I. unfold cancelRequestStream. rewrite (owns_object _ _ _ O). cbn zeta.
  set (t' := set_requestToStream _ _).
  assert (D : forall r', r' ∈ pendingIds st -> _requestToStream t' !! r' = None).
  { intros r' P'. cbn. apply delete_all_lookup_eq. by apply elem_of_elements. }
  split; [cbn; apply lookup_delete_eq|]. split; [done|].
  unfold send. rewrite R, I. change (_enableJsonResponse t') with (_enableJsonResponse t).
  rewrite J. unfold lookupStream. by rewrite (D r P).
Qed.

(** * The callers of the transport *)

(** ** Strings *)

Lemma includes_char c d rest :
  includes (String c "") (String d rest) =
    bool_decide (d = c) || includes (String c "") rest.
Proof.
  cbn. destruct (Ascii.ascii_dec c d) as [->|Ne].
  - rewrite bool_decide_true by done. by destruct rest.
  - by rewrite bool_decide_false by congruence.
Qed.

Lemma includes_char_empty c : includes (String c "") "" = false.
Proof. done. Qed.

Lemma includes_char_app c a b :
  includes (String c "") (a +:+ b) = includes (String c "") a || includes (String c "") b.
Proof.
  induction a as [|d a IH]; [done|].
  change (String d a +:+ b) with (String d (a +:+ b)).
  by rewrite !includes_char, IH, orb_assoc.
Qed.

Lemma splitString_nonempty c s : splitString c s <> [].
Proof.
  destruct s as [|d s]; cbn; [done|].
  destruct (bool_decide (d = c)); [done|]. by destruct (splitString c s).
Qed.

(** No piece holds the separator. *)
Lemma splitString_pieces c s piece :
  piece ∈ splitString c s -> includes (String c "") piece = false.
Proof.
  revert piece. induction s as [|d s IH]; intros piece; cbn.
  { by intros ->%list_elem_of_singleton. }
  destruct (bool_decide (d = c)) eqn:D.
  - intros [->|I]%elem_of_cons; [done|by apply IH].
  - destruct (splitString c s) as [|first pieces] eqn:S.
    { intros ->%list_elem_of_singleton. by rewrite includes_char, D. }
    intros [->|I]%elem_of_cons.
    + rewrite includes_char, D. apply IH, list_elem_of_here.
    + apply IH. by apply list_elem_of_further.
Qed.

(** A string without the separator is its one piece, and the pieces of
    two strings joined by the separator are the pieces of both. *)
Lemma splitString_whole c s :
  includes (String c "") s = false -> splitString c s = [s].
Proof.
  induction s as [|d s IH]; [done|]. rewrite includes_char.
  intros [D I]%orb_false_elim. cbn. by rewrite D, (IH I).
Qed.

Lemma splitString_joined c a b :
  includes (String c "") a = false ->
  splitString c (a +:+ String c b) = a :: splitString c b.
Proof.
  induction a as [|d a IH]; intros I.
  { change ("" +:+ String c b) with (String c b). cbn [splitString].
    by rewrite bool_decide_true. }
  rewrite includes_char in I. apply orb_false_elim in I as [D I].
  change (String d a +:+ String c b) with (String d (a +:+ String c b)).
  cbn [splitString]. rewrite D. by rewrite (IH I).
Qed.

(** What [trim] leaves has no white space at its ends, and a string
    without white space at its ends is left as it is. *)
Lemma trimStart_clean s : no_space_at_start (trimStart s).
Proof.
  induction s as [|c s IH]; [done|]. cbn. by destruct (isWhiteSpace c) eqn:W.
Qed.

Lemma trimStart_id s : no_space_at_start s -> trimStart s = s.
Proof. destruct s as [|c s]; [done|]. cbn. by intros ->. Qed.

Lemma trimEnd_idempotent s : trimEnd (trimEnd s) = trimEnd s.
Proof.
  induction s as [|c s IH]; [done|]. cbn.
  destruct (trimEnd s) as [|d kept] eqn:E.
  - destruct (isWhiteSpace c) eqn:W; [done|]. cbn. by rewrite W.
  - cbn. cbn in IH. by rewrite IH.
Qed.

Lemma trimEnd_start s : no_space_at_start s -> no_space_at_start (trimEnd s).
Proof.
  destruct s as [|c s]; [done|]. cbn. intros W.
  destruct (trimEnd s); [by rewrite W|done].
Qed.

Lemma trim_idempotent s : trim (trim s) = trim s.
Proof.
  unfold trim.
  rewrite (trimStart_id (trimEnd (trimStart s)))
    by apply trimEnd_start, trimStart_clean.
  apply trimEnd_idempotent.
Qed.

(** [trim] takes code units away and adds none. *)
Lemma trimStart_includes c s :
  includes (String c "") s = false -> includes (String c "") (trimStart s) = false.
Proof.
  induction s as [|d s IH]; [done|]. rewrite includes_char.
  intros [D I]%orb_false_elim. cbn. destruct (isWhiteSpace d); [by apply IH|].
  by rewrite includes_char, D.
Qed.

Lemma trimEnd_includes c s :
  includes (String c "") s = false -> includes (String c "") (trimEnd s) = false.
Proof.
  induction s as [|d s IH]; [done|]. rewrite includes_char.
  intros [D I]%orb_false_elim. cbn. specialize (IH I).
  destruct (trimEnd s) as [|e kept].
  - destruct (isWhiteSpace d); [done|]. by rewrite includes_char, D.
  - by rewrite includes_char, D.
Qed.

Lemma trim_includes c s :
  includes (String c "") s = false -> includes (String c "") (trim s) = false.
Proof. intros I. by apply trimEnd_includes, trimStart_includes. Qed.

(** ** Lists of hosts and origins *)

Lemma parseCsv_csv_entry value entry : entry ∈ parseCsv value -> csv_entry entry.
Proof.
  unfold parseCsv. destruct value as [value|]; [|by intros ?%elem_of_nil].
  destruct (negb (truthy value)); [by intros ?%elem_of_nil|].
  rewrite list_elem_of_In, filter_In, in_map_iff.
  intros [(piece & <- & I) T]. apply list_elem_of_In in I.
  split; [by apply truthy_nonempty|]. split; [apply trim_idempotent|].
  by apply trim_includes, (splitString_pieces _ value).
Qed.

(** Every entry that [parseCsv] gives is non-empty, has no white space at
    its ends and holds no comma; an environment value that is not set or
    empty gives no entry. *)
Theorem parseCsv_entries value :
  Forall csv_entry (parseCsv value) /\
  (value = None \/ value = Some "" -> parseCsv value = []).
Proof.
  split.
  - apply Forall_forall. intros entry. apply parseCsv_csv_entry.
  - by intros [->| ->].
Qed.

Lemma splitString_concat entries :
  entries <> [] -> Forall (fun entry => includes "," entry = false) entries ->
  splitString "," (String.concat "," entries) = entries.
Proof.
  induction entries as [|entry rest IH]; [done|]. intros _ F.
  apply Forall_cons in F as [I F]. destruct rest as [|next rest].
  { cbn. by apply splitString_whole. }
  change (String.concat "," (entry :: next :: rest))
    with (entry +:+ String "," (String.concat "," (next :: rest))).
  rewrite splitString_joined by done. f_equal. by apply IH.
Qed.

(** [parseCsv] reads back a list of such entries from the entries joined
    by commas. *)
Theorem parseCsv_of_joined entries :
  Forall csv_entry entries ->
  parseCsv (Some (String.concat "," entries)) = entries.
Proof.
  intros F. unfold parseCsv. destruct entries as [|entry rest]; [done|].
  assert (T : truthy (String.concat "," (entry :: rest)) = true).
  { apply Forall_cons in F as [(Ne & _) _]. destruct entry; [done|].
    by destruct rest. }
  rewrite T. cbn [negb].
  rewrite splitString_concat; [|done|].
  2: { eapply Forall_impl; [exact F|]. by intros e (_ & _ & I). }
  assert (M : map trim (entry :: rest) = entry :: rest).
  { clear T. induction F as [|e es (_ & Tr & _) F IH]; [done|]. cbn. by rewrite Tr, IH. }
  rewrite M. clear T M.
  induction F as [|e es (Ne & _) F IH]; [done|]. cbn.
  apply truthy_nonempty in Ne. by rewrite Ne, IH.
Qed.

(** ** The Authorization header *)

Section AuthorizationHeader.
Context `{BufferEncoding}.

(** What [formatAuthorizationHeader] writes for the bearer scheme,
    [parseAuthorizationHeader] reads back: a token that is not empty and
    holds no space comes back without the white space at its ends. *)
Theorem bearer_header_round_trip token :
  token <> "" -> includes " " token = false ->
  parseAuthorizationHeader (Some (formatAuthorizationHeader token bearer)) =
    Some (trim token).
Proof.
  intros Ne I. unfold parseAuthorizationHeader, formatAuthorizationHeader.
  change ("Bearer " +:+ token) with ("Bearer" +:+ String " " token).
  rewrite splitString_joined by done. rewrite (splitString_whole _ _ I).
  apply truthy_nonempty in Ne. cbn. by rewrite Ne.
Qed.

(** For the pat scheme the header is Basic with the base64 text of a colon
    and the token.  When [Buffer] gives a base64 text that is not empty and
    holds no space, and decodes it to what it encoded,
    [parseAuthorizationHeader] gives back the token up to its first colon:
    the token itself when it holds none. *)
Theorem basic_header_round_trip token :
  base64_of_utf8 (":" +:+ token) <> "" ->
  includes " " (base64_of_utf8 (":" +:+ token)) = false ->
  utf8_of_base64 (base64_of_utf8 (":" +:+ token)) = ":" +:+ token ->
  parseAuthorizationHeader (Some (formatAuthorizationHeader token pat)) =
    head (splitString ":" token) /\
  (includes ":" token = false ->
   parseAuthorizationHeader (Some (formatAuthorizationHeader token pat)) = Some token).
Proof.
  intros Ne I D.
  assert (P : parseAuthorizationHeader (Some (formatAuthorizationHeader token pat)) =
              head (splitString ":" token)).
  { unfold parseAuthorizationHeader, formatAuthorizationHeader.
    change ("Basic " +:+ ?e) with ("Basic" +:+ String " " e).
    rewrite splitString_joined by done. rewrite (splitString_whole _ _ I).
    apply truthy_nonempty in Ne.
    change (truthy ("Basic" +:+ _)) with true.
    cbn [truthy negb lookup list_lookup truthy_value orb default from_option id].
    rewrite Ne. cbn [negb orb].
    change (toLowerCase "Basic") with "basic".
    change (bool_decide ("basic" = "bearer")) with false.
    change (bool_decide ("basic" = "pat")) with false.
    change (bool_decide ("basic" = "basic")) with true.
    cbn [orb]. rewrite D.
    change (":" +:+ token) with ("" +:+ String ":" token).
    rewrite splitString_joined by done.
    pose proof (splitString_nonempty ":" token) as S.
    destruct (splitString ":" token) as [|first pieces]; [done|].
    by rewrite bool_decide_true. }
  split; [done|]. intros C. by rewrite P, (splitString_whole _ _ C).
Qed.

End AuthorizationHeader.

(** ** The options of the transport *)

Lemma same_options_refl t : same_options t t.
Proof. by split. Qed.

Lemma same_options_trans t1 t2 t3 :
  same_options t1 t2 -> same_options t2 t3 -> same_options t1 t3.
Proof. intros [? ? ?] [? ? ?]. split; congruence. Qed.

Lemma resolveOnStream_same_options t ref r : same_options t (resolveOnStream t ref r).
Proof.
  unfold resolveOnStream. cbn.
  destruct (alter _ ref _ !! ref) as [st0|]; [|by split].
  destruct (bool_decide _); by split.
Qed.

Lemma send_same_options t m related : same_options t (send t m related).1.
Proof.
  destruct (send_has_effect t m related) as [|ref st E C|ref st r E C L R I|r p E];
    try (by split).
  eapply same_options_trans; [|apply resolveOnStream_same_options]. by split.
Qed.

Lemma run_sends_same_options calls :
  forall t, same_options t (run_sends t calls).1.
Proof.
  induction calls as [|[m related] rest IH]; intros t; [by split|]. cbn.
  pose proof (send_same_options t m related) as S.
  destruct (send t m related) as [t1 o]. specialize (IH t1).
  destruct (run_sends t1 rest) as [t2 os]. by eapply same_options_trans.
Qed.

Lemma validateRequestHeaders_same_options t t' request :
  same_options t t' ->
  validateRequestHeaders t' request = validateRequestHeaders t request.
Proof. intros [Ho Hr Hp]. unfold validateRequestHeaders. by rewrite Ho, Hr, Hp. Qed.

Section Options.
Context `{Environment}.

Lemma startSession_same_options t : same_options t (startSession t).
Proof. unfold startSession. by destruct (sessionIdGenerator t). Qed.

Lemma deliver_same_options t messages extra :
  same_options t (deliver t messages extra).1.1.
Proof.
  unfold deliver. destruct (negb _).
  { rewrite dispatch_run_sends.
    pose proof (run_sends_same_options (handler_calls t messages extra) t) as S.
    by destruct (run_sends t _). }
  destruct (_enableJsonResponse t).
  - unfold collectJsonResponses.
    destruct (registerJson_spec (requestIdsOf messages) t) as (pending & -> & _).
    rewrite dispatch_run_sends.
    match goal with |- context [run_sends ?u ?c] =>
      pose proof (run_sends_same_options c u) as S; destruct (run_sends u c) end.
    eapply same_options_trans; [|exact S]. by split.
  - unfold createSseResponse, registerSse.
    destruct (registerPending_spec (randomUUID (uuidCalls t)) messages (tick_uuid t) ∅)
      as (index & -> & _ & _).
    rewrite dispatch_run_sends.
    match goal with |- context [run_sends ?u ?c] =>
      pose proof (run_sends_same_options c u) as S; destruct (run_sends u c) end.
    eapply same_options_trans; [|exact S]. by split.
Qed.

Lemma handlePostRequest_same_options t request auth :
  same_options t (handlePostRequest t request auth).1.1.
Proof.
  destruct (negotiated request) eqn:N.
  2: { by destruct (handlePostRequest_not_negotiated t request auth N) as (r & -> & _). }
  destruct (parseMessages (req_body request)) as [messages|] eqn:B.
  2: { rewrite (handlePostRequest_unparsed _ _ _ N B). cbn. unfold reportError.
       by destruct (onerror t). }
  destruct (existsb isInitializeRequest messages) eqn:I.
  - rewrite (handlePostRequest_initialize _ _ _ _ N B I).
    destruct (_ && _); [by split|]. destruct (bool_decide _); [by split|].
    eapply same_options_trans; [apply startSession_same_options|].
    apply deliver_same_options.
  - pose proof (handlePostRequest_other t _ auth _ N B I) as O.
    destruct (passes_checks t request).
    + rewrite O. apply deliver_same_options.
    + by destruct O as (r & -> & _).
Qed.

Lemma run_op_same_options t op : same_options t (run_op t op).
Proof.
  destruct op as [request auth|m related| |ref|ref]; cbn.
  - unfold handleRequest. destruct (validateRequestHeaders t request); [by split|].
    destruct (bool_decide (_ = "GET")).
    { unfold handleGetRequest. by destruct (_standaloneStream t). }
    destruct (bool_decide (_ = "POST")); [apply handlePostRequest_same_options|].
    destruct (bool_decide (_ = "DELETE")); [|by split].
    unfold handleDeleteRequest. destruct (sessionIdGenerator t); [|by split].
    destruct (hdr_mcp_session_id request) as [h|]; [|by split].
    destruct (negb (truthy h)); [by split|]. by destruct (bool_decide _).
  - apply send_same_options.
  - unfold close. by destruct (onclose _).
  - by split.
  - unfold cancelRequestStream. by destruct (objects t !! ref).
Qed.

Lemma run_ops_same_options ops : forall t, same_options t (run_ops t ops).
Proof.
  induction ops as [|op rest IH]; intros t; [by split|].
  eapply same_options_trans; [apply (run_op_same_options t op)|apply IH].
Qed.

End Options.

(** ** The worker *)

Section WorkerProperties.
Context `{Environment} `{BufferEncoding}.
Context (server : JSONRPCMessage -> MessageExtraInfo -> list SendCall).
Context (sessionUUID : nat -> string).

(** The header validation of the transport that the worker makes, at any
    later time: the lists are what [parseCsv] reads in MCP_ALLOWED_HOSTS
    and MCP_ALLOWED_ORIGINS.  With the protection on, a request passes when
    its Host is an entry of the first list and its Origin, if it has one, an
    entry of the second; a list without entries lets everything through, so
    the protection with both variables unset or empty turns no request
    down. *)
Theorem worker_header_validation env state ops request :
  initWorker server sessionUUID None env = Returns state ->
  validateRequestHeaders (run_ops (transport state) ops) request = None <->
  MCP_ENABLE_DNS_REBINDING_PROTECTION env <> Some "true" \/
  (parseCsv (MCP_ALLOWED_HOSTS env) = [] \/
   exists host, hdr_host request = Some host /\
                host ∈ parseCsv (MCP_ALLOWED_HOSTS env)) /\
  (parseCsv (MCP_ALLOWED_ORIGINS env) = [] \/
   hdr_origin request = None \/ hdr_origin request = Some "" \/
   exists origin, hdr_origin request = Some origin /\
                  origin ∈ parseCsv (MCP_ALLOWED_ORIGINS env)).
Proof.
  unfold initWorker. destruct (negb _); [done|]. intros [= <-]. cbn [transport].
  rewrite (validateRequestHeaders_same_options _ _ _ (run_ops_same_options ops _)).
  rewrite validateRequestHeaders_None. cbn. unfold getEnvValue.
  split.
  - intros [P|[Hh Ho]].
    { left. intros E. rewrite E in P. by rewrite bool_decide_true in P. }
    right. split.
    + destruct (parseCsv (MCP_ALLOWED_HOSTS env)) as [|e es] eqn:C; [by left|].
      right. destruct (Hh _ eq_refl) as (host & Eh & _ & I); [done|]. by exists host.
    + destruct (parseCsv (MCP_ALLOWED_ORIGINS env)) as [|e es] eqn:C; [by left|].
      right. destruct (hdr_origin request) as [origin|] eqn:O; [|by left].
      right. destruct (decide (origin = "")) as [->|Ne]; [by left|].
      right. exists origin. split; [done|]. by apply (Ho _ _ eq_refl).
  - intros [P|[Hh Ho]].
    { left. by apply bool_decide_eq_false. }
    right. split.
    + intros hosts [= <-] Ne. destruct Hh as [E|(host & Eh & I)]; [done|].
      exists host. split; [done|]. split; [|done].
      by destruct (parseCsv_csv_entry _ _ I).
    + intros origins origin [= <-] Ne O T.
      destruct Ho as [E|[E|[E|(o & E & I)]]]; [done|congruence|congruence|].
      congruence.
Qed.

(** A header that gives no token: one that is missing, one without a
    space, and one whose first word is none of bearer, pat and basic in any
    letter case. *)
Lemma parseAuthorizationHeader_no_token headerValue :
  headerValue = None \/
  (exists word, headerValue = Some word /\ includes " " word = false) \/
  (exists scheme rest,
      headerValue = Some (scheme +:+ String " " rest) /\
      includes " " scheme = false /\
      toLowerCase scheme ∉ ["bearer"; "pat"; "basic"]) ->
  parseAuthorizationHeader headerValue = None.
Proof.
  intros [->|[(word & -> & I)|(scheme & rest & -> & I & N)]]; [done| |].
  - unfold parseAuthorizationHeader. destruct (negb (truthy word)); [done|].
    rewrite (splitString_whole _ _ I). cbn [lookup list_lookup truthy_value negb].
    by rewrite orb_true_r.
  - unfold parseAuthorizationHeader. destruct (negb (truthy _)); [done|].
    rewrite splitString_joined by done.
    cbn [lookup list_lookup truthy_value default from_option id].
    destruct (negb (truthy scheme) || negb (truthy_value (splitString " " rest !! 0)));
      [done|].
    rewrite !not_elem_of_cons in N. destruct N as (N1 & N2 & N3 & _).
    by rewrite !bool_decide_false.
Qed.

(** What [fetch] answers itself.  A request for another path is answered
    404, whatever else it brings.  Under the authentication type "pat" a
    request on the path is answered 401 with a Bearer challenge when its
    Authorization header gives no token: when the header is missing, has
    no space, or starts with a word that is none of bearer, pat and basic.
    Neither request reaches the transport. *)
Theorem fetch_guards cachedState request env state :
  initWorker server sessionUUID cachedState env = Returns state ->
  (url_pathname request <> path state ->
   fetch server sessionUUID cachedState request env =
     (Some state, [], Returns (TextResponse 404 [] "Not Found"))) /\
  (url_pathname request = path state -> authenticationType state = "pat" ->
   hdr_authorization request = None \/
   (exists word, hdr_authorization request = Some word /\ includes " " word = false) \/
   (exists scheme rest,
       hdr_authorization request = Some (scheme +:+ String " " rest) /\
       includes " " scheme = false /\
       toLowerCase scheme ∉ ["bearer"; "pat"; "basic"]) ->
   fetch server sessionUUID cachedState request env =
     (Some state, [],
      Returns (TextResponse 401 [("WWW-Authenticate", "Bearer")] "Unauthorized"))).
Proof.
  intros I. unfold fetch. rewrite I. split.
  - intros Ne. by rewrite bool_decide_false.
  - intros E A T. rewrite bool_decide_true by done. cbn [negb].
    by rewrite A, (parseAuthorizationHeader_no_token _ T).
Qed.

(** Under the authentication type "pat" every request that [fetch] hands
    to the transport carries the token of its Authorization header, which
    is not empty, as its auth info; and for a message with a non-empty
    token in its auth info the token provider returns that token, whatever
    the environment and the authentication type. *)
Theorem pat_requests_carry_a_token cachedState request env state cached' outcomes result :
  initWorker server sessionUUID cachedState env = Returns state ->
  authenticationType state = "pat" ->
  fetch server sessionUUID cachedState request env =
    (cached', outcomes, Returns (TransportResult result)) ->
  exists token,
    parseAuthorizationHeader (hdr_authorization request) = Some token /\
    token <> "" /\
    (handleRequest (transport state) (transport_request request) (Some token)).1.2
      = outcomes /\
    (handleRequest (transport state) (transport_request request) (Some token)).2
      = result /\
    (transport <$> cached') =
      Some (handleRequest (transport state) (transport_request request) (Some token)).1.1 /\
    forall env' authenticationType extra,
      authInfo extra = Some token ->
      tokenProvider env' authenticationType (Some extra) = Returns token.
Proof.
  intros I A. unfold fetch. rewrite I, A.
  destruct (negb (bool_decide (url_pathname request = path state))); [done|].
  rewrite bool_decide_true by done. cbn [andb].
  destruct (parseAuthorizationHeader (hdr_authorization request)) as [token|]; [|done].
  cbn [truthy_value]. destruct (truthy token) eqn:T; [|done]. cbn [negb].
  destruct (handleRequest (transport state) (transport_request request) (Some token))
    as [[t os] r] eqn:Hr.
  intros [= <- <- <-].
  exists token. rewrite Hr. split; [done|]. split; [by apply truthy_nonempty|].
  repeat split. intros env' ty extra E. unfold tokenProvider. cbn.
  rewrite E. cbn. by rewrite T.
Qed.

(** The authentication type that [initWorker] works out when ADO_AUTH_TYPE
    is not set is "envvar" as soon as one of ADO_MCP_AUTH_TOKEN and ADO_PAT
    is not empty, but the token provider reads ADO_PAT only when
    ADO_MCP_AUTH_TOKEN is not set at all: with ADO_MCP_AUTH_TOKEN set to
    the empty string and a token in ADO_PAT, the provider throws for every
    message that brings no token of its own. *)
Theorem empty_token_variable_hides_the_pat env extra :
  ADO_AUTH_TYPE env = None -> ADO_MCP_AUTH_TOKEN env = Some "" ->
  truthy_value (ADO_PAT env) = true ->
  truthy_value (extra ≫= authInfo) = false ->
  authenticationTypeOf env = "envvar" /\
  resolveAuthScheme (authenticationTypeOf env) = pat /\
  tokenProvider env (authenticationTypeOf env) extra =
    Throws "Missing ADO_MCP_AUTH_TOKEN/ADO_PAT for envvar authentication.".
Proof.
  intros Ty To Pa Ex.
  assert (A : authenticationTypeOf env = "envvar").
  { unfold authenticationTypeOf, getEnvValue. rewrite Ty, To, Pa. done. }
  rewrite A. split; [done|]. split; [done|].
  unfold tokenProvider, getEnvValue, AuthInfo in *. cbv zeta. by rewrite Ex, To.
Qed.

End WorkerProperties.

(** * The logger *)

(** What the configured level lets through.  LOG_LEVEL is read without
    regard to letter case, "warn" is read as warning, and a value that is
    missing or names no level is read as info.  An entry is written exactly
    when its level is not above the configured one in the order error,
    warning, info, debug, verbose: errors are written under every
    configuration, and a more verbose configuration hides nothing that a
    less verbose one shows. *)
Theorem log_level_filter input timestamp method message args :
  (is_Some (logger (normalizeLevel input) timestamp method message args) <->
   ORDER (methodLevel method) <= ORDER (normalizeLevel input)) /\
  is_Some (logger (normalizeLevel input) timestamp log_error message args) /\
  (forall input',
      ORDER (normalizeLevel input) <= ORDER (normalizeLevel input') ->
      is_Some (logger (normalizeLevel input) timestamp method message args) ->
      is_Some (logger (normalizeLevel input') timestamp method message args)) /\
  (forall level,
      toLowerCase <$> input = Some (levelName level) -> normalizeLevel input = level) /\
  (toLowerCase <$> input = Some "warn" -> normalizeLevel input = LevelWarning) /\
  ((forall level, toLowerCase <$> input <> Some (levelName level)) ->
   toLowerCase <$> input <> Some "warn" -> normalizeLevel input = LevelInfo).
Proof.
  assert (W : forall configured,
             is_Some (logger configured timestamp method message args) <->
             ORDER (methodLevel method) <= ORDER configured).
  { intros configured. unfold logger, write. case_bool_decide as O.
    - split; [by intros [? ?]|lia].
    - split; [lia|by eexists]. }
  split; [apply W|]. split; [by unfold logger, write; cbn; eexists|].
  split; [intros input' O; rewrite !W; lia|].
  destruct input as [input|]; cbn.
  - unfold normalizeLevel. split; [intros level [= ->]; by destruct level|].
    split; [by intros [= ->]|]. intros N Nw.
    repeat case_bool_decide; try done.
    + by destruct (N LevelError); f_equal.
    + by destruct (N LevelWarning); f_equal.
    + by destruct (N LevelDebug); f_equal.
    + by destruct (N LevelVerbose); f_equal.
    + destruct Nw. by f_equal.
  - split; [done|]. split; [done|]. done.
Qed.

Lemma foldl_assign_app payload items more :
  foldl assign payload (items ++ more) = foldl assign (foldl assign payload items) more.
Proof. apply foldl_app. Qed.

Lemma filter_none {A} (f : A -> bool) (l : list A) :
  Forall (fun x => f x = false) l -> List.filter f l = [].
Proof. induction 1 as [|x l E F IH]; [done|]. cbn. by rewrite E. Qed.

(** An instance of [Error] among the arguments of a log call is logged
    as its name, message and stack, which are set on the entry like the
    properties of any object argument: when no object argument follows it,
    the message of the entry is the message of the error, not the message
    that the caller gave. *)
Theorem logged_error_replaces_the_message
    configured timestamp level message before name text stack after payload :
  write configured timestamp level message (before ++ ArgError name text stack :: after)
    = Some payload ->
  Forall (fun arg => isObjectArg (normalizeArg arg) = false) after ->
  payload !! "message" = Some (JsString text) /\
  payload !! "name" = Some (JsString name) /\
  payload !! "stack" = Some (match stack with
                            | Some s => JsString s
                            | None => JsUndefined
                            end).
Proof.
  unfold write. case_bool_decide as O; [done|]. intros [= <-] F.
  set (normalized := map normalizeArg (before ++ ArgError name text stack :: after)).
  assert (Obj : List.filter isObjectArg normalized =
                List.filter isObjectArg (map normalizeArg before) ++
                [normalizeArg (ArgError name text stack)]).
  { unfold normalized. rewrite List.map_app, List.filter_app. f_equal.
    cbn [map List.filter normalizeArg isObjectArg]. f_equal.
    apply filter_none, Forall_map. exact F. }
  rewrite Obj, foldl_assign_app. generalize (List.filter (fun item => negb (isObjectArg item))
                                              normalized).
  intros scalars. cbn [foldl assign normalizeArg].
  change (bool_decide ("name" = "__proto__")) with false.
  change (bool_decide ("message" = "__proto__")) with false.
  change (bool_decide ("stack" = "__proto__")) with false.
  cbv iota.
  set (base := foldl assign _ _).
  assert (L : forall key value (m : gmap string JsValue),
             key <> "extra" -> m !! key = Some value ->
             (if bool_decide (0 < length scalars)
              then <["extra" := JsArray scalars]> m else m) !! key = Some value).
  { intros key value m Ne E. destruct (bool_decide _); [|done].
    by rewrite lookup_insert_ne. }
  split; [|split]; apply L; try done.
  - rewrite lookup_insert_ne by done. apply lookup_insert_eq.
  - rewrite !lookup_insert_ne by done. apply lookup_insert_eq.
  - apply lookup_insert_eq.
Qed.

(** * The further properties at concrete transports and workers *)

Lemma rejected_request_changes_nothing_witness :
  let request := demo_method "DELETE" None in
  let response := jsonRpcError 405 (-32000) "Method not allowed." in
  @handleRequest demo_environment sse_transport request None =
    (sse_transport, [], Respond response) /\
  400 <= status response /\
  ([] : list SendOutcome) = [] /\
  (sse_transport = sse_transport \/
   sse_transport = reportError sse_transport /\
   response = jsonRpcError 400 (-32700) "Parse error").
Proof.
  intros request response.
  assert (E : @handleRequest demo_environment sse_transport request None =
              (sse_transport, [], Respond response)) by reflexivity.
  assert (S : 400 <= status response) by (cbn; lia).
  split; [exact E|]. split; [exact S|].
  exact (@rejected_request_changes_nothing demo_environment sse_transport request None
           sse_transport [] response E S).
Defined.

Lemma error_responses_are_envelopes_witness :
  let request := demo_method "PATCH" None in
  let busy := (@handleGetRequest demo_environment sse_transport).1 in
  @handleRequest demo_environment sse_transport request None =
    (sse_transport, [], Respond handleUnsupportedRequest) /\
  headers handleUnsupportedRequest = [("Allow", "GET, POST, DELETE")] /\
  (exists code message,
      (@handleRequest demo_environment busy (demo_method "get" None) None).2 =
        Respond (jsonRpcError 409 code message)) /\
  toUpperCase (req_method request) ∉ ["GET"; "POST"; "DELETE"].
Proof.
  intros request busy.
  assert (E : @handleRequest demo_environment sse_transport request None =
              (sse_transport, [], Respond handleUnsupportedRequest)) by reflexivity.
  assert (S : 400 <= status handleUnsupportedRequest) by (cbn; lia).
  split; [exact E|]. split; [reflexivity|]. split.
  { eexists _, _. reflexivity. }
  destruct (@error_responses_are_envelopes demo_environment sse_transport request None
              sse_transport [] handleUnsupportedRequest E S)
    as [(code & message & R & _)|[_ N]]; [discriminate R|exact N].
Defined.


Lemma demo_generator_inj a b : demo_generator a = demo_generator b -> a = b.
Proof. intros E. apply tally_inj. by injection E. Qed.

Lemma retired_session_id_stays_retired_witness :
  let options := demo_options (Some demo_generator) false in
  let initialize := OpRequest (demo_request None [initialize_request]) None in
  let t := @run_ops demo_environment (connect silent_handler (constructor options))
             [initialize] in
  let request := demo_method "DELETE" (Some "session-") in
  let t' := @run_ops demo_environment (handleDeleteRequest t request).1 [initialize] in
  status (handleDeleteRequest t request).2 = 204 /\
  sessionId t' = Some "session-i" /\
  handleDeleteRequest t' request = (t', jsonRpcError 404 (-32001) "Session not found").
Proof.
  intros options initialize t request t'.
  assert (D : status (handleDeleteRequest t request).2 = 204) by reflexivity.
  split; [exact D|]. split; [reflexivity|].
  exact (proj1 (proj2 (@retired_session_id_stays_retired demo_environment options
                         silent_handler demo_generator [initialize] request [initialize]
                         eq_refl demo_generator_inj D))).
Defined.

Lemma get_is_not_session_checked_witness :
  let t := (@handlePostRequest demo_environment session_transport
              (demo_request None [initialize_request]) None).1.1 in
  let request := demo_method "GET" None in
  sessionId t = Some "session-" /\
  toUpperCase (req_method request) = "GET" /\
  validateRequestHeaders t request = None /\ _standaloneStream t = None /\
  exists t' ref,
    @handleRequest demo_environment t request None =
      (t', [], Respond {| status := 200; headers := sseHeaders t;
                          body := BodyEventStream ref |}) /\
    _standaloneStream t' = Some ref.
Proof.
  intros t request.
  assert (M : toUpperCase (req_method request) = "GET") by reflexivity.
  split; [reflexivity|]. split; [exact M|]. split; [reflexivity|]. split; [reflexivity|].
  exact (proj2 (@get_is_not_session_checked demo_environment t request None M)
               eq_refl eq_refl).
Defined.

Lemma unrelated_messages_reach_the_standalone_stream_witness :
  let t := (@handleGetRequest demo_environment sse_transport).1 in
  let messages := [notification_1; notification_2] in
  let st := new_stream "stream-" ∅ in
  Forall (fun m => isReply m = false) messages /\
  objects t !! 0 = Some st /\
  run_sends t (unrelated messages) =
    (set_objects (<[0 := with_events st messages]> (objects t)) t, [Sent; Sent]) /\
  run_sends sse_transport (unrelated messages) = (sse_transport, [Sent; Sent]).
Proof.
  intros t messages st.
  assert (F : Forall (fun m => isReply m = false) messages) by (by repeat constructor).
  split; [exact F|]. split; [reflexivity|]. split.
  - exact (unrelated_messages_reach_the_standalone_stream t messages F st eq_refl eq_refl).
  - exact (unrelated_messages_reach_the_standalone_stream sse_transport messages F).
Defined.

Lemma progress_events_keep_the_stream_open_witness :
  let t := (@registerSse demo_environment sse_transport [request_1]).1 in
  let st := new_stream "stream-" (list_to_set [IdNumber 1]) in
  let progress := [notification_2; notification_2] in
  _enableJsonResponse t = false /\ owns t 0 st /\ IdNumber 1 ∈ pendingIds st /\
  Forall (fun m => isReply m = false) progress /\
  (run_sends t (related_to (IdNumber 1) progress)).2 = [Sent; Sent] /\
  owns (run_sends t (related_to (IdNumber 1) progress)).1 0 (with_events st progress).
Proof.
  intros t st progress.
  assert (J : _enableJsonResponse t = false) by reflexivity.
  assert (O : owns t 0 st).
  { pose proof (@registerSse_owns demo_environment sse_transport [request_1]
                  (connect_well_formed _ _ (constructor_well_formed _)) eq_refl eq_refl)
      as R.
    assert (E : @registerSse demo_environment sse_transport [request_1] = (t, 0))
      by (vm_compute; reflexivity).
    rewrite E in R. exact (proj2 (proj2 R)). }
  assert (P : IdNumber 1 ∈ pendingIds st).
  { apply elem_of_list_to_set, list_elem_of_here. }
  assert (F : Forall (fun m => isReply m = false) progress) by (by repeat constructor).
  split; [exact J|]. split; [exact O|]. split; [exact P|]. split; [exact F|].
  pose proof (progress_events_keep_the_stream_open t 0 st (IdNumber 1) progress J O P F)
    as R.
  destruct (run_sends t (related_to (IdNumber 1) progress)) as [t1 outcomes].
  exact R.
Defined.

Lemma close_abandons_waiting_posts_witness :
  let t := (collectJsonResponses json_transport [request_1] demo_extra).1.1 in
  let awaited := (collectJsonResponses json_transport [request_1] demo_extra).2 in
  let ops := [OpSend response_1 None] in
  awaited = [0] /\ promises t !! 0 = Some None /\
  resumeJsonResponse (@run_ops demo_environment t ops) awaited =
    Some (jsonResponse json_transport (PayloadObject response_1)) /\
  resumeJsonResponse (@run_ops demo_environment (close t) ops) awaited = None.
Proof.
  intros t awaited ops.
  assert (P : promises t !! 0 = Some None) by reflexivity.
  split; [reflexivity|]. split; [exact P|]. split; [reflexivity|].
  exact (@close_abandons_waiting_posts demo_environment t [0] 0 ops
           (list_elem_of_here 0 []) P).
Defined.


Lemma invalid_element_rejects_the_batch_witness :
  let items := [Some request_1; None; Some request_2] in
  let request := demo_body items in
  let t := connect echo_handler sse_transport in
  negotiated request = true /\ None ∈ items /\
  @handlePostRequest demo_environment t request None =
    (reportError t, [], Respond (jsonRpcError 400 (-32700) "Parse error")) /\
  onerrorCalls (reportError t) = 1.
Proof.
  intros items request t.
  assert (N : negotiated request = true) by reflexivity.
  assert (I : None ∈ items) by apply list_elem_of_further, list_elem_of_here.
  split; [exact N|]. split; [exact I|].
  pose proof (@invalid_element_rejects_the_batch demo_environment t request None items
                N eq_refl I) as (E & C & _).
  split; [exact E|exact C].
Defined.



Lemma send_never_meets_a_closed_controller_witness :
  let ops := [OpRequest (demo_method "GET" None) None;
              OpCancelStandalone 0;
              OpRequest (demo_request None [request_1; request_2]) None;
              OpSend response_1 None;
              OpCancelStream 1;
              OpSend response_2 None] in
  let t := @run_ops demo_environment sse_transport ops in
  @cancels_fit demo_environment sse_transport ops /\
  send t notification_1 (Some (IdNumber 2)) = (t, ThrowNoConnection (IdNumber 2)) /\
  (send t notification_1 (Some (IdNumber 2))).2 <> ThrowEnqueue.
Proof.
  intros ops t.
  assert (F : @cancels_fit demo_environment sse_transport ops).
  { split; [exact I|]. split.
    { intros streamId. change (_streams _) with (∅ : gmap string nat).
      rewrite lookup_empty. discriminate. }
    split; [exact I|]. split; [exact I|]. split; [discriminate|]. split; exact I. }
  split; [exact F|]. split; [reflexivity|].
  exact (proj1 (proj2 (@send_never_meets_a_closed_controller demo_environment
                         (demo_options None false) silent_handler ops F))
               notification_1 (Some (IdNumber 2))).
Defined.

Lemma cancelled_stream_refuses_replies_witness :
  let t := (@registerSse demo_environment sse_transport [request_1]).1 in
  let st := new_stream "stream-" (list_to_set [IdNumber 1]) in
  let t' := cancelRequestStream t 0 in
  _enableJsonResponse t = false /\ owns t 0 st /\ IdNumber 1 ∈ pendingIds st /\
  (send t response_1 None).2 = Sent /\
  send t' response_1 None = (t', ThrowNoConnection (IdNumber 1)).
Proof.
  intros t st t'.
  assert (J : _enableJsonResponse t = false) by reflexivity.
  assert (O : owns t 0 st).
  { pose proof (@registerSse_owns demo_environment sse_transport [request_1]
                  (connect_well_formed _ _ (constructor_well_formed _)) eq_refl eq_refl)
      as R.
    assert (E : @registerSse demo_environment sse_transport [request_1] = (t, 0))
      by (vm_compute; reflexivity).
    rewrite E in R. exact (proj2 (proj2 R)). }
  assert (P : IdNumber 1 ∈ pendingIds st).
  { apply elem_of_list_to_set, list_elem_of_here. }
  split; [exact J|]. split; [exact O|]. split; [exact P|]. split; [reflexivity|].
  exact (proj2 (proj2 (cancelled_stream_refuses_replies t 0 st response_1 None (IdNumber 1)
                         J O P eq_refl eq_refl))).
Defined.

Lemma parseCsv_of_joined_witness :
  let entries := ["localhost"; "example.com:8787"] in
  Forall csv_entry entries /\
  parseCsv (Some "localhost,example.com:8787") = entries /\
  parseCsv (Some " localhost , example.com:8787 ,, ") = entries.
Proof.
  intros entries.
  assert (F : Forall csv_entry entries).
  { repeat constructor; discriminate. }
  split; [exact F|]. split; [|reflexivity].
  exact (parseCsv_of_joined entries F).
Defined.

Lemma bearer_header_round_trip_witness :
  "secret" <> "" /\ includes " " "secret" = false /\
  @parseAuthorizationHeader demo_buffer (Some "Bearer secret") = Some "secret".
Proof.
  assert (Ne : "secret" <> "") by discriminate.
  split; [exact Ne|]. split; [reflexivity|].
  exact (@bearer_header_round_trip demo_buffer "secret" Ne eq_refl).
Defined.

Lemma basic_header_round_trip_witness :
  @base64_of_utf8 demo_buffer ":secret" = "OnNlY3JldA==" /\
  @utf8_of_base64 demo_buffer "OnNlY3JldA==" = ":secret" /\
  @formatAuthorizationHeader demo_buffer "secret" pat = "Basic OnNlY3JldA==" /\
  @parseAuthorizationHeader demo_buffer (Some "Basic OnNlY3JldA==") = Some "secret".
Proof.
  assert (Ne : @base64_of_utf8 demo_buffer (":" +:+ "secret") <> "") by discriminate.
  split; [reflexivity|]. split; [reflexivity|]. split; [reflexivity|].
  exact (proj2 (@basic_header_round_trip demo_buffer "secret" Ne eq_refl eq_refl)
               eq_refl).
Defined.

Lemma worker_header_validation_witness :
  let env := demo_env None (Some "localhost, example.com") in
  let state := {| transport := connect silent_handler
                                 (constructor (workerOptions demo_generator env));
                  authScheme := pat; authenticationType := "pat"; path := "/mcp" |} in
  let ops := [OpRequest (demo_request None [initialize_request]) None] in
  @initWorker silent_handler demo_generator None env = Returns state /\
  validateRequestHeaders (@run_ops demo_environment (transport state) ops)
    (demo_method "GET" None) = None /\
  validateRequestHeaders (transport state)
    {| req_method := "GET"; hdr_host := Some "evil.example"; hdr_origin := None;
       hdr_accept := None; hdr_content_type := None; hdr_mcp_session_id := None;
       hdr_mcp_protocol_version := None; req_body := BodyMalformed |}
  = Some "Bad Request: Invalid Host header".
Proof.
  intros env state ops.
  assert (W : @initWorker silent_handler demo_generator None env = Returns state)
    by reflexivity.
  split; [exact W|]. split; [|reflexivity].
  apply (proj2 (@worker_header_validation demo_environment silent_handler demo_generator
                  env state ops (demo_method "GET" None) W)).
  right. split.
  - right. exists "localhost". split; [reflexivity|]. apply list_elem_of_here.
  - right. left. reflexivity.
Defined.

Lemma fetch_guards_witness :
  let env := demo_env None None in
  let state := {| transport := connect silent_handler
                                 (constructor (workerOptions demo_generator env));
                  authScheme := pat; authenticationType := "pat"; path := "/mcp" |} in
  @initWorker silent_handler demo_generator None env = Returns state /\
  @fetch demo_environment demo_buffer silent_handler demo_generator None
    (demo_fetch "/other" None (demo_method "GET" None)) env =
    (Some state, [], Returns (TextResponse 404 [] "Not Found")) /\
  @fetch demo_environment demo_buffer silent_handler demo_generator None
    (demo_fetch "/mcp" (Some "Digest secret") (demo_method "GET" None)) env =
    (Some state, [],
     Returns (TextResponse 401 [("WWW-Authenticate", "Bearer")] "Unauthorized")).
Proof.
  intros env state.
  assert (W : @initWorker silent_handler demo_generator None env = Returns state)
    by reflexivity.
  split; [exact W|].
  pose proof (fun request =>
                @fetch_guards demo_environment demo_buffer silent_handler demo_generator
                  None request env state W) as G.
  split.
  - apply (proj1 (G _)). discriminate.
  - apply (proj2 (G _)); [reflexivity|reflexivity|].
    right. right. exists "Digest", "secret". split; [reflexivity|].
    split; [reflexivity|]. vm_compute.
    intros In. repeat (apply elem_of_cons in In as [In|In]; [discriminate|]).
    by apply elem_of_nil in In.
Defined.

Lemma pat_requests_carry_a_token_witness :
  let env := demo_env None None in
  let request := demo_fetch "/mcp" (Some "Bearer secret")
                   (demo_request None [initialize_request]) in
  exists state handled,
    @initWorker silent_handler demo_generator None env = Returns state /\
    authenticationType state = "pat" /\
    @handleRequest demo_environment (transport state) (transport_request request)
      (Some "secret") = handled /\
    @fetch demo_environment demo_buffer silent_handler demo_generator None request env =
      (Some {| transport := handled.1.1; authScheme := pat;
               authenticationType := "pat"; path := "/mcp" |},
       handled.1.2, Returns (TransportResult handled.2)) /\
    tokenProvider env "pat"
      (Some {| authInfo := Some "secret"; requestInfo := transport_request request |})
      = Returns "secret".
Proof.
  intros env request. eexists. eexists.
  split; [reflexivity|]. split; [reflexivity|]. split; [reflexivity|].
  assert (F : @fetch demo_environment demo_buffer silent_handler demo_generator None
                request env =
              (Some {| transport :=
                         (@handleRequest demo_environment
                            (connect silent_handler
                               (constructor (workerOptions demo_generator env)))
                            (transport_request request) (Some "secret")).1.1;
                       authScheme := pat; authenticationType := "pat"; path := "/mcp" |},
               (@handleRequest demo_environment
                  (connect silent_handler (constructor (workerOptions demo_generator env)))
                  (transport_request request) (Some "secret")).1.2,
               Returns (TransportResult
                          (@handleRequest demo_environment
                             (connect silent_handler
                                (constructor (workerOptions demo_generator env)))
                             (transport_request request) (Some "secret")).2)))
    by (vm_compute; reflexivity).
  split; [exact F|].
  destruct (@pat_requests_carry_a_token demo_environment demo_buffer silent_handler
              demo_generator None request env _ _ _ _ eq_refl eq_refl F)
    as (token & P & _ & _ & _ & _ & T).
  assert (token = "secret") as -> by (vm_compute in P; congruence).
  exact (T env "pat"
           {| authInfo := Some "secret"; requestInfo := transport_request request |}
           eq_refl).
Defined.

Lemma empty_token_variable_hides_the_pat_witness :
  let env := {| ADO_ORG := Some "contoso"; ADO_AUTH_TYPE := None;
                ADO_MCP_AUTH_TOKEN := Some ""; ADO_PAT := Some "secret";
                MCP_HTTP_PATH := None; MCP_ENABLE_JSON_RESPONSE := None;
                MCP_STATEFUL := None; MCP_ALLOWED_ORIGINS := None;
                MCP_ALLOWED_HOSTS := None;
                MCP_ENABLE_DNS_REBINDING_PROTECTION := None |} in
  authenticationTypeOf env = "envvar" /\
  tokenProvider env "envvar" None =
    Throws "Missing ADO_MCP_AUTH_TOKEN/ADO_PAT for envvar authentication.".
Proof.
  intros env.
  pose proof (empty_token_variable_hides_the_pat env None eq_refl eq_refl eq_refl eq_refl)
    as (A & _ & T).
  split; [exact A|]. rewrite A in T. exact T.
Defined.

Lemma logged_error_replaces_the_message_witness :
  let args := [ArgValue (JsObject [("path", JsString "/mcp")]);
               ArgError "TypeError" "fetch failed" None;
               ArgValue (JsScalar "500")] in
  exists payload,
    logger (normalizeLevel None) "2025-01-01T00:00:00.000Z" log_error
      "HTTP transport error" args = Some payload /\
    payload !! "message" = Some (JsString "fetch failed") /\
    payload !! "level" = Some (JsString "error") /\
    payload !! "path" = Some (JsString "/mcp") /\
    payload !! "extra" = Some (JsArray [JsScalar "500"]).
Proof.
  intros args. eexists. split; [reflexivity|].
  split; [|split; [|split]]; [|reflexivity..].
  refine (proj1 (logged_error_replaces_the_message LevelInfo "2025-01-01T00:00:00.000Z"
                   LevelError "HTTP transport error"
                   [ArgValue (JsObject [("path", JsString "/mcp")])]
                   "TypeError" "fetch failed" None [ArgValue (JsScalar "500")] _
                   eq_refl _)).
  by repeat constructor.
Defined.
